(** * simple-expression-engine: a shallow embedding and its verified properties

    The development follows the layout of the TypeScript sources:

    - the part of the ECMAScript runtime the code relies on ([Date] time
      values and their calendar decomposition, ECMA-262 section 21.4.1);
    - [date-utils.ts]: [parseDate], [formatDate], [addToDate],
      [getCurrentDate];
    - [tokenizer.ts], [parser.ts]: tokens, the recursive-descent parser;
    - [variable-resolver.ts], [evaluator.ts]: typed values and evaluation;
    - [engine.ts]: [processText], [extractExpressions],
      [validateExpression].

    Conventions.  A JavaScript string is a Rocq [string], one [ascii] per
    code unit.  A Number that holds an integer is a [Z]; a Number that may
    be NaN is an [option Z] with [None] for NaN.  A [Date] object is its
    time value, [option Z] in milliseconds since the epoch, [None] being
    the Invalid Date.  Objects used as dictionaries are [gmap]s over their
    own keys, and [name in object] is membership among them (the names the
    tokenizer lets through, runs of [A-Z_], are never inherited ones). *)

From Stdlib Require Import ZArith Lia List Bool Ascii String.
From stdpp Require Import base option gmap strings.
Import ListNotations.

Local Open Scope string_scope.
Local Open Scope Z_scope.

(** ** ECMAScript time values (ECMA-262, 21.4.1) *)

Definition msPerDay : Z := 86400000.

Definition Day (t : Z) : Z := t / msPerDay.

Definition TimeWithinDay (t : Z) : Z := t mod msPerDay.

Definition isLeapYear (y : Z) : bool :=
  ((y mod 4 =? 0) && negb (y mod 100 =? 0)) || (y mod 400 =? 0).

Definition DaysInYear (y : Z) : Z := if isLeapYear y then 366 else 365.

Definition DayFromYear (y : Z) : Z :=
  365 * (y - 1970) + (y - 1969) / 4 - (y - 1901) / 100 + (y - 1601) / 400.

Definition TimeFromYear (y : Z) : Z := msPerDay * DayFromYear y.

(** The year of a day number.  ECMA-262 specifies it as the largest [y]
    with [DayFromYear y <= d]; the computation below counts 400-, 100-,
    4- and 1-year cycles from 1 January 1601 ([YearFromDay_spec] shows
    that it meets the specification). *)
Definition YearFromDay (d : Z) : Z :=
  let n := d + 134774 in
  let n400 := n / 146097 in
  let r := n mod 146097 in
  let n100 := Z.min (r / 36524) 3 in
  let r1 := r - n100 * 36524 in
  let n4 := r1 / 1461 in
  let r2 := r1 mod 1461 in
  let n1 := Z.min (r2 / 365) 3 in
  1601 + 400 * n400 + 100 * n100 + 4 * n4 + n1.

Definition YearFromTime (t : Z) : Z := YearFromDay (Day t).

(** 1 in a leap year, else 0. *)
Definition leapDay (y : Z) : Z := if isLeapYear y then 1 else 0.

Definition InLeapYear (t : Z) : Z := leapDay (YearFromTime t).

Definition DayWithinYear (t : Z) : Z := Day t - DayFromYear (YearFromTime t).

(** Day within the year on which month [m] (0-based) starts; [leap] is 1 in
    a leap year.  Index 12 is the length of the year. *)
Definition monthStart (leap m : Z) : Z :=
  match m with
  | 0 => 0
  | 1 => 31
  | 2 => 59 + leap
  | 3 => 90 + leap
  | 4 => 120 + leap
  | 5 => 151 + leap
  | 6 => 181 + leap
  | 7 => 212 + leap
  | 8 => 243 + leap
  | 9 => 273 + leap
  | 10 => 304 + leap
  | 11 => 334 + leap
  | _ => 365 + leap
  end.

Definition MonthFromTime (t : Z) : Z :=
  let d := DayWithinYear t in
  let l := InLeapYear t in
  if d <? 31 then 0
  else if d <? 59 + l then 1
  else if d <? 90 + l then 2
  else if d <? 120 + l then 3
  else if d <? 151 + l then 4
  else if d <? 181 + l then 5
  else if d <? 212 + l then 6
  else if d <? 243 + l then 7
  else if d <? 273 + l then 8
  else if d <? 304 + l then 9
  else if d <? 334 + l then 10
  else 11.

Definition DateFromTime (t : Z) : Z :=
  DayWithinYear t - monthStart (InLeapYear t) (MonthFromTime t) + 1.

(** [MakeDay year month date]: the day number of the [date]-th day of month
    [month] of [year]; months outside 0..11 carry into the year, and dates
    outside the month carry into neighbouring months. *)
Definition MakeDay (year month date : Z) : Z :=
  let ym := year + month / 12 in
  let mn := month mod 12 in
  DayFromYear ym + monthStart (leapDay ym) mn + date - 1.

Definition MakeDate (day time : Z) : Z := day * msPerDay + time.

Definition maxTime : Z := 8640000000000000.

(** [TimeClip]: a time value beyond 100,000,000 days from the epoch is NaN. *)
Definition TimeClip (t : Z) : option Z :=
  if Z.abs t <=? maxTime then Some t else None.

Definition DaysInMonth (y m : Z) : Z :=
  monthStart (leapDay y) (m + 1) - monthStart (leapDay y) m.

(** ** Date objects *)

(** A [Date] is its time value; [None] is the Invalid Date (NaN). *)
Definition Date : Type := option Z.

(** [new Date(date)]: a copy of the time value. *)
Definition Date_copy (d : Date) : Date := t ← d; TimeClip t.

Definition getTime (d : Date) : option Z := d.

Definition getUTCFullYear (d : Date) : option Z := YearFromTime <$> d.

Definition getUTCMonth (d : Date) : option Z := MonthFromTime <$> d.

Definition getUTCDate (d : Date) : option Z := DateFromTime <$> d.

(** Number addition where either operand may be NaN. *)
Definition num_add (a : option Z) (b : Z) : option Z := (fun x => x + b) <$> a.

Definition setUTCDate (d : Date) (date : option Z) : Date :=
  t ← d;
  dt ← date;
  TimeClip (MakeDate (MakeDay (YearFromTime t) (MonthFromTime t) dt) (TimeWithinDay t)).

Definition setUTCMonth (d : Date) (month : option Z) : Date :=
  t ← d;
  m ← month;
  TimeClip (MakeDate (MakeDay (YearFromTime t) m (DateFromTime t)) (TimeWithinDay t)).

(** [setUTCFullYear] starts from +0 when the date is invalid. *)
Definition setUTCFullYear (d : Date) (year : option Z) : Date :=
  let t := default 0 d in
  y ← year;
  TimeClip (MakeDate (MakeDay y (MonthFromTime t) (DateFromTime t)) (TimeWithinDay t)).

(** Strict inequality [!==] on Numbers: NaN differs from everything. *)
Definition num_strict_neq (a b : option Z) : bool :=
  match a, b with
  | Some x, Some y => negb (x =? y)
  | _, _ => true
  end.

(** ** Strings and character classes *)

Definition charCode (c : ascii) : Z := Z.of_N (N_of_ascii c).

(** [\d] and [[0-9]] *)
Definition isDigit (c : ascii) : bool := (48 <=? charCode c) && (charCode c <=? 57).

(** [[A-Z_]] *)
Definition isVarChar (c : ascii) : bool :=
  ((65 <=? charCode c) && (charCode c <=? 90)) || (charCode c =? 95).

(** [[a-z]] *)
Definition isLower (c : ascii) : bool := (97 <=? charCode c) && (charCode c <=? 122).

(** [\s], and the white space removed by [trim], among 8-bit code units. *)
Definition isSpace (c : ascii) : bool :=
  ((9 <=? charCode c) && (charCode c <=? 13)) || (charCode c =? 32) || (charCode c =? 160).

Fixpoint trimStart (s : string) : string :=
  match s with
  | String c r => if isSpace c then trimStart r else s
  | EmptyString => EmptyString
  end.

Fixpoint trimEnd (s : string) : string :=
  match s with
  | String c r =>
      match trimEnd r with
      | EmptyString => if isSpace c then EmptyString else String c EmptyString
      | r' => String c r'
      end
  | EmptyString => EmptyString
  end.

Definition trim (s : string) : string := trimEnd (trimStart s).

Definition strlen (s : string) : Z := Z.of_nat (String.length s).

Definition digitChar (n : Z) : ascii := ascii_of_N (Z.to_N (48 + n)).

Definition digitValue (c : ascii) : Z := charCode c - 48.

Fixpoint decimalDigits (fuel : nat) (n : Z) (acc : string) : string :=
  match fuel with
  | O => acc
  | S f =>
      let acc' := String (digitChar (n mod 10)) acc in
      if n <? 10 then acc' else decimalDigits f (n / 10) acc'
  end.

(** Decimal numeral of a natural number; its length is at most the number
    of bits, which bounds the loop. *)
Definition decimal (n : Z) : string :=
  decimalDigits (S (Z.to_nat (Z.log2 n))) n EmptyString.

(** Value of a run of decimal digits, most significant first. *)
Definition digitsValue (s : string) : Z :=
  fold_left (fun acc c => 10 * acc + digitValue c) (list_ascii_of_string s) 0.

Fixpoint repeatChar (n : nat) (c : ascii) : string :=
  match n with
  | O => EmptyString
  | S k => String c (repeatChar k c)
  end.

(** [s.padStart(n, c)] for a one-character filler. *)
Definition padStart (n : nat) (c : ascii) (s : string) : string :=
  repeatChar (n - String.length s) c ++ s.

(** ** The host

    What the code obtains from the JavaScript engine and is not fixed by the
    sources: string/Number conversions of non-integers, [Date.parse] outside
    the one shape [parseDate] builds itself, and the clock. *)
Class Host : Type := {
  (** the Number type as far as user values are concerned *)
  JSNumber : Type;
  (** [Number(value)] *)
  ToNumber : string -> JSNumber;
  (** [isNaN(num)] *)
  Number_isNaN : JSNumber -> bool;
  (** [String(num)] *)
  Number_toString : JSNumber -> string;
  (** [String(n)] for an integral Number of magnitude at least 10^21
      (exponent notation) *)
  bigIntegerText : Z -> string;
  (** [Date.parse(s)] for strings other than [YYYY-MM-DDT00:00:00.000Z] *)
  Date_parse_host : string -> option Z;
  (** whether [Date.parse] accepts a day of month up to 31 in every month
      and rolls it over (V8), or rejects days beyond the month *)
  lenientDayOfMonth : bool;
  (** the value returned by [getCurrentDate()], midnight UTC of the local
      date read from the clock *)
  getCurrentDate : Date
}.

(** [String(n)] for an integral Number. *)
Definition IntegerToString `{Host} (z : Z) : string :=
  if 1000000000000000000000 <=? Z.abs z then bigIntegerText z
  else if z <? 0 then String "-" (decimal (- z))
  else decimal z.

(** [String(x)] where [x] is an integral Number or NaN. *)
Definition NumberToString `{Host} (x : option Z) : string :=
  match x with
  | Some z => IntegerToString z
  | None => "NaN"
  end.

(** [/^\d{4}-\d{2}-\d{2}$/.test(s)] *)
Definition isoDateRegex (s : string) : bool :=
  match list_ascii_of_string s with
  | [y1; y2; y3; y4; h1; m1; m2; h2; d1; d2] =>
      isDigit y1 && isDigit y2 && isDigit y3 && isDigit y4 &&
      Ascii.eqb h1 "-" &&
      isDigit m1 && isDigit m2 &&
      Ascii.eqb h2 "-" &&
      isDigit d1 && isDigit d2
  | _ => false
  end.

(** [/^\d{4}-\d{2}-\d{2}T/.test(s)] *)
Definition isoDateTimeRegex (s : string) : bool :=
  match list_ascii_of_string s with
  | y1 :: y2 :: y3 :: y4 :: h1 :: m1 :: m2 :: h2 :: d1 :: d2 :: t :: _ =>
      isDigit y1 && isDigit y2 && isDigit y3 && isDigit y4 &&
      Ascii.eqb h1 "-" &&
      isDigit m1 && isDigit m2 &&
      Ascii.eqb h2 "-" &&
      isDigit d1 && isDigit d2 &&
      Ascii.eqb t "T"
  | _ => false
  end.

(** [Date.parse] on the ISO format.  For [YYYY-MM-DDT00:00:00.000Z] the
    result is fixed: NaN unless the month is 1..12 and the day is 1..31 (or
    within the month, on a strict host), else the time value of the fields,
    a day beyond the month rolling over.  Other strings are the host's. *)
Definition Date_parse `{Host} (s : string) : option Z :=
  if isoDateRegex (substring 0 10 s) &&
     String.eqb (substring 10 (String.length s - 10) s) "T00:00:00.000Z"
  then
    let y := digitsValue (substring 0 4 s) in
    let m := digitsValue (substring 5 2 s) in
    let d := digitsValue (substring 8 2 s) in
    let dmax := if lenientDayOfMonth then 31 else DaysInMonth y (m - 1) in
    if (1 <=? m) && (m <=? 12) && (1 <=? d) && (d <=? dmax)
    then Some (MakeDate (MakeDay y (m - 1) d) 0)
    else None
  else Date_parse_host s.

(** [new Date(s)] for a string [s]. *)
Definition Date_ofString `{Host} (s : string) : Date :=
  t ← Date_parse s; TimeClip t.

(** [isNaN(date.getTime())] *)
Definition isInvalid (d : Date) : bool :=
  match getTime d with
  | Some _ => false
  | None => true
  end.

(** ** date-utils.ts *)

Inductive TimeUnit : Type :=
  | U_day | U_days | U_week | U_weeks | U_month | U_months | U_year | U_years.

Inductive Operator : Type := Plus | Minus.

Definition formatDate `{Host} (date : Date) : string :=
  let year := getUTCFullYear date in
  let month := padStart 2 "0" (NumberToString (num_add (getUTCMonth date) 1)) in
  let day := padStart 2 "0" (NumberToString (getUTCDate date)) in
  NumberToString year ++ "-" ++ month ++ "-" ++ day.

(** [parseDate] returns a [Date] or [null] ([None]). *)
Definition parseDate `{Host} (value : string) : option Date :=
  let plain :=
    if isoDateRegex value then
      let date := Date_ofString (value ++ "T00:00:00.000Z") in
      if negb (isInvalid date) then
        let formatted := formatDate date in
        if String.eqb formatted value then Some date else None
      else None
    else None in
  match plain with
  | Some date => Some date
  | None =>
      if isoDateTimeRegex value then
        let date := Date_ofString value in
        if negb (isInvalid date) then Some date else None
      else None
  end.

Definition addToDate (date : Date) (amount : Z) (unit : TimeUnit)
    (operator : Operator) : Date :=
  let result := Date_copy date in
  let multiplier := match operator with Plus => 1 | Minus => -1 end in
  let actualAmount := amount * multiplier in
  match unit with
  | U_day | U_days =>
      setUTCDate result (num_add (getUTCDate result) actualAmount)
  | U_week | U_weeks =>
      setUTCDate result (num_add (getUTCDate result) (actualAmount * 7))
  | U_month | U_months =>
      let originalDay := getUTCDate result in
      let result := setUTCMonth result (num_add (getUTCMonth result) actualAmount) in
      if num_strict_neq (getUTCDate result) originalDay
      then setUTCDate result (Some 0)
      else result
  | U_year | U_years =>
      let originalDayYear := getUTCDate result in
      let result := setUTCFullYear result (num_add (getUTCFullYear result) actualAmount) in
      if num_strict_neq (getUTCDate result) originalDayYear
      then setUTCDate result (Some 0)
      else result
  end.

(** ** types.ts *)

Record ParseError : Type := mkParseError {
  pe_code : string;
  pe_message : string;
  pe_token : string;
  pe_position : option Z
}.

Record EvaluationError : Type := mkEvaluationError {
  ee_code : string;
  ee_message : string;
  ee_token : string
}.

Inductive ASTNode : Type :=
  | var_ref (name : string)
  | date_arithmetic (base : ASTNode) (operator : Operator) (amount : Z)
      (unit : TimeUnit).

Inductive TypedValue `{Host} : Type :=
  | V_date (value : Date)
  | V_number (value : JSNumber)
  | V_string (value : string).

(** [VariableContext]: own keys to raw strings. *)
Abbreviation VariableContext := (gmap string string).

(** An entry of the [systemVariables] object as the resolver uses it. *)
Inductive SystemVariable : Type :=
  | Provider (d : Date)       (** a function; the call returns [d] *)
  | Throwing (msg : string)   (** a truthy value; the call throws [Error(msg)] *)
  | Falsy.                    (** [undefined] and the like *)

Abbreviation SystemVariables := (gmap string SystemVariable).

(** ** tokenizer.ts *)

Inductive TokenType : Type := VAR | OPERATOR | NUMBER | UNIT | EOF.

Definition TokenType_text (ty : TokenType) : string :=
  match ty with
  | VAR => "VAR"
  | OPERATOR => "OPERATOR"
  | NUMBER => "NUMBER"
  | UNIT => "UNIT"
  | EOF => "EOF"
  end.

Definition TokenType_eqb (a b : TokenType) : bool :=
  match a, b with
  | VAR, VAR | OPERATOR, OPERATOR | NUMBER, NUMBER | UNIT, UNIT | EOF, EOF => true
  | _, _ => false
  end.

Record Token : Type := mkToken {
  tok_type : TokenType;
  tok_value : string;
  tok_position : Z
}.

Definition TimeUnit_text (u : TimeUnit) : string :=
  match u with
  | U_day => "day" | U_days => "days"
  | U_week => "week" | U_weeks => "weeks"
  | U_month => "month" | U_months => "months"
  | U_year => "year" | U_years => "years"
  end.

(** The cast [unit as TimeUnit], used after [isValidTimeUnit]. *)
Definition TimeUnit_of (unit : string) : TimeUnit :=
  if String.eqb unit "day" then U_day
  else if String.eqb unit "days" then U_days
  else if String.eqb unit "week" then U_week
  else if String.eqb unit "weeks" then U_weeks
  else if String.eqb unit "month" then U_month
  else if String.eqb unit "months" then U_months
  else if String.eqb unit "year" then U_year
  else U_years.

Definition isValidTimeUnit (unit : string) : bool :=
  existsb (String.eqb unit)
    ["day"; "days"; "week"; "weeks"; "month"; "months"; "year"; "years"].

Definition isValidOperator (op : string) : bool :=
  String.eqb op "+" || String.eqb op "-".

Definition Operator_text (op : Operator) : string :=
  match op with Plus => "+" | Minus => "-" end.

(** The cast [opToken.value as Operator], used after [isValidOperator]. *)
Definition Operator_of (op : string) : Operator :=
  if String.eqb op "+" then Plus else Minus.

(** The longest prefix of characters in the class, and what follows it:
    the loops of [readVariable], [readNumber] and [readUnit]. *)
Fixpoint readWhile (p : ascii -> bool) (s : string) : string * string :=
  match s with
  | String c r =>
      if p c then let '(v, rest) := readWhile p r in (String c v, rest)
      else (EmptyString, s)
  | EmptyString => (EmptyString, EmptyString)
  end.

Definition unexpectedCharacter `{Host} (c : ascii) (pos : Z) : string :=
  "Unexpected character '" ++ String c "' at position " ++ IntegerToString pos.

(** The loop of [Tokenizer.tokenize].  The scanner state is the position
    and the rest of the input from there ([current] is its first
    character).  [inl msg] is the thrown [Error(msg)].  Each round on a
    non-empty rest consumes a character, so [fuel] as long as the input is
    enough ([tokenizeLoop_total]). *)
Fixpoint tokenizeLoop `{Host} (fuel : nat) (pos : Z) (input : string)
    : string + list Token :=
  let rest := trimStart input in
  let pos := pos + (strlen input - strlen rest) in
  match rest with
  | EmptyString => inr [mkToken EOF "" pos]
  | String current after =>
      match fuel with
      | O => inl "unreachable"
      | S fuel =>
          let push ty p :=
            let '(value, rest') := readWhile p rest in
            match tokenizeLoop fuel (pos + strlen value) rest' with
            | inr tokens => inr (mkToken ty value pos :: tokens)
            | inl e => inl e
            end in
          if isVarChar current then push VAR isVarChar
          else if isValidOperator (String current "") then
            match tokenizeLoop fuel (pos + 1) after with
            | inr tokens =>
                inr (mkToken OPERATOR (String current "") pos :: tokens)
            | inl e => inl e
            end
          else if isDigit current then push NUMBER isDigit
          else if isLower current then push UNIT isLower
          else inl (unexpectedCharacter current pos)
      end
  end.

(** [new Tokenizer(input).tokenize()] *)
Definition tokenize `{Host} (input : string) : string + list Token :=
  let input := trim input in
  tokenizeLoop (String.length input) 0 input.

(** ** parser.ts *)

(** Nearest double of a natural number (round to nearest, ties to even),
    as an integer; exact below 2^53. *)
Definition roundToDouble (n : Z) : Z :=
  let e := Z.log2 n - 52 in
  if e <=? 0 then n
  else
    let q := n / 2 ^ e in
    let r := n mod 2 ^ e in
    let half := 2 ^ (e - 1) in
    let q' := if (half <? r) || ((r =? half) && Z.odd q) then q + 1 else q in
    q' * 2 ^ e.

(** [parseInt(s, 10)]: optional white space and sign, then the longest run
    of digits.  [None] is a result that is not finite: NaN when there is no
    digit, Infinity when the value is beyond the doubles.  (An engine may
    read digits after the twentieth as zeros; this matters only for amounts
    far beyond any limit.) *)
Definition parseInt10 (s : string) : option Z :=
  let s := trimStart s in
  let '(sign, s) :=
    match s with
    | String "-" r => (-1, r)
    | String "+" r => (1, r)
    | _ => (1, s)
    end in
  let '(digits, _) := readWhile isDigit s in
  match digits with
  | EmptyString => None
  | _ =>
      let v := roundToDouble (digitsValue digits) in
      if v <? 2 ^ 1024 then Some (sign * v) else None
  end.

(** What the parser throws or returns. *)
Definition ParseM (A : Type) : Type := ParseError + A.

(** The parser state is the part of the token array from [current] on. *)
Definition eofToken : Token := mkToken EOF "" 0.

Definition currentToken (tokens : list Token) : Token :=
  hd eofToken tokens.

Definition advance (tokens : list Token) : list Token :=
  if TokenType_eqb (tok_type (currentToken tokens)) EOF then tokens
  else tl tokens.

Definition error (message : string) (token : Token) : ParseError :=
  mkParseError "PARSE_ERROR" message (tok_value token)
    (Some (tok_position token)).

Definition expect (ty : TokenType) (tokens : list Token)
    : ParseM (Token * list Token) :=
  let token := currentToken tokens in
  if negb (TokenType_eqb (tok_type token) ty) then
    inl (error ("Expected " ++ TokenType_text ty ++ ", got "
                  ++ TokenType_text (tok_type token)) token)
  else inr (token, advance tokens).

Definition parsePrimary (tokens : list Token)
    : ParseM (ASTNode * list Token) :=
  let token := currentToken tokens in
  if TokenType_eqb (tok_type token) VAR
  then inr (var_ref (tok_value token), advance tokens)
  else inl (error "Expected variable name" token).

Definition invalidUnitMessage (unit : string) : string :=
  "Invalid time unit '" ++ unit ++
  "'. Must be one of: day, days, week, weeks, month, months, year, years".

Definition exceedsMessage `{Host} (amount maxIntervalAmount : Z) : string :=
  "Interval amount " ++ IntegerToString amount ++ " exceeds maximum "
    ++ IntegerToString maxIntervalAmount.

(** The [while] loop of [parseExpression]; every round consumes three
    tokens, so [fuel] as long as the token list is enough
    ([parseLoop_fuel]). *)
Fixpoint parseLoop `{Host} (maxIntervalAmount : Z) (fuel : nat)
    (node : ASTNode) (tokens : list Token)
    : ParseM (ASTNode * list Token) :=
  if TokenType_eqb (tok_type (currentToken tokens)) OPERATOR then
    match fuel with
    | O => inl (error "unreachable" (currentToken tokens))
    | S fuel =>
        let opToken := currentToken tokens in
        if negb (isValidOperator (tok_value opToken)) then
          inl (error ("Invalid operator '" ++ tok_value opToken ++ "'") opToken)
        else
          let operator := Operator_of (tok_value opToken) in
          let tokens := advance tokens in
          match expect NUMBER tokens with
          | inl e => inl e
          | inr (numToken, tokens) =>
              match parseInt10 (tok_value numToken) with
              | None =>
                  inl (error "Interval amount must be a positive integer" numToken)
              | Some amount =>
                  if amount <=? 0 then
                    inl (error "Interval amount must be a positive integer" numToken)
                  else if maxIntervalAmount <? amount then
                    inl (error (exceedsMessage amount maxIntervalAmount) numToken)
                  else
                    match expect UNIT tokens with
                    | inl e => inl e
                    | inr (unitToken, tokens) =>
                        if negb (isValidTimeUnit (tok_value unitToken)) then
                          inl (error (invalidUnitMessage (tok_value unitToken))
                                 unitToken)
                        else
                          let unit := TimeUnit_of (tok_value unitToken) in
                          parseLoop maxIntervalAmount fuel
                            (date_arithmetic node operator amount unit) tokens
                    end
              end
          end
    end
  else inr (node, tokens).

Definition parseExpression `{Host} (maxIntervalAmount : Z)
    (tokens : list Token) : ParseM (ASTNode * list Token) :=
  match parsePrimary tokens with
  | inl e => inl e
  | inr (node, tokens) =>
      parseLoop maxIntervalAmount (length tokens) node tokens
  end.

(** [Parser.parse] *)
Definition Parser_parse `{Host} (maxIntervalAmount : Z)
    (tokens : list Token) : ParseM ASTNode :=
  match parseExpression maxIntervalAmount tokens with
  | inl e => inl e
  | inr (expr, tokens) =>
      if negb (TokenType_eqb (tok_type (currentToken tokens)) EOF) then
        inl (error "Unexpected tokens after expression" (currentToken tokens))
      else inr expr
  end.

Record ParseOptions : Type := {
  maxExpressionLength : option Z;
  maxIntervalAmount : option Z
}.

(** The exported [parse]: [inl] is [{ success: false, error }], [inr] is
    [{ success: true, value }]. *)
Definition parse `{Host} (expression : string) (options : option ParseOptions)
    : ParseError + ASTNode :=
  let maxExpressionLength := default 200 (options ≫= maxExpressionLength) in
  let maxIntervalAmount := default 10000 (options ≫= maxIntervalAmount) in
  if maxExpressionLength <? strlen expression then
    inl (mkParseError "EXPRESSION_TOO_LONG"
           ("Expression exceeds maximum length of "
              ++ IntegerToString maxExpressionLength ++ " characters")
           expression None)
  else
    match tokenize expression with
    | inl msg => inl (mkParseError "PARSE_ERROR" msg expression None)
    | inr tokens => Parser_parse maxIntervalAmount tokens
    end.

(** ** variable-resolver.ts *)

(** What a resolver or evaluator call throws: an error object carrying a
    [code], or a plain [Error(msg)]. *)
Inductive Thrown : Type :=
  | Coded (e : EvaluationError)
  | Plain (msg : string).

Definition DEFAULT_SYSTEM_VARIABLES `{Host} : SystemVariables :=
  {[ "DATE" := Provider getCurrentDate ]}.

Record VariableResolver : Type := {
  userContext : VariableContext;
  systemVariables : SystemVariables
}.

(** The constructor: the supplied entries override the defaults. *)
Definition VariableResolver_new `{Host} (userContext : VariableContext)
    (systemVariables : option SystemVariables) : VariableResolver :=
  {| userContext := userContext;
     systemVariables := default ∅ systemVariables ∪ DEFAULT_SYSTEM_VARIABLES |}.

Definition resolveUserVariable `{Host} (value : string) : TypedValue :=
  match parseDate value with
  | Some date => V_date date
  | None =>
      let num := ToNumber value in
      if negb (Number_isNaN num) && negb (String.eqb (trim value) "")
      then V_number num
      else V_string value
  end.

Definition resolveSystemVariable `{Host} (r : VariableResolver) (name : string)
    : Thrown + option TypedValue :=
  if String.eqb name "DATE" then
    match systemVariables r !! "DATE" with
    | Some (Provider date) => inr (Some (V_date date))
    | Some (Throwing msg) => inl (Plain msg)
    | Some Falsy | None => inr None
    end
  else inr None.

(** [resolve]: [inr None] is [null]. *)
Definition resolve `{Host} (r : VariableResolver) (name : string)
    : Thrown + option TypedValue :=
  match userContext r !! name with
  | Some value => inr (Some (resolveUserVariable value))
  | None =>
      match systemVariables r !! name with
      | Some _ => resolveSystemVariable r name
      | None => inr None
      end
  end.

(** ** evaluator.ts *)

Definition dq : string := String "034" EmptyString.

(** [JSON.stringify(node)] for syntax trees (names need no escaping, being
    runs of [A-Z_]). *)
Fixpoint JSON_stringify `{Host} (node : ASTNode) : string :=
  match node with
  | var_ref name =>
      "{" ++ dq ++ "type" ++ dq ++ ":" ++ dq ++ "var_ref" ++ dq ++ ","
          ++ dq ++ "name" ++ dq ++ ":" ++ dq ++ name ++ dq ++ "}"
  | date_arithmetic base operator amount unit =>
      "{" ++ dq ++ "type" ++ dq ++ ":" ++ dq ++ "date_arithmetic" ++ dq ++ ","
          ++ dq ++ "base" ++ dq ++ ":" ++ JSON_stringify base ++ ","
          ++ dq ++ "operator" ++ dq ++ ":" ++ dq ++ Operator_text operator ++ dq ++ ","
          ++ dq ++ "amount" ++ dq ++ ":" ++ IntegerToString amount ++ ","
          ++ dq ++ "unit" ++ dq ++ ":" ++ dq ++ TimeUnit_text unit ++ dq ++ "}"
  end.

Definition TypedValue_type `{Host} (v : TypedValue) : string :=
  match v with
  | V_date _ => "date"
  | V_number _ => "number"
  | V_string _ => "string"
  end.

Definition evaluateVarRef `{Host} (resolver : VariableResolver) (name : string)
    : Thrown + TypedValue :=
  match resolve resolver name with
  | inl e => inl e
  | inr None =>
      inl (Coded (mkEvaluationError "UNDEFINED_VARIABLE"
                    ("Variable '" ++ name ++ "' is not defined") name))
  | inr (Some value) => inr value
  end.

(** [Evaluator.evaluate], with [evaluateDateArithmetic] inlined in its
    second case. *)
Fixpoint Evaluator_evaluate `{Host} (resolver : VariableResolver)
    (node : ASTNode) : Thrown + TypedValue :=
  match node with
  | var_ref name => evaluateVarRef resolver name
  | date_arithmetic base operator amount unit =>
      match Evaluator_evaluate resolver base with
      | inl e => inl e
      | inr baseValue =>
          match baseValue with
          | V_date date =>
              inr (V_date (addToDate date amount unit operator))
          | _ =>
              inl (Coded (mkEvaluationError "TYPE_ERROR"
                            ("Cannot perform date arithmetic on "
                               ++ TypedValue_type baseValue ++ " value")
                            (JSON_stringify node)))
          end
      end
  end.

(** The exported [evaluate]: [inl] is [{ success: false, error }]. *)
Definition evaluate `{Host} (ast : ASTNode) (context : VariableContext)
    (systemVariables : option SystemVariables) : EvaluationError + string :=
  let evaluator := VariableResolver_new context systemVariables in
  match Evaluator_evaluate evaluator ast with
  | inr (V_date value) => inr (formatDate value)
  | inr (V_number value) => inr (Number_toString value)
  | inr (V_string value) => inr value
  | inl (Coded error) => inl error
  | inl (Plain msg) => inl (mkEvaluationError "EVALUATION_ERROR" msg "")
  end.

(** ** engine.ts *)

Record ExpressionEngineOptions : Type := {
  opt_maxExpressionLength : option Z;
  opt_maxIntervalAmount : option Z;
  opt_systemVariables : option SystemVariables
}.

(** The engine's [options] after the constructor filled in the defaults. *)
Record ExpressionEngine : Type := {
  engine_maxExpressionLength : Z;
  engine_maxIntervalAmount : Z;
  engine_systemVariables : SystemVariables
}.

Definition ExpressionEngine_new (options : option ExpressionEngineOptions)
    : ExpressionEngine :=
  {| engine_maxExpressionLength :=
       default 200 (options ≫= opt_maxExpressionLength);
     engine_maxIntervalAmount :=
       default 10000 (options ≫= opt_maxIntervalAmount);
     engine_systemVariables :=
       default ∅ (options ≫= opt_systemVariables) |}.

Record ProcessResult : Type := mkProcessResult {
  pr_text : string;
  pr_errors : list EvaluationError
}.

Definition notRBrace (c : ascii) : bool := negb (Ascii.eqb c "}").

(** A match of [/\{\{([^}]+)\}\}/] at the start of [s]: the captured group
    and what follows the match.  The group is the longest run without a
    closing brace; a shorter run is followed by one of its own characters,
    not by a closing brace, so backtracking finds nothing more. *)
Definition matchToken (s : string) : option (string * string) :=
  match s with
  | String o1 (String o2 r) =>
      if Ascii.eqb o1 "{" && Ascii.eqb o2 "{" then
        match readWhile notRBrace r with
        | (String c g, String c1 (String c2 rest)) =>
            if Ascii.eqb c1 "}" && Ascii.eqb c2 "}"
            then Some (String c g, rest)
            else None
        | _ => None
        end
      else None
  | _ => None
  end.

(** The matched text, [match[0]]. *)
Definition tokenText (expression : string) : string :=
  "{{" ++ expression ++ "}}".

(** A piece of the text as the global regular expression cuts it: a
    character outside every match, or a match with its captured group. *)
Inductive Piece : Type :=
  | Literal (c : ascii)
  | Occurrence (expression : string).

(** Left-to-right scan of all matches: a match resumes the scan after it,
    a position without a match is passed over. *)
Fixpoint scan (fuel : nat) (s : string) : list Piece :=
  match fuel, s with
  | S fuel, String c r =>
      match matchToken s with
      | Some (expression, rest) => Occurrence expression :: scan fuel rest
      | None => Literal c :: scan fuel r
      end
  | _, _ => []
  end.

Definition pieces (text : string) : list Piece :=
  scan (String.length text) text.

(** The callback given to [text.replace]: the replacement, and the errors
    pushed while computing it. *)
Definition replacer `{Host} (engine : ExpressionEngine)
    (context : VariableContext) (expression : string)
    : string * list EvaluationError :=
  let match_ := tokenText expression in
  let trimmedExpr := trim expression in
  let parseResult :=
    parse trimmedExpr
      (Some {| maxExpressionLength := Some (engine_maxExpressionLength engine);
               maxIntervalAmount := Some (engine_maxIntervalAmount engine) |}) in
  match parseResult with
  | inl error =>
      (match_, [mkEvaluationError (pe_code error)
                  (pe_message error) match_])
  | inr value =>
      match evaluate value context (Some (engine_systemVariables engine)) with
      | inl error => (match_, [error])
      | inr value => (value, [])
      end
  end.

Definition processPiece `{Host} (engine : ExpressionEngine)
    (context : VariableContext) (acc : ProcessResult) (p : Piece)
    : ProcessResult :=
  match p with
  | Literal c =>
      mkProcessResult (pr_text acc ++ String c "")
        (pr_errors acc)
  | Occurrence expression =>
      let '(replacement, pushed) := replacer engine context expression in
      mkProcessResult (pr_text acc ++ replacement)
        (pr_errors acc ++ pushed)
  end.

Definition processText `{Host} (engine : ExpressionEngine) (text : string)
    (context : VariableContext) : ProcessResult :=
  fold_left (processPiece engine context) (pieces text)
    (mkProcessResult "" []).

(** The matched texts among the pieces, in order. *)
Definition matchedTexts (ps : list Piece) : list string :=
  omap (fun p => match p with
                 | Occurrence expression => Some (tokenText expression)
                 | Literal _ => None
                 end) ps.

Definition extractExpressions (text : string) : list string :=
  matchedTexts (pieces text).

(** ** The calendar arithmetic in the words of the specification *)

(** The signed amount: the amount, negated for subtraction. *)
Definition signedAmount (amount : Z) (operator : Operator) : Z :=
  match operator with Plus => amount | Minus => - amount end.

(** Year and month (0-based) reached from the date [t] by the interval:
    the month field shifted for months, the year field for years. *)
Definition targetMonth (t amount : Z) (unit : TimeUnit) (operator : Operator)
    : Z * Z :=
  let a := signedAmount amount operator in
  match unit with
  | U_month | U_months =>
      (YearFromTime t + (MonthFromTime t + a) / 12, (MonthFromTime t + a) mod 12)
  | U_year | U_years => (YearFromTime t + a, MonthFromTime t)
  | _ => (YearFromTime t, MonthFromTime t)
  end.

(** Day number reached by the shift before any clamping. *)
Definition shiftedDay (t amount : Z) (unit : TimeUnit) (operator : Operator) : Z :=
  let a := signedAmount amount operator in
  match unit with
  | U_day | U_days => Day t + a
  | U_week | U_weeks => Day t + 7 * a
  | _ =>
      let '(y, m) := targetMonth t amount unit operator in
      MakeDay y m (DateFromTime t)
  end.

(** Day number the specification asks for: exact shifts for days and weeks;
    for months and years the original day of the month in the target month,
    or the last day of that month when it is shorter. *)
Definition applyInterval_spec (t amount : Z) (unit : TimeUnit)
    (operator : Operator) : Z :=
  match unit with
  | U_day | U_days | U_week | U_weeks => shiftedDay t amount unit operator
  | _ =>
      let '(y, m) := targetMonth t amount unit operator in
      MakeDay y m (Z.min (DateFromTime t) (DaysInMonth y m))
  end.

(** Day numbers a [Date] can hold. *)
Definition inDateRange (day : Z) : Prop := -100000000 <= day <= 100000000.

(** A calendar date: a valid time value at midnight UTC. *)
Definition isCalendarDate (t : Z) : Prop :=
  TimeWithinDay t = 0 /\ inDateRange (Day t).

(** ** Checks by computation over a range *)

(** [f] holds on the [n] integers from [lo] on. *)
Fixpoint allFrom (f : Z -> bool) (lo : Z) (n : nat) : bool :=
  match n with
  | O => true
  | S k => if f lo then allFrom f (lo + 1) k else false
  end.

(** The numeral of [y] is four digits that read back as [y]. *)
Definition fourDigits (y : Z) : bool :=
  match decimal y with
  | String a (String b (String c (String e EmptyString))) =>
      isDigit a && isDigit b && isDigit c && isDigit e &&
      (digitsValue (decimal y) =? y)
  | _ => false
  end.

(** The numeral of [n] padded to two places is two digits that read back
    as [n]. *)
Definition twoDigits (n : Z) : bool :=
  match padStart 2 "0" (decimal n) with
  | String a (String b EmptyString) =>
      isDigit a && isDigit b && (digitsValue (padStart 2 "0" (decimal n)) =? n)
  | _ => false
  end.

(** ** The grammar in the words of the specification *)

(** Some character of the string is in the class. *)
Fixpoint anyChar (p : ascii -> bool) (s : string) : bool :=
  match s with
  | String c r => p c || anyChar p r
  | EmptyString => false
  end.

(** A character the tokenizer has no class for. *)
Definition unrecognized (c : ascii) : bool :=
  negb (isSpace c || isVarChar c || isValidOperator (String c "")
        || isDigit c || isLower c).

(** What must follow an operator token: a Number token holding a strictly
    positive integer, then a Unit token with one of the eight spellings. *)
Definition intervalAfter (tokens : list Token) : bool :=
  match tokens with
  | num :: unit :: _ =>
      TokenType_eqb (tok_type num) NUMBER &&
      match parseInt10 (tok_value num) with
      | Some amount => 0 <? amount
      | None => false
      end &&
      TokenType_eqb (tok_type unit) UNIT &&
      isValidTimeUnit (tok_value unit)
  | _ => false
  end.

(** Every operator token is followed by such an amount and unit. *)
Fixpoint operatorsWellFollowed (tokens : list Token) : bool :=
  match tokens with
  | [] => true
  | t :: rest =>
      (if TokenType_eqb (tok_type t) OPERATOR then intervalAfter rest else true)
      && operatorsWellFollowed rest
  end.

(** An operator, amount, unit triple that the parser accepts. *)
Definition goodInterval (maxIntervalAmount : Z) (op num unit : Token) : bool :=
  TokenType_eqb (tok_type op) OPERATOR &&
  isValidOperator (tok_value op) &&
  TokenType_eqb (tok_type num) NUMBER &&
  match parseInt10 (tok_value num) with
  | Some amount => (0 <? amount) && (amount <=? maxIntervalAmount)
  | None => false
  end &&
  TokenType_eqb (tok_type unit) UNIT &&
  isValidTimeUnit (tok_value unit).

(** A run of accepted triples. *)
Fixpoint goodIntervals (maxIntervalAmount : Z) (tokens : list Token) : bool :=
  match tokens with
  | [] => true
  | op :: num :: unit :: rest =>
      goodInterval maxIntervalAmount op num unit &&
      goodIntervals maxIntervalAmount rest
  | _ => false
  end.

(** Every interval amount of the tree is a positive integer within the
    limit. *)
Fixpoint amountsWithin (maxIntervalAmount : Z) (node : ASTNode) : Prop :=
  match node with
  | var_ref _ => True
  | date_arithmetic base _ amount _ =>
      amountsWithin maxIntervalAmount base /\ 0 < amount <= maxIntervalAmount
  end.

(** The token list ends with its only end-of-input token. *)
Fixpoint eofLast (tokens : list Token) : bool :=
  match tokens with
  | [] => false
  | [t] => TokenType_eqb (tok_type t) EOF
  | t :: rest => negb (TokenType_eqb (tok_type t) EOF) && eofLast rest
  end.

(** The variable an expression starts from. *)
Fixpoint variableOf (node : ASTNode) : string :=
  match node with
  | var_ref name => name
  | date_arithmetic base _ _ _ => variableOf base
  end.

(** The text a typed value is substituted as. *)
Definition renderValue `{Host} (v : TypedValue) : string :=
  match v with
  | V_date value => formatDate value
  | V_number value => Number_toString value
  | V_string value => value
  end.

(** ** The engine in the words of the specification *)

Definition isRBrace (c : ascii) : bool := Ascii.eqb c "}".

(** The text a piece stands for in the input. *)
Definition pieceText (p : Piece) : string :=
  match p with
  | Literal c => String c ""
  | Occurrence expression => tokenText expression
  end.

Definition concatStrings (l : list string) : string :=
  fold_right String.append "" l.

(** One occurrence: trim the inner text, parse, then evaluate; a failure of
    either step is one structured error. *)
Definition expressionOutcome `{Host} (engine : ExpressionEngine)
    (context : VariableContext) (expression : string)
    : EvaluationError + string :=
  match parse (trim expression)
          (Some {| maxExpressionLength := Some (engine_maxExpressionLength engine);
                   maxIntervalAmount := Some (engine_maxIntervalAmount engine) |})
  with
  | inl e =>
      inl (mkEvaluationError (pe_code e) (pe_message e)
             (tokenText expression))
  | inr ast => evaluate ast context (Some (engine_systemVariables engine))
  end.

(** What a piece becomes in the output: a failed occurrence stays as it is. *)
Definition pieceOutput `{Host} (engine : ExpressionEngine)
    (context : VariableContext) (p : Piece) : string :=
  match p with
  | Literal c => String c ""
  | Occurrence expression =>
      match expressionOutcome engine context expression with
      | inl _ => tokenText expression
      | inr value => value
      end
  end.

(** The errors a piece adds: one for a failed occurrence, else none. *)
Definition pieceErrors `{Host} (engine : ExpressionEngine)
    (context : VariableContext) (p : Piece) : list EvaluationError :=
  match p with
  | Literal _ => []
  | Occurrence expression =>
      match expressionOutcome engine context expression with
      | inl e => [e]
      | inr _ => []
      end
  end.







(** ** A concrete host for examples

    Day-of-month leniency as in V8; user values are read as Numbers only
    when they are runs of decimal digits; the clock reads 2026-02-16. *)

Definition exampleToNumber (s : string) : option Z :=
  let t := trim s in
  if String.eqb t "" then Some 0
  else if forallb isDigit (list_ascii_of_string t) then Some (digitsValue t)
  else None.

Definition exampleHost : Host := {|
  JSNumber := option Z;
  ToNumber := exampleToNumber;
  Number_isNaN := fun x => match x with Some _ => false | None => true end;
  Number_toString := fun x => match x with Some z => decimal z | None => "NaN" end;
  bigIntegerText := fun _ => "1e+21";
  Date_parse_host := fun _ => None;
  lenientDayOfMonth := true;
  getCurrentDate := Some (20500 * msPerDay)
|}.

Definition defaultEngine : ExpressionEngine := ExpressionEngine_new None.

(** The formatted result of an interval applied to a date given as text. *)
Definition shifted `{Host} (date : string) (amount : Z) (unit : TimeUnit)
    (operator : Operator) : option string :=
  d ← parseDate date; Some (formatDate (addToDate d amount unit operator)).

(** The error code of a rejected expression. *)
Definition rejected `{Host} (expression : string) (options : option ParseOptions)
    : option string :=
  match parse expression options with
  | inl e => Some (pe_code e)
  | inr _ => None
  end.

(** ** date-utils.ts: the clock *)

(** [Date.UTC(year, month, date)] on integers: a year from 0 to 99 stands
    for 1900 + year. *)
Definition Date_UTC (year month date : Z) : option Z :=
  let yr := if (0 <=? year) && (year <=? 99) then 1900 + year else year in
  TimeClip (MakeDate (MakeDay yr month date) 0).

(** [getCurrentDate], with the clock made explicit: [localNow] is the local
    time value of [new Date()], from which [getFullYear], [getMonth] and
    [getDate] read their fields. *)
Definition getCurrentDate_from (localNow : Z) : Date :=
  t ← Date_UTC (YearFromTime localNow) (MonthFromTime localNow)
        (DateFromTime localNow);
  TimeClip t.

(** ** engine.ts: validation *)

Record ValidationResult : Type := mkValidationResult {
  vr_valid : bool;
  vr_error : option string
}.

(** A match of [/\}\}$/]: two closing braces that end the string. *)
Fixpoint stripClosing (s : string) : string :=
  match s with
  | String c r =>
      if String.eqb s "}}" then EmptyString else String c (stripClosing r)
  | EmptyString => EmptyString
  end.

(** [expression.replace(/^\{\{|\}\}$/g, '')]: two opening braces at the
    start are removed, and two closing braces at the end of what follows
    them. *)
Definition stripBraces (expression : string) : string :=
  match expression with
  | String o1 (String o2 r) =>
      if Ascii.eqb o1 "{" && Ascii.eqb o2 "{" then stripClosing r
      else stripClosing expression
  | _ => stripClosing expression
  end.

Definition validateExpression `{Host} (engine : ExpressionEngine)
    (expression : string) : ValidationResult :=
  let innerExpr := trim (stripBraces expression) in
  let parseResult :=
    parse innerExpr
      (Some {| maxExpressionLength := Some (engine_maxExpressionLength engine);
               maxIntervalAmount := Some (engine_maxIntervalAmount engine) |}) in
  match parseResult with
  | inl error => mkValidationResult false (Some (pe_message error))
  | inr _ => mkValidationResult true None
  end.

(** ** Further notions used in the statements *)

(** The year, month (1 to 12) and day a plain date text spells. *)
Definition yearField (value : string) : Z := digitsValue (substring 0 4 value).

Definition monthField (value : string) : Z := digitsValue (substring 5 2 value).

Definition dayField (value : string) : Z := digitsValue (substring 8 2 value).

(** The whole days an interval in days or weeks stands for. *)
Definition intervalDays (amount : Z) (unit : TimeUnit) (operator : Operator) : Z :=
  match unit with
  | U_week | U_weeks => 7 * signedAmount amount operator
  | _ => signedAmount amount operator
  end.

(** The unit is one of day, days, week, weeks. *)
Definition isDayUnit (unit : TimeUnit) : bool :=
  match unit with
  | U_day | U_days | U_week | U_weeks => true
  | _ => false
  end.

(** The first character of no token class, with its index counted from
    [pos]. *)
Fixpoint firstUnrecognized (s : string) (pos : Z) : option (ascii * Z) :=
  match s with
  | String c r =>
      if unrecognized c then Some (c, pos) else firstUnrecognized r (pos + 1)
  | EmptyString => None
  end.

(** The token at the start of a text that begins with a character of some
    class: its type, its value and what follows it. *)
Definition nextToken (rest : string) : option (TokenType * string * string) :=
  match rest with
  | String current after =>
      if isVarChar current then
        let '(value, rest') := readWhile isVarChar rest in Some (VAR, value, rest')
      else if isValidOperator (String current "") then
        Some (OPERATOR, String current "", after)
      else if isDigit current then
        let '(value, rest') := readWhile isDigit rest in Some (NUMBER, value, rest')
      else if isLower current then
        let '(value, rest') := readWhile isLower rest in Some (UNIT, value, rest')
      else None
  | EmptyString => None
  end.

Definition nonEmpty (s : string) : bool := negb (String.eqb s "").

(** Every character of the string is in the class. *)
Definition allChars (p : ascii -> bool) (s : string) : bool :=
  negb (anyChar (fun c => negb (p c)) s).

(** What the value of a token of each type is made of. *)
Definition tokenWellFormed (t : Token) : bool :=
  match tok_type t with
  | VAR => nonEmpty (tok_value t) && allChars isVarChar (tok_value t)
  | OPERATOR => isValidOperator (tok_value t)
  | NUMBER => nonEmpty (tok_value t) && allChars isDigit (tok_value t)
  | UNIT => nonEmpty (tok_value t) && allChars isLower (tok_value t)
  | EOF => String.eqb (tok_value t) ""
  end.

(** The value of the token is the part of [s] that starts at the token's
    position. *)
Definition tokenAt (s : string) (t : Token) : bool :=
  (0 <=? tok_position t) &&
  String.eqb
    (substring (Z.to_nat (tok_position t)) (String.length (tok_value t)) s)
    (tok_value t).

(** The text without its white space. *)
Fixpoint withoutSpaces (s : string) : string :=
  match s with
  | String c r => if isSpace c then withoutSpaces r else String c (withoutSpaces r)
  | EmptyString => EmptyString
  end.

Definition notEOF (t : Token) : bool := negb (TokenType_eqb (tok_type t) EOF).

(** The tree built from a run of operator, amount, unit triples: each
    interval applies to the tree built so far, the leftmost innermost. *)
Fixpoint foldIntervals (node : ASTNode) (tokens : list Token) : ASTNode :=
  match tokens with
  | op :: num :: unit :: rest =>
      foldIntervals
        (date_arithmetic node (Operator_of (tok_value op))
           (default 0 (parseInt10 (tok_value num)))
           (TimeUnit_of (tok_value unit)))
        rest
  | _ => node
  end.

(** The date an expression stands for when its variable holds the date
    [start]: the intervals applied one after the other, the innermost
    first. *)
Fixpoint dateOf (start : Date) (node : ASTNode) : Date :=
  match node with
  | var_ref _ => start
  | date_arithmetic base operator amount unit =>
      addToDate (dateOf start base) amount unit operator
  end.

(** The innermost interval of an expression, the one applied to the
    variable. *)
Fixpoint firstInterval (node : ASTNode) : ASTNode :=
  match node with
  | var_ref _ => node
  | date_arithmetic base _ _ _ =>
      match base with
      | var_ref _ => node
      | date_arithmetic _ _ _ _ => firstInterval base
      end
  end.

(** The expression holds at least one interval. *)
Definition hasInterval (node : ASTNode) : bool :=
  match node with
  | var_ref _ => false
  | date_arithmetic _ _ _ _ => true
  end.

(** The error raised by date arithmetic on a value that is not a date. *)
Definition typeError `{Host} (value : TypedValue) (node : ASTNode)
    : EvaluationError :=
  mkEvaluationError "TYPE_ERROR"
    ("Cannot perform date arithmetic on " ++ TypedValue_type value ++ " value")
    (JSON_stringify node).

(** The text of a tree in the syntax of the expressions: the variable, then
    each interval as a blank, the operator, a blank, the amount in decimal,
    a blank and the unit. *)
Fixpoint unparse (node : ASTNode) : string :=
  match node with
  | var_ref name => name
  | date_arithmetic base operator amount unit =>
      unparse base ++ " " ++ Operator_text operator ++ " " ++ decimal amount
        ++ " " ++ TimeUnit_text unit
  end.

(** The sum of the amounts of the intervals of an expression. *)
Fixpoint totalAmount (node : ASTNode) : Z :=
  match node with
  | var_ref _ => 0
  | date_arithmetic base _ amount _ => totalAmount base + amount
  end.

(** * Properties *)

(** ** The tests of the sources, run on the model *)

Section Tests.
#[local] Existing Instance exampleHost.

(** date-utils.test.ts *)

Example test_parseDate_plain :
  parseDate "2026-02-16" = Some (Some 1771200000000).
Proof. by vm_compute. Qed.

Example test_parseDate_invalid :
  parseDate "invalid" = None /\ parseDate "2026-13-01" = None /\
  parseDate "2026-02-30" = None.
Proof. repeat split; by vm_compute. Qed.

(** The host alone would roll 30 February over to 2 March. *)
Example test_host_rolls_over :
  formatDate (Date_ofString "2026-02-30T00:00:00.000Z") = "2026-03-02".
Proof. by vm_compute. Qed.

Example test_formatDate_pads :
  formatDate (Date_ofString "2026-03-05T00:00:00.000Z") = "2026-03-05".
Proof. by vm_compute. Qed.

Example test_addToDate_days :
  shifted "2026-02-16" 2 U_days Plus = Some "2026-02-18" /\
  shifted "2026-02-16" 7 U_days Minus = Some "2026-02-09" /\
  shifted "2026-02-28" 1 U_day Plus = Some "2026-03-01".
Proof. repeat split; by vm_compute. Qed.

Example test_addToDate_weeks :
  shifted "2026-02-16" 1 U_week Plus = Some "2026-02-23" /\
  shifted "2026-02-16" 2 U_weeks Minus = Some "2026-02-02".
Proof. repeat split; by vm_compute. Qed.

Example test_addToDate_months :
  shifted "2026-01-15" 1 U_month Plus = Some "2026-02-15" /\
  shifted "2026-03-15" 1 U_month Minus = Some "2026-02-15" /\
  shifted "2026-01-31" 1 U_month Plus = Some "2026-02-28" /\
  shifted "2024-01-31" 1 U_month Plus = Some "2024-02-29" /\
  shifted "2026-01-31" 3 U_months Plus = Some "2026-04-30".
Proof. repeat split; by vm_compute. Qed.

Example test_addToDate_years :
  shifted "2026-02-16" 1 U_year Plus = Some "2027-02-16" /\
  shifted "2026-02-16" 2 U_years Minus = Some "2024-02-16" /\
  shifted "2024-02-29" 1 U_year Plus = Some "2025-02-28".
Proof. repeat split; by vm_compute. Qed.

(** parser.test.ts *)

Example test_parse_valid :
  parse "MY_VAR" None = inr (var_ref "MY_VAR") /\
  parse "MY_DATE + 2 days" None
  = inr (date_arithmetic (var_ref "MY_DATE") Plus 2 U_days) /\
  parse "MY_DATE+2days" None
  = inr (date_arithmetic (var_ref "MY_DATE") Plus 2 U_days) /\
  parse "MY_DATE - 1 year" None
  = inr (date_arithmetic (var_ref "MY_DATE") Minus 1 U_year) /\
  parse "MY_DATE + 1 month + 2 days" None
  = inr (date_arithmetic (date_arithmetic (var_ref "MY_DATE") Plus 1 U_month)
           Plus 2 U_days).
Proof. repeat split; by vm_compute. Qed.

Example test_parse_invalid :
  rejected "my_date + 2 days" None = Some "PARSE_ERROR" /\
  rejected "MY_DATE + two days" None = Some "PARSE_ERROR" /\
  rejected "MY_DATE + 2" None = Some "PARSE_ERROR" /\
  rejected "MY_DATE * 2 days" None = Some "PARSE_ERROR" /\
  rejected "MY_DATE + 2 hours" None = Some "PARSE_ERROR" /\
  rejected "MY_DATE + 20000 days" None = Some "PARSE_ERROR" /\
  rejected "MY_DATE + 0 days" None = Some "PARSE_ERROR" /\
  rejected "MY_DATE + -5 days" None = Some "PARSE_ERROR".
Proof. repeat split; by vm_compute. Qed.

(** engine.test.ts *)

Example test_processText :
  processText defaultEngine "Ship date: {{SHIP_DATE + 2 days}}"
    {[ "SHIP_DATE" := "2026-02-16" ]}
  = mkProcessResult "Ship date: 2026-02-18" [] /\
  processText defaultEngine "{{ MY_DATE + 2 days }}" {[ "MY_DATE" := "2026-02-16" ]}
  = mkProcessResult "2026-02-18" [] /\
  processText defaultEngine "Date: {{DATE}}" {[ "DATE" := "2025-01-01" ]}
  = mkProcessResult "Date: 2025-01-01" [] /\
  processText defaultEngine "Today: {{DATE}}" ∅
  = mkProcessResult "Today: 2026-02-16" [] /\
  processText defaultEngine "{{MY_VAR}}" {[ "MY_VAR" := "hello" ]}
  = mkProcessResult "hello" [].
Proof. repeat split; by vm_compute. Qed.

Example test_processText_errors :
  map ee_code
    (pr_errors (processText defaultEngine "Date: {{MY_DATE + invalid}}"
                  {[ "MY_DATE" := "2026-02-16" ]}))
  = ["PARSE_ERROR"] /\
  map ee_code (pr_errors (processText defaultEngine "Value: {{UNDEFINED}}" ∅))
  = ["UNDEFINED_VARIABLE"] /\
  map ee_code
    (pr_errors (processText defaultEngine "{{MY_VAR + 2 days}}"
                  {[ "MY_VAR" := "not a date" ]}))
  = ["TYPE_ERROR"].
Proof. repeat split; by vm_compute. Qed.

Example test_extractExpressions :
  extractExpressions "{{A}} and {{B + 1 day}}" = ["{{A}}"; "{{B + 1 day}}"] /\
  extractExpressions "No expressions" = [].
Proof. split; by vm_compute. Qed.
End Tests.

(** ** The calendar of time values *)

(** Linear arithmetic with divisions by constants. *)
Ltac zdiv := Z.to_euclidean_division_equations; lia.

Lemma isLeapYear_cases y :
  (isLeapYear y = true /\ (y mod 4 = 0 /\ y mod 100 <> 0 \/ y mod 400 = 0)) \/
  (isLeapYear y = false /\ (y mod 4 <> 0 \/ y mod 100 = 0) /\ y mod 400 <> 0).
Proof.
  unfold isLeapYear.
  destruct (Z.eqb_spec (y mod 4) 0), (Z.eqb_spec (y mod 100) 0),
    (Z.eqb_spec (y mod 400) 0); simpl; lia.
Qed.

Lemma DayFromYear_succ y : DayFromYear (y + 1) = DayFromYear y + DaysInYear y.
Proof.
  unfold DaysInYear, DayFromYear.
  destruct (isLeapYear_cases y) as [[-> ?]|[-> ?]]; zdiv.
Qed.

Lemma DayFromYear_mono y1 y2 : y1 <= y2 -> DayFromYear y1 <= DayFromYear y2.
Proof. unfold DayFromYear. intros. zdiv. Qed.

(** [YearFromDay] is the year of ECMA-262: the largest with [DayFromYear]
    at most the day. *)
Lemma YearFromDay_spec d :
  DayFromYear (YearFromDay d) <= d < DayFromYear (YearFromDay d + 1).
Proof.
  unfold YearFromDay, DayFromYear. zdiv.
Qed.

Lemma YearFromDay_unique y d :
  DayFromYear y <= d < DayFromYear (y + 1) -> YearFromDay d = y.
Proof.
  intros Hy. pose proof (YearFromDay_spec d) as Hs.
  destruct (Z.lt_trichotomy (YearFromDay d) y) as [Hlt|[Heq|Hgt]]; [|done|].
  - pose proof (DayFromYear_mono (YearFromDay d + 1) y). lia.
  - pose proof (DayFromYear_mono (y + 1) (YearFromDay d)). lia.
Qed.

Lemma Day_MakeDate n tw :
  0 <= tw < msPerDay -> Day (MakeDate n tw) = n /\ TimeWithinDay (MakeDate n tw) = tw.
Proof. unfold Day, TimeWithinDay, MakeDate, msPerDay. intros. zdiv. Qed.

Lemma TimeWithinDay_range t : 0 <= TimeWithinDay t < msPerDay.
Proof. unfold TimeWithinDay, msPerDay. zdiv. Qed.

Lemma MakeDate_Day t : MakeDate (Day t) (TimeWithinDay t) = t.
Proof. unfold Day, TimeWithinDay, MakeDate, msPerDay. zdiv. Qed.

Lemma leapDay_cases y : leapDay y = 0 /\ DaysInYear y = 365 \/ leapDay y = 1 /\ DaysInYear y = 366.
Proof. unfold leapDay, DaysInYear. destruct (isLeapYear y); lia. Qed.

Lemma MakeDay_normal y m dt :
  0 <= m <= 11 -> MakeDay y m dt = DayFromYear y + monthStart (leapDay y) m + dt - 1.
Proof.
  intros Hm. unfold MakeDay.
  replace (m / 12) with 0 by zdiv. replace (m mod 12) with m by zdiv.
  by rewrite Z.add_0_r.
Qed.

Lemma MakeDay_carry y m dt : MakeDay y m dt = MakeDay (y + m / 12) (m mod 12) dt.
Proof.
  unfold MakeDay. rewrite Z.mod_mod by lia.
  replace (m mod 12 / 12) with 0 by zdiv. by rewrite Z.add_0_r.
Qed.

Ltac month_cases m Hm :=
  assert (m = 0 \/ m = 1 \/ m = 2 \/ m = 3 \/ m = 4 \/ m = 5 \/ m = 6 \/ m = 7 \/
          m = 8 \/ m = 9 \/ m = 10 \/ m = 11) as Hm by lia;
  repeat (destruct Hm as [Hm|Hm]); subst m.

Lemma DaysInMonth_range y m : 0 <= m <= 11 -> 28 <= DaysInMonth y m <= 31.
Proof.
  intros Hm. unfold DaysInMonth.
  destruct (leapDay_cases y) as [[-> _]|[-> _]]; month_cases m Hm'; simpl; lia.
Qed.

Lemma fields_of_MakeDay y m dt t :
  0 <= m <= 11 -> 1 <= dt <= DaysInMonth y m -> Day t = MakeDay y m dt ->
  YearFromTime t = y /\ MonthFromTime t = m /\ DateFromTime t = dt.
Proof.
  intros Hm Hdt Ht. rewrite MakeDay_normal in Ht by done.
  assert (YearFromTime t = y) as Hy.
  { apply YearFromDay_unique. rewrite DayFromYear_succ, Ht.
    unfold DaysInMonth in Hdt.
    destruct (leapDay_cases y) as [[Hl ->]|[Hl ->]]; rewrite Hl in *;
    month_cases m Hm'; simpl in *; lia. }
  assert (MonthFromTime t = m) as Hmo.
  { unfold MonthFromTime, DayWithinYear, InLeapYear. rewrite Hy, Ht.
    unfold DaysInMonth in Hdt.
    destruct (leapDay_cases y) as [[Hl _]|[Hl _]]; rewrite Hl in *;
    month_cases m Hm'; simpl in Hdt |- *;
    repeat (case_match; try lia). }
  split; [done|]. split; [done|].
  unfold DateFromTime, DayWithinYear, InLeapYear. rewrite Hmo, Hy, Ht. lia.
Qed.

Lemma MakeDay_of_fields t :
  MakeDay (YearFromTime t) (MonthFromTime t) (DateFromTime t) = Day t /\
  0 <= MonthFromTime t <= 11 /\
  1 <= DateFromTime t <= DaysInMonth (YearFromTime t) (MonthFromTime t).
Proof.
  pose proof (YearFromDay_spec (Day t)) as Hs. fold (YearFromTime t) in Hs.
  rewrite DayFromYear_succ in Hs.
  assert (0 <= MonthFromTime t <= 11) as Hm.
  { unfold MonthFromTime. repeat case_match; lia. }
  split; [|split; [done|]].
  - rewrite MakeDay_normal by done. unfold DateFromTime, DayWithinYear, InLeapYear. lia.
  - unfold DateFromTime, DaysInMonth.
    unfold MonthFromTime, InLeapYear, DayWithinYear in *.
    destruct (leapDay_cases (YearFromTime t)) as [[Hl Hd]|[Hl Hd]];
      rewrite Hl, ?Hd in *;
      repeat (case_match; simpl; try lia).
Qed.

(** ** Date arithmetic *)

Lemma MakeDay_date_shift y m dt k : MakeDay y m (dt + k) = MakeDay y m dt + k.
Proof. unfold MakeDay. lia. Qed.

Lemma MakeDay_next_month y m k :
  0 <= m <= 11 -> MakeDay y m (DaysInMonth y m + k) = MakeDay y (m + 1) k.
Proof.
  intros Hm. rewrite MakeDay_normal by done.
  destruct (Z.eq_dec m 11) as [->|Hne].
  - unfold MakeDay. replace ((11 + 1) / 12) with 1 by done.
    replace ((11 + 1) mod 12) with 0 by done.
    rewrite DayFromYear_succ. unfold DaysInMonth.
    destruct (leapDay_cases y) as [[-> ->]|[-> ->]]; simpl; lia.
  - rewrite MakeDay_normal by lia. unfold DaysInMonth. lia.
Qed.

Lemma TimeClip_day n :
  inDateRange n -> TimeClip (MakeDate n 0) = Some (n * msPerDay).
Proof.
  intros [Hlo Hhi]. unfold TimeClip, MakeDate, maxTime, msPerDay.
  rewrite Z.add_0_r. case_match; [done|]. lia.
Qed.

Lemma TimeClip_out n :
  ~ inDateRange n -> TimeClip (MakeDate n 0) = None.
Proof.
  intros Hn. unfold inDateRange in Hn. unfold TimeClip, MakeDate, maxTime, msPerDay.
  case_match; [|done]. lia.
Qed.

Lemma calendarDate_eq t : isCalendarDate t -> t = Day t * msPerDay.
Proof.
  intros [Htw _]. pose proof (MakeDate_Day t) as H. rewrite Htw in H.
  unfold MakeDate in H. lia.
Qed.

Lemma calendarDate_of_day n : inDateRange n -> isCalendarDate (n * msPerDay).
Proof.
  intros Hn. destruct (Day_MakeDate n 0) as [Hd Ht]; [unfold msPerDay; lia|].
  unfold MakeDate in *. rewrite Z.add_0_r in *. split; [done|]. by rewrite Hd.
Qed.

Lemma Day_of_day n : Day (n * msPerDay) = n.
Proof.
  destruct (Day_MakeDate n 0) as [Hd _]; [unfold msPerDay; lia|].
  unfold MakeDate in Hd. by rewrite Z.add_0_r in Hd.
Qed.

Lemma TimeClip_calendarDate t : isCalendarDate t -> TimeClip t = Some t.
Proof.
  intros Hc. rewrite (calendarDate_eq t Hc) at 1 2.
  destruct Hc as [_ Hr]. pose proof (TimeClip_day _ Hr) as H.
  unfold MakeDate in H. by rewrite Z.add_0_r in H.
Qed.

(** [setUTCDate] moves a calendar date by whole days. *)
Lemma setUTCDate_calendarDate t dt :
  isCalendarDate t ->
  setUTCDate (Some t) (Some dt) = TimeClip (MakeDate (Day t + (dt - DateFromTime t)) 0).
Proof.
  intros [Htw _]. unfold setUTCDate. simpl. rewrite Htw.
  replace dt with (DateFromTime t + (dt - DateFromTime t)) at 1 by lia.
  rewrite MakeDay_date_shift. by destruct (MakeDay_of_fields t) as [-> _].
Qed.

(** The clamp of the month and year cases, from the unclamped date. *)
Lemma clamp_after_shift y m dt :
  0 <= m <= 11 -> 1 <= dt <= 31 ->
  inDateRange (MakeDay y m dt) ->
  inDateRange (MakeDay y m (Z.min dt (DaysInMonth y m))) ->
  let result : Date := Some (MakeDay y m dt * msPerDay) in
  (if num_strict_neq (getUTCDate result) (Some dt)
   then setUTCDate result (Some 0) else result)
  = Some (MakeDay y m (Z.min dt (DaysInMonth y m)) * msPerDay).
Proof.
  intros Hm Hdt Hr Hc result. subst result.
  pose proof (DaysInMonth_range y m Hm) as Hdim.
  destruct (Z.le_gt_cases dt (DaysInMonth y m)) as [Hle|Hgt].
  - rewrite Z.min_l in * by done.
    destruct (fields_of_MakeDay y m dt (MakeDay y m dt * msPerDay)) as (_ & _ & Hd);
      [done|lia|by rewrite Day_of_day|].
    simpl. rewrite Hd, Z.eqb_refl. done.
  - rewrite Z.min_r in * by lia.
    set (k := dt - DaysInMonth y m).
    assert (MakeDay y m dt = MakeDay (y + (m + 1) / 12) ((m + 1) mod 12) k) as Hnext.
    { rewrite <- MakeDay_carry, <- MakeDay_next_month by done. f_equal. lia. }
    assert (0 <= (m + 1) mod 12 <= 11) as Hm' by (pose proof (Z.mod_pos_bound (m + 1) 12); lia).
    pose proof (DaysInMonth_range (y + (m + 1) / 12) ((m + 1) mod 12) Hm') as Hdim'.
    destruct (fields_of_MakeDay (y + (m + 1) / 12) ((m + 1) mod 12) k
                (MakeDay y m dt * msPerDay) Hm') as (_ & _ & Hd);
      [lia|by rewrite Day_of_day|].
    replace (getUTCDate (Some (MakeDay y m dt * msPerDay))) with (Some k)
      by (simpl; by rewrite Hd).
    replace (num_strict_neq (Some k) (Some dt)) with true
      by (simpl; symmetry; apply negb_true_iff, Z.eqb_neq; lia).
    rewrite setUTCDate_calendarDate by (by apply calendarDate_of_day).
    rewrite Day_of_day, Hd.
    replace (MakeDay y m dt + (0 - k)) with (MakeDay y m (DaysInMonth y m)).
    + by apply TimeClip_day.
    + rewrite <- MakeDay_date_shift. f_equal. lia.
Qed.

Lemma Date_copy_calendarDate t : isCalendarDate t -> Date_copy (Some t) = Some t.
Proof. intros Hc. unfold Date_copy. cbn [mbind option_bind]. by apply TimeClip_calendarDate. Qed.

Ltac date_getters :=
  cbn [getUTCDate getUTCMonth getUTCFullYear num_add fmap option_fmap option_map].

Lemma addToDate_spec t amount unit operator :
  isCalendarDate t ->
  inDateRange (shiftedDay t amount unit operator) ->
  inDateRange (applyInterval_spec t amount unit operator) ->
  addToDate (Some t) amount unit operator
  = Some (applyInterval_spec t amount unit operator * msPerDay).
Proof.
  intros Hc Hs Ha.
  destruct (MakeDay_of_fields t) as (Hday & Hm & Hdt).
  pose proof (DaysInMonth_range (YearFromTime t) _ Hm) as Hdim.
  assert (amount * (match operator with Plus => 1 | Minus => -1 end)
          = signedAmount amount operator) as Hsign
    by (destruct operator; cbn [signedAmount]; lia).
  unfold addToDate. rewrite (Date_copy_calendarDate t Hc), Hsign.
  unfold applyInterval_spec, shiftedDay, targetMonth in *.
  set (a := signedAmount amount operator) in *.
  destruct unit; date_getters.
  1-2: rewrite setUTCDate_calendarDate by done;
       replace (Day t + (DateFromTime t + a - DateFromTime t)) with (Day t + a) by lia;
       by apply TimeClip_day.
  1-2: rewrite setUTCDate_calendarDate by done;
       replace (Day t + (DateFromTime t + a * 7 - DateFromTime t)) with (Day t + 7 * a) by lia;
       by apply TimeClip_day.
  1-2: unfold setUTCMonth; cbn [mbind option_bind]; destruct Hc as [-> _];
       rewrite MakeDay_carry, TimeClip_day by done;
       apply clamp_after_shift;
         [pose proof (Z.mod_pos_bound (MonthFromTime t + a) 12); lia| | |];
         (done || lia).
  1-2: unfold setUTCFullYear; cbn [mbind option_bind default from_option id]; destruct Hc as [-> _];
       rewrite TimeClip_day by done;
       apply clamp_after_shift; (done || lia).
Qed.

(** ** Formatting and parsing dates *)

Lemma allFrom_spec f n : forall lo,
  allFrom f lo n = true -> forall z, lo <= z < lo + Z.of_nat n -> f z = true.
Proof.
  induction n as [|n IH]; intros lo Hall z Hz; [lia|].
  simpl in Hall. destruct (f lo) eqn:Hf; [|done].
  destruct (Z.eq_dec z lo) as [->|Hne]; [done|].
  apply (IH (lo + 1)); [done|lia].
Qed.

Lemma fourDigits_year y : 1000 <= y <= 9999 -> fourDigits y = true.
Proof.
  intros Hy. apply (allFrom_spec fourDigits (Z.to_nat 9000) 1000);
    [by vm_compute|rewrite Z2Nat.id; lia].
Qed.

Lemma twoDigits_field n : 0 <= n <= 99 -> twoDigits n = true.
Proof.
  intros Hn. apply (allFrom_spec twoDigits (Z.to_nat 100) 0);
    [by vm_compute|rewrite Z2Nat.id; lia].
Qed.

Section WithHost.
Context `{Host}.

Lemma IntegerToString_small z :
  0 <= z < 1000000000000000000000 -> IntegerToString z = decimal z.
Proof.
  intros Hz. unfold IntegerToString.
  destruct (Z.leb_spec 1000000000000000000000 (Z.abs z)); [lia|].
  destruct (Z.ltb_spec z 0); [lia|done].
Qed.

(** The text of a date whose year has four digits. *)
Lemma formatDate_shape t :
  1000 <= YearFromTime t <= 9999 ->
  exists y1 y2 y3 y4 m1 m2 d1 d2,
    formatDate (Some t) =
      String y1 (String y2 (String y3 (String y4 (String "-"
        (String m1 (String m2 (String "-" (String d1 (String d2 "")))))))))
    /\ isDigit y1 && isDigit y2 && isDigit y3 && isDigit y4
       && isDigit m1 && isDigit m2 && isDigit d1 && isDigit d2 = true
    /\ digitsValue (String y1 (String y2 (String y3 (String y4 "")))) = YearFromTime t
    /\ digitsValue (String m1 (String m2 "")) = MonthFromTime t + 1
    /\ digitsValue (String d1 (String d2 "")) = DateFromTime t.
Proof.
  intros Hy.
  destruct (MakeDay_of_fields t) as (_ & Hm & Hd).
  pose proof (DaysInMonth_range (YearFromTime t) _ Hm) as Hdim.
  unfold formatDate. date_getters. unfold NumberToString.
  rewrite !IntegerToString_small by lia.
  pose proof (fourDigits_year _ Hy) as H4.
  pose proof (twoDigits_field (MonthFromTime t + 1) ltac:(lia)) as Hm2.
  pose proof (twoDigits_field (DateFromTime t) ltac:(lia)) as Hd2.
  unfold fourDigits in H4. unfold twoDigits in Hm2, Hd2.
  destruct (decimal (YearFromTime t)) as [|y1 [|y2 [|y3 [|y4 [|]]]]]; try done.
  destruct (padStart 2 "0" (decimal (MonthFromTime t + 1))) as [|m1 [|m2 [|]]]; try done.
  destruct (padStart 2 "0" (decimal (DateFromTime t))) as [|d1 [|d2 [|]]]; try done.
  exists y1, y2, y3, y4, m1, m2, d1, d2.
  repeat match goal with
         | H : _ && _ = true |- _ => apply andb_prop in H; destruct H
         | H : (_ =? _) = true |- _ => apply Z.eqb_eq in H
         end.
  repeat split; try done.
  repeat match goal with Hd : isDigit _ = true |- _ => rewrite Hd; clear Hd end.
  done.
Qed.

Lemma parseDate_plain value t :
  isoDateRegex value = true ->
  Date_ofString (value ++ "T00:00:00.000Z") = Some t ->
  formatDate (Some t) = value ->
  parseDate value = Some (Some t).
Proof.
  intros Hre Hd Hf. unfold parseDate. rewrite Hre, Hd, Hf.
  cbn [isInvalid getTime negb]. by rewrite String.eqb_refl.
Qed.

Lemma isoDateRegex_not_dateTime value :
  isoDateRegex value = true -> isoDateTimeRegex value = false.
Proof.
  unfold isoDateRegex, isoDateTimeRegex.
  destruct (list_ascii_of_string value) as [|? [|? [|? [|? [|? [|? [|? [|? [|? [|? [|? ?]]]]]]]]]]];
    done.
Qed.

(** A plain date text is accepted only for the date that prints as it. *)
Lemma parseDate_plain_inv value date :
  isoDateRegex value = true ->
  parseDate value = Some date ->
  formatDate date = value /\ Date_ofString (value ++ "T00:00:00.000Z") = date.
Proof.
  intros Hre. unfold parseDate.
  rewrite Hre, (isoDateRegex_not_dateTime value Hre).
  destruct (negb (isInvalid _)); [|done].
  destruct (String.eqb_spec (formatDate (Date_ofString (value ++ "T00:00:00.000Z"))) value);
    [|done].
  intros [= <-]. done.
Qed.

End WithHost.

(** ** The tokenizer *)

Lemma readWhile_length p s :
  (String.length (readWhile p s).2 <= String.length s)%nat.
Proof.
  induction s as [|c r IH]; cbn [readWhile]; [done|].
  destruct (p c); [|done].
  destruct (readWhile p r) as [v rest]. cbn in *. lia.
Qed.

Lemma readWhile_progress p c r :
  p c = true ->
  (String.length (readWhile p (String c r)).2 <= String.length r)%nat.
Proof.
  intros Hc. cbn [readWhile]. rewrite Hc.
  pose proof (readWhile_length p r). destruct (readWhile p r). done.
Qed.

Lemma readWhile_anyChar p q s :
  (forall c, p c = true -> q c = false) ->
  anyChar q (readWhile p s).2 = anyChar q s.
Proof.
  intros Hpq. induction s as [|c r IH]; cbn [readWhile]; [done|].
  destruct (p c) eqn:Hc; [|done].
  destruct (readWhile p r) as [v rest]. cbn in *. by rewrite (Hpq c Hc).
Qed.

Lemma trimStart_length s : (String.length (trimStart s) <= String.length s)%nat.
Proof.
  induction s as [|c r IH]; cbn [trimStart]; [done|].
  destruct (isSpace c); cbn; lia.
Qed.

Lemma trimStart_head s c r : trimStart s = String c r -> isSpace c = false.
Proof.
  induction s as [|c' r' IH]; cbn [trimStart]; [done|].
  destruct (isSpace c') eqn:Hc; [done|]. by intros [= <- <-].
Qed.

Lemma trimStart_anyChar q s :
  (forall c, isSpace c = true -> q c = false) ->
  anyChar q (trimStart s) = anyChar q s.
Proof.
  intros Hq. induction s as [|c r IH]; cbn [trimStart]; [done|].
  destruct (isSpace c) eqn:Hc; [|done]. cbn. by rewrite (Hq c Hc).
Qed.

Lemma trimEnd_anyChar q s :
  (forall c, isSpace c = true -> q c = false) ->
  anyChar q (trimEnd s) = anyChar q s.
Proof.
  intros Hq. induction s as [|c r IH]; [done|].
  cbn [trimEnd anyChar]. rewrite <- IH.
  destruct (trimEnd r); [|done].
  destruct (isSpace c) eqn:Hc; cbn; [by rewrite (Hq c Hc)|by rewrite orb_false_r].
Qed.

Lemma trim_anyChar q s :
  (forall c, isSpace c = true -> q c = false) ->
  anyChar q (trim s) = anyChar q s.
Proof. intros Hq. unfold trim. by rewrite trimEnd_anyChar, trimStart_anyChar. Qed.

Lemma unrecognized_space c : isSpace c = true -> unrecognized c = false.
Proof. unfold unrecognized. by intros ->. Qed.

Lemma unrecognized_var c : isVarChar c = true -> unrecognized c = false.
Proof. unfold unrecognized. intros ->. by rewrite orb_true_r. Qed.

Lemma unrecognized_digit c : isDigit c = true -> unrecognized c = false.
Proof. unfold unrecognized. intros ->. by rewrite !orb_true_r. Qed.

Lemma unrecognized_lower c : isLower c = true -> unrecognized c = false.
Proof. unfold unrecognized. intros ->. by rewrite !orb_true_r. Qed.

Section Tokenizer.
Context `{Host}.

(** With fuel for every character, the tokenizer fails exactly on an
    input that holds a character of no class, and otherwise returns
    tokens ended by the only end-of-input token. *)
Lemma tokenizeLoop_total fuel : forall pos input,
  (String.length input <= fuel)%nat ->
  if anyChar unrecognized input
  then exists c p, tokenizeLoop fuel pos input = inl (unexpectedCharacter c p)
  else exists tokens, tokenizeLoop fuel pos input = inr tokens /\ eofLast tokens = true.
Proof.
  induction fuel as [|fuel IH]; intros pos input Hlen.
  - destruct input; [|cbn in Hlen; lia]. cbn. by eexists.
  - cbn [tokenizeLoop].
    rewrite <- (trimStart_anyChar unrecognized input unrecognized_space).
    pose proof (trimStart_length input) as Hts.
    pose proof (trimStart_head input) as Hhead.
    destruct (trimStart input) as [|current after]; [cbn; by eexists|].
    specialize (Hhead current after eq_refl).
    cbn [String.length] in Hts.
    set (pos' := pos + (strlen input - strlen (String current after))).
    destruct (isVarChar current) eqn:Hv.
    { pose proof (readWhile_progress isVarChar current after Hv) as Hp.
      rewrite <- (readWhile_anyChar isVarChar unrecognized (String current after)
                    unrecognized_var).
      destruct (readWhile isVarChar (String current after)) as [value rest'].
      cbn [snd] in *.
      specialize (IH (pos' + strlen value) rest' ltac:(lia)).
      destruct (anyChar unrecognized rest').
      - destruct IH as (c & p & ->). by exists c, p.
      - destruct IH as (tokens & -> & Heof). eexists. split; [done|].
        cbn. by destruct tokens. }
    destruct (isValidOperator (String current "")) eqn:Ho.
    { cbn [anyChar]. unfold unrecognized at 1. rewrite Ho, !orb_true_r. cbn [negb orb].
      specialize (IH (pos' + 1) after ltac:(lia)).
      destruct (anyChar unrecognized after).
      - destruct IH as (c & p & ->). by exists c, p.
      - destruct IH as (tokens & -> & Heof). eexists. split; [done|].
        cbn. by destruct tokens. }
    destruct (isDigit current) eqn:Hd.
    { pose proof (readWhile_progress isDigit current after Hd) as Hp.
      rewrite <- (readWhile_anyChar isDigit unrecognized (String current after)
                    unrecognized_digit).
      destruct (readWhile isDigit (String current after)) as [value rest'].
      cbn [snd] in *.
      specialize (IH (pos' + strlen value) rest' ltac:(lia)).
      destruct (anyChar unrecognized rest').
      - destruct IH as (c & p & ->). by exists c, p.
      - destruct IH as (tokens & -> & Heof). eexists. split; [done|].
        cbn. by destruct tokens. }
    destruct (isLower current) eqn:Hl.
    { pose proof (readWhile_progress isLower current after Hl) as Hp.
      rewrite <- (readWhile_anyChar isLower unrecognized (String current after)
                    unrecognized_lower).
      destruct (readWhile isLower (String current after)) as [value rest'].
      cbn [snd] in *.
      specialize (IH (pos' + strlen value) rest' ltac:(lia)).
      destruct (anyChar unrecognized rest').
      - destruct IH as (c & p & ->). by exists c, p.
      - destruct IH as (tokens & -> & Heof). eexists. split; [done|].
        cbn. by destruct tokens. }
    cbn [anyChar]. unfold unrecognized at 1.
    rewrite Hhead, Hv, Ho, Hd, Hl. cbn. by eexists _, _.
Qed.

Lemma tokenize_total input :
  if anyChar unrecognized input
  then exists c p, tokenize input = inl (unexpectedCharacter c p)
  else exists tokens, tokenize input = inr tokens /\ eofLast tokens = true.
Proof.
  unfold tokenize.
  rewrite <- (trim_anyChar unrecognized input unrecognized_space).
  by apply tokenizeLoop_total.
Qed.
End Tokenizer.

(** ** The parser *)

Lemma TokenType_eqb_eq a b : TokenType_eqb a b = true <-> a = b.
Proof. destruct a, b; cbn; split; congruence. Qed.

Lemma advance_cons t ts :
  TokenType_eqb (tok_type t) EOF = false -> advance (t :: ts) = ts.
Proof. intros Ht. unfold advance. cbn. by rewrite Ht. Qed.

Lemma eofLast_tail t ts :
  TokenType_eqb (tok_type t) EOF = false -> eofLast (t :: ts) = true ->
  eofLast ts = true.
Proof.
  intros Ht. cbn [eofLast]. rewrite Ht. destruct ts; [done|].
  cbn [negb andb]. done.
Qed.

Lemma eofLast_head_eof ts :
  eofLast ts = true -> TokenType_eqb (tok_type (currentToken ts)) EOF = true ->
  exists t, ts = [t].
Proof.
  destruct ts as [|t [|t' ts]]; [done|by eexists|].
  cbn. intros Hl He. by rewrite He in Hl.
Qed.

Section Parser.
Context `{Host}.
Variable maxAmount : Z.

Lemma expect_inr ty tokens tok tokens' :
  expect ty tokens = inr (tok, tokens') ->
  tok = currentToken tokens /\ tok_type tok = ty /\ tokens' = advance tokens.
Proof.
  unfold expect.
  destruct (TokenType_eqb (tok_type (currentToken tokens)) ty) eqn:Hty; [|done].
  cbn. intros [= <- <-]. by apply TokenType_eqb_eq in Hty.
Qed.

Lemma expect_inl ty tokens e :
  expect ty tokens = inl e -> pe_code e = "PARSE_ERROR".
Proof. unfold expect. case_match; [|done]. by intros [= <-]. Qed.

(** One round of the loop, read off a successful run. *)
Lemma parseLoop_step fuel node tokens result :
  TokenType_eqb (tok_type (currentToken tokens)) OPERATOR = true ->
  parseLoop maxAmount (S fuel) node tokens = inr result ->
  exists op num unit rest amount,
    tokens = op :: num :: unit :: rest /\
    goodInterval maxAmount op num unit = true /\
    parseInt10 (tok_value num) = Some amount /\
    parseLoop maxAmount fuel
      (date_arithmetic node (Operator_of (tok_value op)) amount
         (TimeUnit_of (tok_value unit))) rest = inr result.
Proof.
  intros Hop. cbn [parseLoop]. rewrite Hop.
  destruct tokens as [|op tokens]; [done|]. cbn [currentToken hd] in *.
  destruct (isValidOperator (tok_value op)) eqn:Hvalid; [|done]. cbn [negb].
  rewrite advance_cons by (apply TokenType_eqb_eq in Hop; by rewrite Hop).
  destruct (expect NUMBER tokens) as [|[num tokens1]] eqn:Hnum; [done|].
  apply expect_inr in Hnum as (-> & Hnty & ->).
  destruct tokens as [|num tokens]; [done|]. cbn [currentToken hd] in *.
  rewrite advance_cons by (by rewrite Hnty).
  destruct (parseInt10 (tok_value num)) as [amount|] eqn:Hamount; [|done].
  destruct (Z.leb_spec amount 0); [done|].
  destruct (Z.ltb_spec maxAmount amount); [done|].
  destruct (expect UNIT tokens) as [|[unit tokens2]] eqn:Hunit; [done|].
  apply expect_inr in Hunit as (-> & Huty & ->).
  destruct tokens as [|unit tokens]; [done|]. cbn [currentToken hd] in *.
  rewrite advance_cons by (by rewrite Huty).
  destruct (isValidTimeUnit (tok_value unit)) eqn:Hu; [|done]. cbn [negb].
  intros Hrec. exists op, num, unit, tokens, amount.
  split; [done|]. split; [|done].
  unfold goodInterval. rewrite Hop, Hvalid, Hnty, Hamount, Huty, Hu.
  replace (0 <? amount) with true by (symmetry; apply Z.ltb_lt; lia).
  replace (amount <=? maxAmount) with true by (symmetry; apply Z.leb_le; lia).
  done.
Qed.

Lemma goodInterval_inv op num unit :
  goodInterval maxAmount op num unit = true ->
  tok_type op = OPERATOR /\ isValidOperator (tok_value op) = true /\
  tok_type num = NUMBER /\ tok_type unit = UNIT /\
  isValidTimeUnit (tok_value unit) = true /\
  exists amount, parseInt10 (tok_value num) = Some amount /\
                 0 < amount <= maxAmount.
Proof.
  unfold goodInterval. intros Hg.
  repeat (apply andb_prop in Hg as [Hg ?]).
  destruct (parseInt10 (tok_value num)) as [amount|]; [|done].
  repeat match goal with
         | Hx : TokenType_eqb _ _ = true |- _ => apply TokenType_eqb_eq in Hx
         | Hx : _ && _ = true |- _ => apply andb_prop in Hx as [? ?]
         | Hx : (_ <? _) = true |- _ => apply Z.ltb_lt in Hx
         | Hx : (_ <=? _) = true |- _ => apply Z.leb_le in Hx
         end.
  repeat split; try done. exists amount. split; [done|lia].
Qed.

(** What a successful run of the loop tells about the tokens it read. *)
Lemma parseLoop_inr fuel : forall node tokens node' tokens',
  parseLoop maxAmount fuel node tokens = inr (node', tokens') ->
  TokenType_eqb (tok_type (currentToken tokens')) OPERATOR = false /\
  (amountsWithin maxAmount node -> amountsWithin maxAmount node') /\
  (eofLast tokens = true -> eofLast tokens' = true) /\
  (operatorsWellFollowed tokens' = true -> operatorsWellFollowed tokens = true).
Proof.
  induction fuel as [|fuel IH]; intros node tokens node' tokens' Hrun.
  - cbn [parseLoop] in Hrun.
    destruct (TokenType_eqb (tok_type (currentToken tokens)) OPERATOR) eqn:Hop;
      [done|]. by injection Hrun as <- <-.
  - destruct (TokenType_eqb (tok_type (currentToken tokens)) OPERATOR) eqn:Hop.
    + apply parseLoop_step in Hrun as (op & num & unit & rest & amount & -> & Hg & Ha & Hrun);
        [|done].
      apply IH in Hrun as (Hcur & Hamt & Heof & Hwf).
      apply goodInterval_inv in Hg as (Hto & Hvo & Htn & Htu & Hvu & amount' & Ha' & Hrange).
      rewrite Ha in Ha'. injection Ha' as <-.
      split; [done|]. split; [|split].
      * intros Hnode. apply Hamt. cbn. done.
      * intros Hl. apply Heof.
        do 3 (apply eofLast_tail in Hl; [|by rewrite ?Hto, ?Htn, ?Htu]). done.
      * intros Hr. specialize (Hwf Hr). cbn [operatorsWellFollowed intervalAfter].
        rewrite Hto, Htn, Htu, Ha, Hvu, Hwf.
        replace (0 <? amount) with true by (symmetry; apply Z.ltb_lt; lia).
        done.
    + cbn [parseLoop] in Hrun. rewrite Hop in Hrun. injection Hrun as <- <-. done.
Qed.

Lemma parseLoop_inl fuel : forall node tokens e,
  parseLoop maxAmount fuel node tokens = inl e -> pe_code e = "PARSE_ERROR".
Proof.
  induction fuel as [|fuel IH]; intros node tokens e; cbn [parseLoop].
  - case_match; [|done]. by intros [= <-].
  - repeat (case_match; try done); try (by intros [= <-]);
      try (intros [= <-]; by eapply expect_inl).
    apply IH.
Qed.

(** A successful parse: amounts within the limit, operators followed by
    amount and unit. *)
Lemma Parser_parse_inr tokens ast :
  Parser_parse maxAmount tokens = inr ast ->
  amountsWithin maxAmount ast /\
  (eofLast tokens = true -> operatorsWellFollowed tokens = true).
Proof.
  unfold Parser_parse, parseExpression, parsePrimary.
  destruct (TokenType_eqb (tok_type (currentToken tokens)) VAR) eqn:Hvar; [|done].
  destruct (parseLoop _ _ _ _) as [|[node' tokens']] eqn:Hrun; [done|].
  apply parseLoop_inr in Hrun as (Hcur & Hamt & Heof & Hwf).
  destruct (TokenType_eqb (tok_type (currentToken tokens')) EOF) eqn:Hend; [|done].
  cbn [negb]. intros [= <-]. split; [by apply Hamt|].
  intros Hl. destruct tokens as [|var tokens]; [done|]. cbn [currentToken hd] in Hvar.
  apply TokenType_eqb_eq in Hvar.
  rewrite advance_cons in * by (by rewrite Hvar).
  apply eofLast_tail in Hl; [|by rewrite Hvar].
  cbn [operatorsWellFollowed]. rewrite Hvar. cbn. apply Hwf.
  destruct (eofLast_head_eof tokens' (Heof Hl) Hend) as [t ->].
  cbn in *. by rewrite Hcur.
Qed.

Lemma Parser_parse_inl tokens e :
  Parser_parse maxAmount tokens = inl e -> pe_code e = "PARSE_ERROR".
Proof.
  unfold Parser_parse, parseExpression, parsePrimary.
  destruct (TokenType_eqb (tok_type (currentToken tokens)) VAR);
    [|by intros [= <-]].
  destruct (parseLoop _ _ _ _) as [e'|[node' tokens']] eqn:Hrun.
  - intros [= <-]. by eapply parseLoop_inl.
  - case_match; [by intros [= <-]|done].
Qed.

(** Fuel beyond the number of tokens changes nothing: the loop never
    runs out of it. *)
Lemma parseLoop_fuel fuel : forall fuel' node tokens,
  (length tokens <= fuel)%nat -> (length tokens <= fuel')%nat ->
  parseLoop maxAmount fuel node tokens = parseLoop maxAmount fuel' node tokens.
Proof.
  induction fuel as [|fuel IH]; intros fuel' node tokens Hlen Hlen'.
  - destruct tokens; [by destruct fuel'|cbn in Hlen; lia].
  - destruct tokens as [|op tokens]; [by destruct fuel'|].
    destruct fuel' as [|fuel']; [cbn in Hlen'; lia|].
    cbn [parseLoop currentToken hd].
    destruct (TokenType_eqb (tok_type op) OPERATOR) eqn:Hop; [|done].
    destruct (isValidOperator (tok_value op)); [|done]. cbn [negb].
    rewrite advance_cons by (apply TokenType_eqb_eq in Hop; by rewrite Hop).
    destruct (expect NUMBER tokens) as [|[num tokens1]] eqn:Hnum; [done|].
    apply expect_inr in Hnum as (-> & Hnty & ->).
    destruct (parseInt10 _); [|done].
    destruct (_ <=? 0); [done|]. destruct (maxAmount <? _); [done|].
    destruct (expect UNIT (advance tokens)) as [|[unit tokens2]] eqn:Hunit; [done|].
    apply expect_inr in Hunit as (-> & Huty & ->).
    destruct (isValidTimeUnit _); [|done]. cbn [negb].
    assert (length (advance (advance tokens)) <= length tokens)%nat as Hadv.
    { unfold advance. repeat case_match; destruct tokens as [|? [|? ?]]; cbn; lia. }
    cbn in Hlen, Hlen'. apply IH; lia.
Qed.
End Parser.

(** ** The exported [parse] *)

Section Parse.
Context `{Host}.

Lemma parse_too_long expression options :
  default 200 (options ≫= maxExpressionLength) < strlen expression ->
  parse expression options
  = inl (mkParseError "EXPRESSION_TOO_LONG"
           ("Expression exceeds maximum length of "
              ++ IntegerToString (default 200 (options ≫= maxExpressionLength))
              ++ " characters")
           expression None).
Proof.
  intros Hlen. unfold parse.
  destruct (Z.ltb_spec (default 200 (options ≫= maxExpressionLength))
              (strlen expression)); [done|lia].
Qed.

Lemma parse_within_length expression options :
  strlen expression <= default 200 (options ≫= maxExpressionLength) ->
  parse expression options =
    match tokenize expression with
    | inl msg => inl (mkParseError "PARSE_ERROR" msg expression None)
    | inr tokens =>
        Parser_parse (default 10000 (options ≫= maxIntervalAmount)) tokens
    end.
Proof.
  intros Hlen. unfold parse.
  destruct (Z.ltb_spec (default 200 (options ≫= maxExpressionLength))
              (strlen expression)); [lia|done].
Qed.

(** Within the length limit every failure carries [PARSE_ERROR]. *)
Lemma parse_inl_code expression options e :
  strlen expression <= default 200 (options ≫= maxExpressionLength) ->
  parse expression options = inl e -> pe_code e = "PARSE_ERROR".
Proof.
  intros Hlen. rewrite parse_within_length by done.
  destruct (tokenize expression); [by intros [= <-]|apply Parser_parse_inl].
Qed.

Lemma parse_inr_amounts expression options ast :
  parse expression options = inr ast ->
  amountsWithin (default 10000 (options ≫= maxIntervalAmount)) ast.
Proof.
  unfold parse. case_match; [done|].
  destruct (tokenize expression); [done|].
  intros Hp. by apply Parser_parse_inr in Hp as [? _].
Qed.

Lemma parse_malformed_fails expression options :
  anyChar unrecognized expression = true \/
  (exists tokens, tokenize expression = inr tokens /\
                  operatorsWellFollowed tokens = false) ->
  exists e, parse expression options = inl e.
Proof.
  intros Hbad. destruct (parse expression options) as [e|ast] eqn:Hp; [by eexists|].
  exfalso. unfold parse in Hp. case_match; [done|].
  pose proof (tokenize_total expression) as Htot.
  destruct Hbad as [Hbad|(tokens & Htok & Hbad)].
  - rewrite Hbad in Htot. destruct Htot as (c & p & Htok). by rewrite Htok in Hp.
  - rewrite Htok in Hp, Htot.
    destruct (anyChar unrecognized expression);
      [by destruct Htot as (? & ? & ?)|].
    destruct Htot as (tokens' & [= <-] & Heof).
    apply Parser_parse_inr in Hp as [_ Hwf]. rewrite Hwf in Hbad; done.
Qed.
End Parse.

(** ** The scan for occurrences *)

#[local] Arguments String.append : simpl nomatch.

Lemma append_assoc (a b c : string) : (a ++ b) ++ c = a ++ (b ++ c).
Proof. induction a as [|x a IH]; cbn; [done|by rewrite IH]. Qed.

Lemma append_nil_r (a : string) : a ++ "" = a.
Proof. induction a as [|x a IH]; cbn; [done|by rewrite IH]. Qed.

Lemma append_length (a b : string) :
  String.length (a ++ b) = (String.length a + String.length b)%nat.
Proof. induction a as [|x a IH]; cbn; [done|by rewrite IH]. Qed.

Lemma readWhile_append p s v rest :
  readWhile p s = (v, rest) -> s = v ++ rest.
Proof.
  revert v rest. induction s as [|c r IH]; intros v rest; cbn [readWhile].
  - by intros [= <- <-].
  - destruct (p c); [|by intros [= <- <-]].
    destruct (readWhile p r) as [v' rest'] eqn:Hr. intros [= <- <-].
    cbn. by rewrite (IH v' rest' eq_refl).
Qed.

Lemma readWhile_prefix p s v rest :
  readWhile p s = (v, rest) -> anyChar (fun c => negb (p c)) v = false.
Proof.
  revert v rest. induction s as [|c r IH]; intros v rest; cbn [readWhile].
  - by intros [= <- <-].
  - destruct (p c) eqn:Hc; [|by intros [= <- <-]].
    destruct (readWhile p r) as [v' rest'] eqn:Hr. intros [= <- <-].
    cbn. rewrite Hc. cbn. by eapply IH.
Qed.

(** The run stops exactly where the first character outside the class is. *)
Lemma readWhile_stop p v c rest :
  anyChar (fun c => negb (p c)) v = false -> p c = false ->
  readWhile p (v ++ String c rest) = (v, String c rest).
Proof.
  intros Hv Hc. induction v as [|x v IH]; cbn [String.append readWhile].
  - by rewrite Hc.
  - cbn in Hv. apply orb_false_elim in Hv as [Hx Hv].
    apply negb_false_iff in Hx. rewrite Hx, (IH Hv). done.
Qed.

Lemma notRBrace_anyChar v :
  anyChar (fun c => negb (notRBrace c)) v = anyChar isRBrace v.
Proof.
  induction v as [|x v IH]; cbn; [done|].
  rewrite IH. unfold notRBrace, isRBrace. by rewrite negb_involutive.
Qed.

(** A match of the code's pattern, spelled out. *)
Lemma matchToken_Some s e rest :
  matchToken s = Some (e, rest) <->
  s = tokenText e ++ rest /\ e <> "" /\ anyChar isRBrace e = false.
Proof.
  split.
  - unfold matchToken.
    destruct s as [|o1 [|o2 r]]; try done.
    destruct (Ascii.eqb_spec o1 "{") as [->|?]; [|done].
    destruct (Ascii.eqb_spec o2 "{") as [->|?]; [|done]. cbn [andb].
    destruct (readWhile notRBrace r) as [v after] eqn:Hr.
    pose proof (readWhile_append _ _ _ _ Hr) as Happ.
    pose proof (readWhile_prefix _ _ _ _ Hr) as Hpre.
    rewrite notRBrace_anyChar in Hpre.
    destruct v as [|c g]; [done|].
    destruct after as [|c1 [|c2 after]]; try done.
    destruct (Ascii.eqb_spec c1 "}") as [->|?]; [|done].
    destruct (Ascii.eqb_spec c2 "}") as [->|?]; [|done]. cbn [andb].
    intros [= <- <-]. split; [|done].
    unfold tokenText. cbn [String.append]. rewrite Happ.
    by rewrite !append_assoc.
  - intros (-> & Hne & Hbr). unfold matchToken, tokenText.
    cbn [String.append]. rewrite append_assoc. cbn [String.append].
    replace (Ascii.eqb "{" "{") with true by done. cbn [andb].
    rewrite readWhile_stop; [|by rewrite notRBrace_anyChar|done].
    destruct e; done.
Qed.

Lemma matchToken_shorter s e rest :
  matchToken s = Some (e, rest) -> (String.length rest < String.length s)%nat.
Proof.
  intros Hm. apply matchToken_Some in Hm as (-> & _ & _).
  unfold tokenText. rewrite !append_length. cbn. lia.
Qed.





(** The pieces put together are the text. *)
Lemma scan_text fuel : forall s,
  (String.length s <= fuel)%nat -> concatStrings (map pieceText (scan fuel s)) = s.
Proof.
  induction fuel as [|fuel IH]; intros s Hlen.
  - destruct s; [done|cbn in Hlen; lia].
  - destruct s as [|c r]; [done|]. cbn [scan].
    destruct (matchToken (String c r)) as [[e rest]|] eqn:Hm.
    + pose proof (matchToken_shorter _ _ _ Hm) as Hshort.
      apply matchToken_Some in Hm as (Hs & _ & _).
      cbn [map concatStrings fold_right pieceText].
      fold (concatStrings (map pieceText (scan fuel rest))).
      rewrite IH by (cbn in *; lia). by rewrite Hs.
    + cbn [map concatStrings fold_right pieceText String.append].
      fold (concatStrings (map pieceText (scan fuel r))).
      rewrite IH by (cbn in *; lia). done.
Qed.

Lemma pieces_text text : concatStrings (map pieceText (pieces text)) = text.
Proof. by apply scan_text. Qed.

(** Fuel beyond the length of the text changes nothing. *)
Lemma scan_fuel fuel : forall fuel' s,
  (String.length s <= fuel)%nat -> (String.length s <= fuel')%nat ->
  scan fuel s = scan fuel' s.
Proof.
  induction fuel as [|fuel IH]; intros fuel' s Hlen Hlen'.
  - destruct s; [by destruct fuel'|cbn in Hlen; lia].
  - destruct s as [|c r]; [by destruct fuel'|].
    destruct fuel' as [|fuel']; [cbn in Hlen'; lia|]. cbn [scan].
    destruct (matchToken (String c r)) as [[e rest]|] eqn:Hm.
    + pose proof (matchToken_shorter _ _ _ Hm) as Hshort. cbn in Hshort, Hlen, Hlen'.
      f_equal. apply IH; lia.
    + cbn in Hlen, Hlen'. f_equal. apply IH; lia.
Qed.

(** ** The resolver and the evaluator *)

Section Resolver.
Context `{Host}.

(** A name of the user context resolves to its inferred value, whatever
    the system variables are. *)
Lemma resolve_user context system name value :
  context !! name = Some value ->
  resolve (VariableResolver_new context system) name
  = inr (Some (resolveUserVariable value)).
Proof. intros Hc. unfold resolve. cbn [userContext VariableResolver_new]. by rewrite Hc. Qed.

(** A name outside the user context, other than DATE, is not found. *)
Lemma resolve_other context system name :
  context !! name = None -> name <> "DATE" ->
  resolve (VariableResolver_new context system) name = inr None.
Proof.
  intros Hc Hne. unfold resolve. cbn [userContext VariableResolver_new]. rewrite Hc.
  case_match; [|done]. unfold resolveSystemVariable.
  by destruct (String.eqb_spec name "DATE").
Qed.

Lemma evaluate_user context system name value :
  context !! name = Some value ->
  evaluate (var_ref name) context system
  = inr (renderValue (resolveUserVariable value)).
Proof.
  intros Hc. unfold evaluate. cbn [Evaluator_evaluate]. unfold evaluateVarRef.
  rewrite (resolve_user _ _ _ _ Hc). by destruct (resolveUserVariable value).
Qed.

Lemma evaluate_other context system name :
  context !! name = None -> name <> "DATE" ->
  evaluate (var_ref name) context system
  = inl (mkEvaluationError "UNDEFINED_VARIABLE"
           ("Variable '" ++ name ++ "' is not defined") name).
Proof.
  intros Hc Hne. unfold evaluate. cbn [Evaluator_evaluate]. unfold evaluateVarRef.
  by rewrite (resolve_other _ _ _ Hc Hne).
Qed.
End Resolver.

(** ** Text processing *)

Section Engine.
Context `{Host}.
Variable engine : ExpressionEngine.
Variable context : VariableContext.

Lemma replacer_outcome expression :
  replacer engine context expression
  = (pieceOutput engine context (Occurrence expression),
     pieceErrors engine context (Occurrence expression)).
Proof.
  unfold replacer, pieceOutput, pieceErrors, expressionOutcome.
  destruct (parse _ _); [done|]. by destruct (evaluate _ _ _).
Qed.

Lemma fold_processPiece ps : forall acc,
  fold_left (processPiece engine context) ps acc
  = mkProcessResult
      (pr_text acc
         ++ concatStrings (map (pieceOutput engine context) ps))
      (pr_errors acc
         ++ concat (map (pieceErrors engine context) ps)).
Proof.
  induction ps as [|p ps IH]; intros [t e].
  - cbn. by rewrite append_nil_r, app_nil_r.
  - cbn [fold_left]. rewrite IH. destruct p as [c|expression].
    + cbn. by rewrite append_assoc.
    + unfold processPiece. rewrite replacer_outcome.
      cbn [pr_text pr_errors map concat concatStrings fold_right].
      by rewrite append_assoc, <- app_assoc.
Qed.

Lemma processText_pieces text :
  processText engine text context
  = mkProcessResult
      (concatStrings (map (pieceOutput engine context) (pieces text)))
      (concat (map (pieceErrors engine context) (pieces text))).
Proof. unfold processText. by rewrite fold_processPiece. Qed.

Lemma no_occurrences ps :
  matchedTexts ps = [] ->
  map (pieceOutput engine context) ps = map pieceText ps /\
  concat (map (pieceErrors engine context) ps) = [].
Proof.
  induction ps as [|[c|e] ps IH]; [done| |done].
  cbn. intros Hps. destruct (IH Hps) as [-> ->]. done.
Qed.

Lemma processText_no_tokens text :
  extractExpressions text = [] ->
  processText engine text context = mkProcessResult text [].
Proof.
  intros Hno. rewrite processText_pieces.
  destruct (no_occurrences _ Hno) as [-> ->]. by rewrite pieces_text.
Qed.

Lemma parse_variable name :
  tokenize name = inr [mkToken VAR name 0; mkToken EOF "" (strlen name)] ->
  strlen name <= engine_maxExpressionLength engine ->
  parse name
    (Some {| maxExpressionLength := Some (engine_maxExpressionLength engine);
             maxIntervalAmount := Some (engine_maxIntervalAmount engine) |})
  = inr (var_ref name).
Proof.
  intros Htok Hlen. rewrite parse_within_length by done. by rewrite Htok.
Qed.

Lemma processText_valid_invalid value :
  context !! "VALID" = Some value ->
  context !! "INVALID" = None ->
  5 <= engine_maxExpressionLength engine ->
  exists error,
    processText engine "{{VALID}} and {{INVALID}}" context
    = mkProcessResult
        (renderValue (resolveUserVariable value) ++ " and {{INVALID}}")
        [error].
Proof.
  intros Hvalid Hinvalid Hlen. rewrite processText_pieces.
  replace (pieces "{{VALID}} and {{INVALID}}")
    with [Occurrence "VALID"; Literal " "; Literal "a"; Literal "n";
          Literal "d"; Literal " "; Occurrence "INVALID"] by (by vm_compute).
  cbn [map concat concatStrings fold_right pieceOutput pieceErrors].
  assert (expressionOutcome engine context "VALID"
          = inr (renderValue (resolveUserVariable value))) as ->.
  { unfold expressionOutcome. change (trim "VALID") with "VALID".
    rewrite parse_variable; [|by vm_compute|exact Hlen].
    by apply evaluate_user. }
  assert (exists error, expressionOutcome engine context "INVALID" = inl error)
    as [error ->].
  { unfold expressionOutcome. change (trim "INVALID") with "INVALID".
    destruct (Z.le_gt_cases 7 (engine_maxExpressionLength engine)) as [Hl|Hl].
    - rewrite parse_variable; [|by vm_compute|exact Hl].
      rewrite evaluate_other by done. by eexists.
    - rewrite parse_too_long
        by (change (engine_maxExpressionLength engine < 7); lia).
      by eexists. }
  exists error. reflexivity.
Qed.
End Engine.

(** * The properties of the specification *)

(** ** C1: interval arithmetic *)

(** C1, as stated, fails where the shifted date leaves the range of [Date]:
    2026-01-01 plus 100,000,000 days is the Invalid Date, not the date
    100,000,000 days later. *)
Lemma addToDate_beyond_range :
  isCalendarDate (20454 * msPerDay) /\
  @formatDate exampleHost (Some (20454 * msPerDay)) = "2026-01-01" /\
  0 < 100000000 /\
  applyInterval_spec (20454 * msPerDay) 100000000 U_days Plus = 100020454 /\
  addToDate (Some (20454 * msPerDay)) 100000000 U_days Plus = None.
Proof.
  split; [split; [reflexivity|by vm_compute]|].
  split; [by vm_compute|]. split; [lia|]. split; by vm_compute.
Qed.

(** C1 (amended): for every calendar date, every integer amount and either
    operator, provided the date reached by the shift, before and after
    clamping, is within the range of [Date]: day/days move the date by
    exactly the signed amount of days and week/weeks by seven times that,
    with no clamping; month/months shift the month field by the signed
    amount (carrying into the year) and year/years the year field, and in
    both cases the day of the month is the original one, or the last day of
    the target month when that month is shorter. *)
Theorem addToDate_shifts_and_clamps t amount unit operator :
  isCalendarDate t ->
  inDateRange (shiftedDay t amount unit operator) ->
  inDateRange (applyInterval_spec t amount unit operator) ->
  exists t',
    addToDate (Some t) amount unit operator = Some t' /\
    isCalendarDate t' /\
    let a := signedAmount amount operator in
    match unit with
    | U_day | U_days => Day t' = Day t + a
    | U_week | U_weeks => Day t' = Day t + 7 * a
    | U_month | U_months =>
        12 * YearFromTime t' + MonthFromTime t'
          = 12 * YearFromTime t + MonthFromTime t + a /\
        DateFromTime t'
          = Z.min (DateFromTime t) (DaysInMonth (YearFromTime t') (MonthFromTime t'))
    | U_year | U_years =>
        YearFromTime t' = YearFromTime t + a /\
        MonthFromTime t' = MonthFromTime t /\
        DateFromTime t'
          = Z.min (DateFromTime t) (DaysInMonth (YearFromTime t') (MonthFromTime t'))
    end.
Proof.
  intros Hc Hs Ha.
  exists (applyInterval_spec t amount unit operator * msPerDay).
  split; [by apply addToDate_spec|]. split; [by apply calendarDate_of_day|].
  destruct (MakeDay_of_fields t) as (_ & Hm & Hdt).
  cbv zeta. set (a := signedAmount amount operator).
  assert (forall y m, 0 <= m <= 11 ->
            let t' := MakeDay y m (Z.min (DateFromTime t) (DaysInMonth y m)) * msPerDay in
            YearFromTime t' = y /\ MonthFromTime t' = m /\
            DateFromTime t' = Z.min (DateFromTime t) (DaysInMonth y m)) as Hfields.
  { intros y m Hm' t'. pose proof (DaysInMonth_range y m Hm').
    apply (fields_of_MakeDay y m); [done|lia|]. subst t'. by rewrite Day_of_day. }
  destruct unit; unfold applyInterval_spec, shiftedDay, targetMonth; fold a;
    rewrite ?Day_of_day; try done.
  1-2: destruct (Hfields (YearFromTime t + (MonthFromTime t + a) / 12)
                   ((MonthFromTime t + a) mod 12)) as (-> & -> & ->);
       [pose proof (Z.mod_pos_bound (MonthFromTime t + a) 12); lia|];
       split; [|done];
       pose proof (Z.div_mod (MonthFromTime t + a) 12); lia.
  1-2: by destruct (Hfields (YearFromTime t + a) (MonthFromTime t) Hm) as (-> & -> & ->).
Qed.

(** The test of the sources: 2026-01-31 plus one month is 2026-02-28. *)
Lemma addToDate_shifts_and_clamps_witness :
  exists t',
    addToDate (Some (20484 * msPerDay)) 1 U_month Plus = Some t' /\
    isCalendarDate t' /\
    12 * YearFromTime t' + MonthFromTime t'
      = 12 * YearFromTime (20484 * msPerDay) + MonthFromTime (20484 * msPerDay) + 1 /\
    DateFromTime t'
      = Z.min (DateFromTime (20484 * msPerDay))
          (DaysInMonth (YearFromTime t') (MonthFromTime t')).
Proof.
  apply (addToDate_shifts_and_clamps (20484 * msPerDay) 1 U_month Plus).
  - split; [reflexivity|]. split; vm_compute; discriminate.
  - split; vm_compute; discriminate.
  - split; vm_compute; discriminate.
Defined.

(** ** C2: round trip *)

(** C2, as stated, fails for a calendar date whose year has five digits:
    9999-12-31 plus one day is 10000-01-01, whose text has no YYYY-MM-DD
    form and is not parsed back. *)
Lemma roundtrip_fails_year_10000 :
  @parseDate exampleHost "9999-12-31" = Some (Some (2932896 * msPerDay)) /\
  addToDate (Some (2932896 * msPerDay)) 1 U_day Plus = Some (2932897 * msPerDay) /\
  isCalendarDate (2932897 * msPerDay) /\
  @formatDate exampleHost (Some (2932897 * msPerDay)) = "10000-01-01" /\
  @parseDate exampleHost
     (@formatDate exampleHost (Some (2932897 * msPerDay))) = None.
Proof.
  split; [by vm_compute|]. split; [by vm_compute|].
  split; [split; [reflexivity|by vm_compute]|].
  split; by vm_compute.
Qed.

(** C2 (amended): for every calendar date whose year is between 1000 and
    9999, parsing the text of the date gives the date back. *)
Theorem parseDate_formatDate_roundtrip `{Host} t :
  isCalendarDate t -> 1000 <= YearFromTime t <= 9999 ->
  parseDate (formatDate (Some t)) = Some (Some t).
Proof.
  intros Hc Hy.
  destruct (formatDate_shape t Hy)
    as (y1 & y2 & y3 & y4 & m1 & m2 & d1 & d2 & Hs & Hdig & Hyv & Hmv & Hdv).
  destruct (MakeDay_of_fields t) as (Hday & Hm & Hd).
  pose proof (DaysInMonth_range (YearFromTime t) _ Hm) as Hdim.
  assert (isoDateRegex (formatDate (Some t)) = true) as Hre.
  { rewrite Hs. unfold isoDateRegex. cbn [list_ascii_of_string].
    do 7 (apply andb_prop in Hdig; destruct Hdig as [Hdig ?]).
    repeat match goal with Hx : isDigit _ = true |- _ => rewrite Hx; clear Hx end.
    reflexivity. }
  apply parseDate_plain; [done| |done].
  unfold Date_ofString, Date_parse. rewrite Hs.
  change (String y1 (String y2 (String y3 (String y4 (String "-"
            (String m1 (String m2 (String "-" (String d1 (String d2 "")))))))))
          ++ "T00:00:00.000Z")
    with (String y1 (String y2 (String y3 (String y4 (String "-"
            (String m1 (String m2 (String "-" (String d1 (String d2
               "T00:00:00.000Z")))))))))).
  cbn [substring String.length Nat.sub].
  rewrite Hs in Hre. rewrite Hre.
  replace (String.eqb "T00:00:00.000Z" "T00:00:00.000Z") with true by done.
  cbn [andb]. rewrite Hyv, Hmv, Hdv.
  replace (MonthFromTime t + 1 - 1) with (MonthFromTime t) by lia.
  replace ((1 <=? MonthFromTime t + 1) && (MonthFromTime t + 1 <=? 12)
           && (1 <=? DateFromTime t)
           && (DateFromTime t <=? (if lenientDayOfMonth then 31
                 else DaysInMonth (YearFromTime t) (MonthFromTime t))))
    with true.
  2:{ symmetry. repeat (apply andb_true_intro; split); apply Z.leb_le; try lia.
      destruct lenientDayOfMonth; lia. }
  cbn [mbind option_bind]. rewrite Hday.
  destruct Hc as [Htw Hr]. rewrite TimeClip_day by done.
  f_equal. symmetry. by apply calendarDate_eq.
Qed.

Lemma parseDate_formatDate_roundtrip_witness :
  @parseDate exampleHost (@formatDate exampleHost (Some (20500 * msPerDay)))
  = Some (Some (20500 * msPerDay)).
Proof.
  apply (@parseDate_formatDate_roundtrip exampleHost (20500 * msPerDay)).
  - split; [reflexivity|]. split; vm_compute; discriminate.
  - split; vm_compute; discriminate.
Defined.

(** ** C3: partial failure *)

(** C3: [processText] turns every piece of the text into its output and its
    errors, one piece after the other: an occurrence whose parse or
    evaluation fails stays in the output as the original token and adds
    exactly one error, the other pieces are processed all the same.  When
    VALID evaluates and INVALID does not, as when the context defines VALID
    only, the text [{{VALID}} and {{INVALID}}] becomes the value of VALID
    followed by [ and {{INVALID}}], with one error; a text without
    occurrences comes back unchanged, without errors. *)
Theorem processText_partial_failure `{Host} engine context text :
  processText engine text context
  = mkProcessResult
      (concatStrings (map (pieceOutput engine context) (pieces text)))
      (concat (map (pieceErrors engine context) (pieces text))) /\
  concatStrings (map pieceText (pieces text)) = text /\
  (forall expression e,
     expressionOutcome engine context expression = inl e ->
     replacer engine context expression = (tokenText expression, [e])) /\
  (forall expression value,
     expressionOutcome engine context expression = inr value ->
     replacer engine context expression = (value, [])) /\
  (forall value e,
     expressionOutcome engine context "VALID" = inr value ->
     expressionOutcome engine context "INVALID" = inl e ->
     processText engine "{{VALID}} and {{INVALID}}" context
     = mkProcessResult (value ++ " and {{INVALID}}") [e]) /\
  (forall value,
     context !! "VALID" = Some value ->
     context !! "INVALID" = None ->
     5 <= engine_maxExpressionLength engine ->
     evaluate (var_ref "VALID") context (Some (engine_systemVariables engine))
     = inr (renderValue (resolveUserVariable value)) /\
     exists error,
       processText engine "{{VALID}} and {{INVALID}}" context
       = mkProcessResult
           (renderValue (resolveUserVariable value) ++ " and {{INVALID}}")
           [error]) /\
  (extractExpressions text = [] ->
   processText engine text context = mkProcessResult text []).
Proof.
  split; [apply processText_pieces|]. split; [apply pieces_text|].
  split; [|split; [|split; [|split]]].
  - intros expression e He. rewrite replacer_outcome. cbn. by rewrite He.
  - intros expression value He. rewrite replacer_outcome. cbn. by rewrite He.
  - intros value e Hv Hi. rewrite processText_pieces.
    replace (pieces "{{VALID}} and {{INVALID}}")
      with [Occurrence "VALID"; Literal " "; Literal "a"; Literal "n";
            Literal "d"; Literal " "; Occurrence "INVALID"] by (by vm_compute).
    cbn [map concat concatStrings fold_right pieceOutput pieceErrors].
    rewrite Hv, Hi. reflexivity.
  - intros value Hv Hi Hlen. split; [by apply evaluate_user|].
    by apply processText_valid_invalid.
  - apply processText_no_tokens.
Qed.

(** The test of the sources: VALID is 2026-02-16. *)
Lemma processText_partial_failure_witness :
  exists error,
    @processText exampleHost defaultEngine "{{VALID}} and {{INVALID}}"
      {[ "VALID" := "2026-02-16" ]}
    = mkProcessResult "2026-02-16 and {{INVALID}}" [error].
Proof.
  destruct (@processText_partial_failure exampleHost defaultEngine
              {[ "VALID" := "2026-02-16" ]} "{{VALID}} and {{INVALID}}")
    as (_ & _ & _ & _ & _ & Hexample & _).
  destruct (Hexample "2026-02-16") as [_ [error Herror]].
  - reflexivity.
  - reflexivity.
  - vm_compute. discriminate.
  - exists error. exact Herror.
Defined.

(** ** C4: calendar-impossible dates *)

(** C4: a text in plain YYYY-MM-DD form is accepted only as the date whose
    formatted text is that very text, and is rejected when the date read
    from it prints differently; 2026-02-30 and 2026-13-01 are rejected,
    on every host. *)
Theorem parseDate_validates_by_roundtrip `{Host} value :
  isoDateRegex value = true ->
  (forall date, parseDate value = Some date -> formatDate date = value) /\
  (formatDate (Date_ofString (value ++ "T00:00:00.000Z")) <> value ->
   parseDate value = None) /\
  parseDate "2026-02-30" = None /\
  parseDate "2026-13-01" = None.
Proof.
  intros Hre. split; [|split].
  - intros date Hp. by apply parseDate_plain_inv in Hp as [? _].
  - intros Hne. unfold parseDate.
    rewrite Hre, (isoDateRegex_not_dateTime value Hre).
    destruct (negb (isInvalid _)); [|done].
    by destruct (String.eqb_spec (formatDate (Date_ofString (value ++ "T00:00:00.000Z"))) value).
  - destruct H as [N toN isN toS big parseHost lenient today].
    split; destruct lenient; by vm_compute.
Qed.

Lemma parseDate_validates_by_roundtrip_witness :
  (forall date, @parseDate exampleHost "2026-02-16" = Some date ->
                @formatDate exampleHost date = "2026-02-16") /\
  @parseDate exampleHost "2026-02-30" = None /\
  @parseDate exampleHost "2026-13-01" = None.
Proof.
  destruct (@parseDate_validates_by_roundtrip exampleHost "2026-02-16")
    as (Hacc & _ & H1 & H2).
  - reflexivity.
  - split; [exact Hacc|]. split; [exact H1|exact H2].
Defined.

(** ** C5: malformed intervals *)

(** C5, as stated, fails for an expression longer than the limit: the
    length check comes first and reports EXPRESSION_TOO_LONG.  Here the
    variable and the interval are 200 blanks apart, 209 characters in all,
    against the default limit of 200. *)
Lemma parse_too_long_before_grammar :
  let expression := "A" ++ repeatChar 200 " " ++ "+ 0 days" in
  @tokenize exampleHost expression
  = inr [mkToken VAR "A" 0; mkToken OPERATOR "+" 201; mkToken NUMBER "0" 203;
         mkToken UNIT "days" 205; mkToken EOF "" 209] /\
  operatorsWellFollowed
    [mkToken VAR "A" 0; mkToken OPERATOR "+" 201; mkToken NUMBER "0" 203;
     mkToken UNIT "days" 205; mkToken EOF "" 209] = false /\
  exists e, @parse exampleHost expression None = inl e /\
            pe_code e = "EXPRESSION_TOO_LONG".
Proof.
  split; [by vm_compute|]. split; [by vm_compute|].
  eexists (mkParseError "EXPRESSION_TOO_LONG" _ _ None).
  split; [by vm_compute|reflexivity].
Qed.

(** C5 (amended): an expression that holds a character of no token class
    (such as an operator other than + and -), or in which some operator
    token is not followed by a Number token holding a strictly positive
    integer and then a Unit token with a recognized spelling (zero amount,
    negative-looking amount, non-numeric interval, missing unit, unknown
    unit), fails to parse; the error code is PARSE_ERROR when the expression
    is within the length limit and EXPRESSION_TOO_LONG otherwise.  No
    expression parses to a tree with an amount that is not a strictly
    positive integer. *)
Theorem parse_rejects_malformed_intervals `{Host} expression options :
  anyChar unrecognized expression = true \/
  (exists tokens, tokenize expression = inr tokens /\
                  operatorsWellFollowed tokens = false) ->
  (exists e,
     parse expression options = inl e /\
     pe_code e =
       if default 200 (options ≫= maxExpressionLength) <? strlen expression
       then "EXPRESSION_TOO_LONG" else "PARSE_ERROR") /\
  (forall expression' ast,
     parse expression' options = inr ast ->
     amountsWithin (default 10000 (options ≫= maxIntervalAmount)) ast).
Proof.
  intros Hbad. split; [|intros ? ?; apply parse_inr_amounts].
  destruct (parse_malformed_fails expression options Hbad) as [e He].
  exists e. split; [done|].
  destruct (Z.ltb_spec (default 200 (options ≫= maxExpressionLength))
              (strlen expression)) as [Hlong|Hshort].
  - rewrite parse_too_long in He by done. by injection He as <-.
  - by eapply parse_inl_code.
Qed.

(** The test of the sources: a negative-looking amount. *)
Lemma parse_rejects_malformed_intervals_witness :
  exists e, @parse exampleHost "MY_DATE + -5 days" None = inl e /\
            pe_code e = "PARSE_ERROR".
Proof.
  destruct (@parse_rejects_malformed_intervals exampleHost "MY_DATE + -5 days" None)
    as [He _].
  - right.
    exists [mkToken VAR "MY_DATE" 0; mkToken OPERATOR "+" 8; mkToken OPERATOR "-" 10;
            mkToken NUMBER "5" 11; mkToken UNIT "days" 13; mkToken EOF "" 17].
    split; vm_compute; reflexivity.
  - exact He.
Defined.

(** ** C6: limits *)




(** ** C7: user values shadow system values *)

(** C7: a name present in the user context and among the system variables
    resolves to the value inferred from the user entry, the same whatever
    the system variables are; the inference takes a value that parses as a
    date for a date, else a value whose trimmed text is not empty and that
    converts to a Number other than NaN for a number, else for a string. *)
Theorem resolve_user_shadows_system `{Host} context system name value entry :
  context !! name = Some value ->
  (default ∅ system ∪ DEFAULT_SYSTEM_VARIABLES) !! name = Some entry ->
  resolve (VariableResolver_new context system) name
  = inr (Some (resolveUserVariable value)) /\
  (forall system',
     resolve (VariableResolver_new context system') name
     = resolve (VariableResolver_new context system) name) /\
  (forall date, parseDate value = Some date ->
                resolveUserVariable value = V_date date) /\
  (parseDate value = None ->
   trim value <> "" -> Number_isNaN (ToNumber value) = false ->
   resolveUserVariable value = V_number (ToNumber value)) /\
  (parseDate value = None ->
   trim value = "" \/ Number_isNaN (ToNumber value) = true ->
   resolveUserVariable value = V_string value).
Proof.
  intros Hc _. split; [by apply resolve_user|]. split.
  { intros system'. by rewrite !(resolve_user _ _ _ _ Hc). }
  unfold resolveUserVariable. split; [by intros date ->|]. split.
  - intros -> Ht Hn. rewrite Hn. by destruct (String.eqb_spec (trim value) "").
  - intros -> [Ht|Hn].
    + rewrite Ht. by rewrite andb_false_r.
    + by rewrite Hn.
Qed.

(** The test of the sources: DATE given by the user. *)
Lemma resolve_user_shadows_system_witness :
  @resolve exampleHost (@VariableResolver_new exampleHost {[ "DATE" := "2025-01-01" ]} None)
    "DATE"
  = inr (Some (@V_date exampleHost (Some (20089 * msPerDay)))).
Proof.
  destruct (@resolve_user_shadows_system exampleHost {[ "DATE" := "2025-01-01" ]} None
              "DATE" "2025-01-01" (Provider (@getCurrentDate exampleHost)))
    as (Hr & _ & Hd & _).
  - reflexivity.
  - reflexivity.
  - rewrite Hr. rewrite (Hd (Some (20089 * msPerDay))); [reflexivity|by vm_compute].
Defined.

(** ** C8: the formatted text *)

(** C8 fails on the code for a year below 1000: the year is printed without
    padding, so 0999-01-01 is formatted as [999-01-01] (and the plain text
    [0999-01-01] is then rejected by [parseDate]); 2026-01-01 minus 1100
    years is substituted as [926-01-01]. *)
Theorem formatDate_year_not_padded `{Host} :
  isCalendarDate (-354650 * msPerDay) /\
  parseDate "0999-01-01T00:00:00.000Z" = Some (Some (-354650 * msPerDay)) /\
  formatDate (Some (-354650 * msPerDay)) = "999-01-01" /\
  parseDate "0999-01-01" = None /\
  processText defaultEngine "{{D - 1100 years}}" {[ "D" := "2026-01-01" ]}
  = mkProcessResult "926-01-01" [].
Proof.
  split; [split; [reflexivity|by vm_compute]|].
  destruct H as [N toN isN toS big parseHost lenient today].
  destruct lenient; repeat split; by vm_compute.
Qed.

(** ** C9: which occurrences are found *)




(** ** C10: system variables other than DATE *)



(** * Further properties of the code *)

(** ** Decimal numerals *)

Lemma list_ascii_of_string_app (a b : string) :
  list_ascii_of_string (a ++ b) = (list_ascii_of_string a ++ list_ascii_of_string b)%list.
Proof. induction a as [|c a IH]; [done|]. cbn. by rewrite IH. Qed.

Lemma digitsValue_snoc s c :
  digitsValue (s ++ String c "") = 10 * digitsValue s + digitValue c.
Proof.
  unfold digitsValue. rewrite list_ascii_of_string_app, fold_left_app. done.
Qed.

Lemma digitsValue_fold l : forall a,
  fold_left (fun acc c => 10 * acc + digitValue c) l a
  = a * 10 ^ Z.of_nat (length l)
    + fold_left (fun acc c => 10 * acc + digitValue c) l 0.
Proof.
  induction l as [|c l IH]; intros a; [cbn; lia|].
  cbn [fold_left length]. rewrite IH, (IH (10 * 0 + digitValue c)).
  rewrite Nat2Z.inj_succ, Z.pow_succ_r by lia. lia.
Qed.

Lemma length_list_ascii_of_string s :
  length (list_ascii_of_string s) = String.length s.
Proof. induction s as [|c s IH]; [done|]. cbn. by rewrite IH. Qed.

Lemma digitsValue_cons c s :
  digitsValue (String c s) = digitValue c * 10 ^ strlen s + digitsValue s.
Proof.
  unfold digitsValue, strlen. cbn [list_ascii_of_string fold_left].
  rewrite digitsValue_fold, length_list_ascii_of_string. lia.
Qed.

Lemma isDigit_digitValue c : isDigit c = true -> 0 <= digitValue c <= 9.
Proof. unfold isDigit, digitValue. lia. Qed.

Lemma digitValue_inj a b : digitValue a = digitValue b -> a = b.
Proof.
  unfold digitValue, charCode. intros Heq.
  rewrite <- (ascii_N_embedding a), <- (ascii_N_embedding b). f_equal. lia.
Qed.

Lemma digitChar_digit k :
  0 <= k <= 9 -> isDigit (digitChar k) = true /\ digitValue (digitChar k) = k.
Proof.
  intros Hk.
  assert (k = 0 \/ k = 1 \/ k = 2 \/ k = 3 \/ k = 4 \/ k = 5 \/ k = 6 \/ k = 7 \/
          k = 8 \/ k = 9) as Hc by lia.
  repeat (destruct Hc as [Hc|Hc]); subst k; by vm_compute.
Qed.

(** A run of digits reads as a number below the power of ten of its
    length. *)
Lemma digitsValue_range s :
  anyChar (fun c => negb (isDigit c)) s = false ->
  0 <= digitsValue s < 10 ^ strlen s.
Proof.
  induction s as [|c s IH]; [by vm_compute|].
  cbn [anyChar]. intros [Hc Hs]%orb_false_elim. apply negb_false_iff in Hc.
  specialize (IH Hs). rewrite digitsValue_cons.
  pose proof (isDigit_digitValue c Hc).
  unfold strlen in *. cbn [String.length].
  rewrite Nat2Z.inj_succ, Z.pow_succ_r by lia. nia.
Qed.

(** Runs of digits of the same length that read as the same number are the
    same. *)
Lemma digitsValue_inj s1 : forall s2,
  anyChar (fun c => negb (isDigit c)) s1 = false ->
  anyChar (fun c => negb (isDigit c)) s2 = false ->
  String.length s1 = String.length s2 ->
  digitsValue s1 = digitsValue s2 -> s1 = s2.
Proof.
  induction s1 as [|c1 s1 IH]; intros [|c2 s2] H1 H2 Hlen Hv; try done.
  cbn [anyChar] in H1, H2.
  apply orb_false_elim in H1 as [Hc1 H1]. apply orb_false_elim in H2 as [Hc2 H2].
  apply negb_false_iff in Hc1, Hc2.
  injection Hlen as Hlen. rewrite !digitsValue_cons in Hv.
  pose proof (digitsValue_range s1 H1). pose proof (digitsValue_range s2 H2).
  pose proof (isDigit_digitValue c1 Hc1). pose proof (isDigit_digitValue c2 Hc2).
  unfold strlen in *. rewrite Hlen in *.
  assert (digitValue c1 = digitValue c2) as Hc by nia.
  rewrite (digitValue_inj c1 c2 Hc) in *.
  f_equal. apply IH; try done. lia.
Qed.

Lemma anyChar_app q a b : anyChar q (a ++ b) = anyChar q a || anyChar q b.
Proof. induction a as [|c a IH]; [done|]. cbn. by rewrite IH, orb_assoc. Qed.

(** The loop of [decimal] with enough rounds: the digits of [n], most
    significant first and without a leading zero, put before [acc]. *)
Lemma decimalDigits_spec fuel : forall n acc,
  0 <= n < 10 ^ Z.of_nat (S fuel) ->
  exists ds,
    decimalDigits (S fuel) n acc = ds ++ acc /\
    ds <> "" /\
    anyChar (fun c => negb (isDigit c)) ds = false /\
    digitsValue ds = n /\
    (0 < n -> 10 ^ (strlen ds - 1) <= n).
Proof.
  induction fuel as [|fuel IH]; intros n acc Hn.
  - exists (String (digitChar n) "").
    change (10 ^ Z.of_nat 1) with 10 in Hn.
    destruct (digitChar_digit n ltac:(lia)) as [Hd Hv].
    cbn [decimalDigits]. split; [by destruct (n <? 10); rewrite Z.mod_small by lia|].
    split; [done|]. cbn [anyChar]. rewrite Hd.
    split; [done|]. split; [|intros; change (strlen (String (digitChar n) "") - 1) with 0; lia].
    rewrite digitsValue_cons, Hv. change (strlen "") with 0. change (digitsValue "") with 0. lia.
  - cbn [decimalDigits] in *.
    pose proof (Z.mod_pos_bound n 10 ltac:(lia)) as Hmod.
    destruct (digitChar_digit (n mod 10) ltac:(lia)) as [Hd Hv].
    destruct (Z.ltb_spec n 10) as [Hlt|Hge].
    + exists (String (digitChar (n mod 10)) "").
      split; [done|]. split; [done|]. cbn [anyChar]. rewrite Hd.
      split; [done|]. rewrite digitsValue_cons, Hv.
      change (strlen "") with 0. change (digitsValue "") with 0.
      rewrite Z.mod_small by lia.
      split; [lia|]. intros. change (strlen (String (digitChar n) "") - 1) with 0. lia.
    + destruct (IH (n / 10) (String (digitChar (n mod 10)) acc))
        as (ds & Heq & Hne & Hds & Hval & Hlow).
      { split; [zdiv|].
        apply Z.div_lt_upper_bound; [lia|].
        rewrite (Nat2Z.inj_succ (S fuel)), Z.pow_succ_r in Hn by lia. lia. }
      exists (ds ++ String (digitChar (n mod 10)) "").
      split; [by rewrite append_assoc|].
      split; [by destruct ds|].
      split; [rewrite anyChar_app; cbn [anyChar]; by rewrite Hds, Hd|].
      split; [rewrite digitsValue_snoc, Hval, Hv; pose proof (Z.div_mod n 10); lia|].
      intros _. unfold strlen in *. rewrite append_length. cbn [String.length].
      assert (0 < n / 10) as Hpos by zdiv.
      specialize (Hlow Hpos).
      assert (String.length ds <> 0%nat) by (by destruct ds).
      replace (Z.of_nat (String.length ds + 1) - 1)
        with (Z.succ (Z.of_nat (String.length ds) - 1)) by lia.
      rewrite Z.pow_succ_r by lia.
      pose proof (Z.div_mod n 10). lia.
Qed.

(** The numeral of a natural number: one or more digits that read back as
    the number, with no leading zero. *)
Lemma decimal_spec n :
  0 <= n ->
  decimal n <> "" /\
  anyChar (fun c => negb (isDigit c)) (decimal n) = false /\
  digitsValue (decimal n) = n /\
  (0 < n -> 10 ^ (strlen (decimal n) - 1) <= n).
Proof.
  intros Hn. unfold decimal.
  destruct (decimalDigits_spec (Z.to_nat (Z.log2 n)) n "") as (ds & -> & H1 & H2 & H3 & H4).
  - split; [done|].
    destruct (Z.eq_dec n 0) as [->|Hne]; [by vm_compute|].
    pose proof (Z.log2_spec n ltac:(lia)) as [_ Hlog].
    pose proof (Z.log2_nonneg n).
    rewrite Nat2Z.inj_succ, Z2Nat.id by done.
    eapply Z.lt_le_trans; [exact Hlog|].
    apply Z.pow_le_mono_l. lia.
  - by rewrite append_nil_r.
Qed.

(** ** Plain dates *)

Lemma isoDateRegex_inv value :
  isoDateRegex value = true ->
  exists y1 y2 y3 y4 m1 m2 d1 d2,
    value = String y1 (String y2 (String y3 (String y4 (String "-"
              (String m1 (String m2 (String "-" (String d1 (String d2 ""))))))))) /\
    anyChar (fun c => negb (isDigit c)) (String y1 (String y2 (String y3 (String y4 ""))))
      = false /\
    anyChar (fun c => negb (isDigit c)) (String m1 (String m2 "")) = false /\
    anyChar (fun c => negb (isDigit c)) (String d1 (String d2 "")) = false.
Proof.
  unfold isoDateRegex.
  destruct value as [|y1 [|y2 [|y3 [|y4 [|h1 [|m1 [|m2 [|h2 [|d1 [|d2 [|]]]]]]]]]]];
    cbn [list_ascii_of_string]; try done.
  intros Hre. do 9 (apply andb_prop in Hre; destruct Hre as [Hre ?]).
  repeat match goal with
         | Hx : Ascii.eqb _ _ = true |- _ => apply Ascii.eqb_eq in Hx; subst
         end.
  exists y1, y2, y3, y4, m1, m2, d1, d2. split; [done|].
  cbn [anyChar].
  repeat match goal with Hx : isDigit _ = true |- _ => rewrite Hx; clear Hx end.
  done.
Qed.

Lemma append_inj_r (a c b d : string) :
  String.length b = String.length d -> a ++ b = c ++ d -> a = c /\ b = d.
Proof.
  intros Hlen. revert c. induction a as [|x a IH]; intros [|z c] Heq.
  - done.
  - apply (f_equal String.length) in Heq. cbn in Heq. rewrite append_length in Heq. lia.
  - apply (f_equal String.length) in Heq. cbn in Heq. rewrite append_length in Heq. lia.
  - cbn in Heq. injection Heq as -> Heq. destruct (IH c Heq) as [-> ->]. done.
Qed.

Lemma year_in_range y m dt :
  0 <= y <= 9999 -> 0 <= m <= 11 -> 1 <= dt <= 31 -> inDateRange (MakeDay y m dt).
Proof.
  intros Hy Hm Hd. rewrite MakeDay_normal by done.
  assert (0 <= monthStart (leapDay y) m <= 335) as Hs
    by (destruct (leapDay_cases y) as [[-> _]|[-> _]]; month_cases m Hc; cbn; lia).
  unfold inDateRange, DayFromYear. zdiv.
Qed.

Section PlainDates.
Context `{Host}.

Lemma formatDate_fields t :
  0 <= YearFromTime t <= 9999 ->
  exists m1 m2 d1 d2,
    formatDate (Some t)
    = decimal (YearFromTime t)
        ++ String "-" (String m1 (String m2 (String "-" (String d1 (String d2 ""))))) /\
    anyChar (fun c => negb (isDigit c)) (String m1 (String m2 "")) = false /\
    anyChar (fun c => negb (isDigit c)) (String d1 (String d2 "")) = false /\
    digitsValue (String m1 (String m2 "")) = MonthFromTime t + 1 /\
    digitsValue (String d1 (String d2 "")) = DateFromTime t.
Proof.
  intros Hy.
  destruct (MakeDay_of_fields t) as (_ & Hm & Hd).
  pose proof (DaysInMonth_range (YearFromTime t) _ Hm) as Hdim.
  unfold formatDate. date_getters. unfold NumberToString.
  rewrite !IntegerToString_small by lia.
  pose proof (twoDigits_field (MonthFromTime t + 1) ltac:(lia)) as Hm2.
  pose proof (twoDigits_field (DateFromTime t) ltac:(lia)) as Hd2.
  unfold twoDigits in Hm2, Hd2.
  destruct (padStart 2 "0" (decimal (MonthFromTime t + 1))) as [|m1 [|m2 [|]]]; try done.
  destruct (padStart 2 "0" (decimal (DateFromTime t))) as [|d1 [|d2 [|]]]; try done.
  exists m1, m2, d1, d2.
  repeat match goal with
         | Hx : _ && _ = true |- _ => apply andb_prop in Hx; destruct Hx
         | Hx : (_ =? _) = true |- _ => apply Z.eqb_eq in Hx
         end.
  split; [done|]. cbn [anyChar].
  repeat match goal with Hx : isDigit _ = true |- _ => rewrite Hx; clear Hx end.
  done.
Qed.

Lemma Date_ofString_plain value :
  isoDateRegex value = true ->
  Date_ofString (value ++ "T00:00:00.000Z")
  = if (1 <=? monthField value) && (monthField value <=? 12)
       && (1 <=? dayField value)
       && (dayField value <=? (if lenientDayOfMonth then 31
             else DaysInMonth (yearField value) (monthField value - 1)))
    then TimeClip (MakeDate (MakeDay (yearField value) (monthField value - 1)
                               (dayField value)) 0)
    else None.
Proof.
  intros Hre.
  destruct (isoDateRegex_inv value Hre)
    as (y1 & y2 & y3 & y4 & m1 & m2 & d1 & d2 & -> & _).
  unfold Date_ofString, Date_parse, yearField, monthField, dayField.
  change (String y1 (String y2 (String y3 (String y4 (String "-"
            (String m1 (String m2 (String "-" (String d1 (String d2 "")))))))))
          ++ "T00:00:00.000Z")
    with (String y1 (String y2 (String y3 (String y4 (String "-"
            (String m1 (String m2 (String "-" (String d1 (String d2
               "T00:00:00.000Z")))))))))).
  cbn [substring String.length Nat.sub].
  rewrite Hre.
  replace (String.eqb "T00:00:00.000Z" "T00:00:00.000Z") with true by done.
  cbn [andb]. by case_match.
Qed.
End PlainDates.

(** X1: a text in plain YYYY-MM-DD form is accepted exactly when its year
    is at least 1000, its month is 1 to 12 and its day exists in that month
    of that year; the date returned is then midnight UTC of that day.  This
    holds on every host, whether its [Date.parse] rolls a day beyond the
    month over or rejects it. *)
Theorem parseDate_plain_rule `{Host} value :
  isoDateRegex value = true ->
  parseDate value =
    if (1000 <=? yearField value)
       && (1 <=? monthField value) && (monthField value <=? 12)
       && (1 <=? dayField value)
       && (dayField value <=? DaysInMonth (yearField value) (monthField value - 1))
    then Some (Some (MakeDay (yearField value) (monthField value - 1) (dayField value)
                       * msPerDay))
    else None.
Proof.
  intros Hre.
  pose proof (Date_ofString_plain value Hre) as Hof.
  unfold parseDate. rewrite Hre, (isoDateRegex_not_dateTime value Hre), Hof.
  destruct (isoDateRegex_inv value Hre)
    as (y1 & y2 & y3 & y4 & m1 & m2 & d1 & d2 & Hvalue & Hyd & Hmd & Hdd).
  assert (yearField value = digitsValue (String y1 (String y2 (String y3 (String y4 "")))))
    as Hyf by (by rewrite Hvalue).
  assert (monthField value = digitsValue (String m1 (String m2 ""))) as Hmf
    by (by rewrite Hvalue).
  assert (dayField value = digitsValue (String d1 (String d2 ""))) as Hdf
    by (by rewrite Hvalue).
  pose proof (digitsValue_range _ Hyd) as Hy. rewrite <- Hyf in Hy.
  pose proof (digitsValue_range _ Hmd) as Hm. rewrite <- Hmf in Hm.
  pose proof (digitsValue_range _ Hdd) as Hd. rewrite <- Hdf in Hd.
  change (10 ^ strlen _) with 10000 in Hy.
  change (10 ^ strlen _) with 100 in Hm. change (10 ^ strlen _) with 100 in Hd.
  set (y := yearField value) in *. set (m := monthField value) in *.
  set (d := dayField value) in *.
  destruct (Z.leb_spec 1 m) as [Hm1|Hm1]; cbn [andb];
    [|by rewrite andb_false_r].
  destruct (Z.leb_spec m 12) as [Hm12|Hm12]; cbn [andb];
    [|by rewrite andb_false_r].
  destruct (Z.leb_spec 1 d) as [Hd1|Hd1]; cbn [andb];
    [|by rewrite andb_false_r].
  pose proof (DaysInMonth_range y (m - 1) ltac:(lia)) as Hdim.
  destruct (Z.leb_spec d (if lenientDayOfMonth then 31 else DaysInMonth y (m - 1)))
    as [Hdmax|Hdmax].
  2:{ cbn [isInvalid getTime negb].
      destruct (Z.leb_spec d (DaysInMonth y (m - 1))); [|by rewrite andb_false_r].
      destruct lenientDayOfMonth; lia. }
  assert (d <= 31) as Hd31 by (destruct lenientDayOfMonth; lia).
  rewrite TimeClip_day by (apply year_in_range; lia).
  cbn [isInvalid getTime negb].
  set (t := MakeDay y (m - 1) d * msPerDay).
  destruct (Z.leb_spec d (DaysInMonth y (m - 1))) as [Hin|Hout].
  - (* the day exists: the date prints as its fields *)
    destruct (fields_of_MakeDay y (m - 1) d t) as (Hfy & Hfm & Hfd);
      [lia|lia|by subst t; rewrite Day_of_day|].
    destruct (formatDate_fields t) as (m1' & m2' & d1' & d2' & Hf & Hmd' & Hdd' & Hmv & Hdv);
      [lia|].
    rewrite Hfy, Hfm, Hfd in *.
    assert (String m1' (String m2' "") = String m1 (String m2 "")) as Hmeq
      by (apply digitsValue_inj; try done; lia).
    assert (String d1' (String d2' "") = String d1 (String d2 "")) as Hdeq
      by (apply digitsValue_inj; try done; lia).
    injection Hmeq as -> ->. injection Hdeq as -> ->.
    rewrite Hf.
    destruct (Z.leb_spec 1000 y) as [Hbig|Hsmall]; cbn [andb].
    + destruct (decimal_spec y ltac:(lia)) as (_ & Hdec & Hval & _).
      pose proof (fourDigits_year y ltac:(lia)) as H4. unfold fourDigits in H4.
      assert (decimal y = String y1 (String y2 (String y3 (String y4 "")))) as ->.
      { apply digitsValue_inj; try done; [|lia].
        by destruct (decimal y) as [|? [|? [|? [|? [|]]]]]. }
      rewrite Hvalue. cbn [String.append]. by rewrite String.eqb_refl.
    + destruct (String.eqb_spec
                  (decimal y ++ String "-" (String m1 (String m2
                     (String "-" (String d1 (String d2 "")))))) value) as [Heq|]; [|done].
      exfalso. rewrite Hvalue in Heq.
      change (String y1 (String y2 (String y3 (String y4 (String "-"
                (String m1 (String m2 (String "-" (String d1 (String d2 ""))))))))))
        with (String y1 (String y2 (String y3 (String y4 ""))) ++
              String "-" (String m1 (String m2 (String "-" (String d1 (String d2 ""))))))
        in Heq.
      apply append_inj_r in Heq as [Heq _]; [|done].
      destruct (decimal_spec y ltac:(lia)) as (_ & _ & _ & Hlow).
      rewrite Heq in Hlow. change (10 ^ (strlen _ - 1)) with 1000 in Hlow.
      destruct (Z.eq_dec y 0) as [Hy0|]; [|lia].
      rewrite Hy0 in Heq. vm_compute in Heq. discriminate.
  - (* the day is beyond the month: the date rolled over prints otherwise *)
    rewrite andb_false_r.
    assert (m <= 11) as Hm11.
    { destruct (Z.eq_dec m 12) as [Hm'|]; [|lia].
      assert (DaysInMonth y 11 = 31) as H31
        by (unfold DaysInMonth; change (11 + 1) with 12; cbn [monthStart]; lia).
      rewrite Hm' in Hout. change (12 - 1) with 11 in Hout. lia. }
    set (k := d - DaysInMonth y (m - 1)).
    pose proof (DaysInMonth_range y m ltac:(lia)) as Hdim'.
    assert (MakeDay y (m - 1) d = MakeDay y m k) as Hroll.
    { replace d with (DaysInMonth y (m - 1) + k) by lia.
      rewrite MakeDay_next_month by lia. f_equal. lia. }
    destruct (fields_of_MakeDay y m k t) as (Hfy & Hfm & Hfd);
      [lia|lia|by subst t; rewrite Day_of_day|].
    destruct (formatDate_fields t) as (m1' & m2' & d1' & d2' & Hf & Hmd' & Hdd' & Hmv & Hdv);
      [lia|].
    destruct (String.eqb_spec (formatDate (Some t)) value) as [Heq|]; [|done].
    exfalso. rewrite Hf, Hvalue in Heq.
    change (String y1 (String y2 (String y3 (String y4 (String "-"
              (String m1 (String m2 (String "-" (String d1 (String d2 ""))))))))))
      with (String y1 (String y2 (String y3 (String y4 (String "-"
              (String m1 (String m2 (String "-" ""))))))) ++ String d1 (String d2 ""))
      in Heq.
    change (String "-" (String m1' (String m2' (String "-" (String d1' (String d2' ""))))))
      with (String "-" (String m1' (String m2' (String "-" ""))) ++ String d1' (String d2' ""))
      in Heq.
    rewrite <- append_assoc in Heq.
    apply append_inj_r in Heq as [_ Heq]; [|done].
    rewrite Heq in Hdv. lia.
Qed.

(** The leap day of 2024. *)
Lemma parseDate_plain_rule_witness :
  @parseDate exampleHost "2024-02-29" = Some (Some (19782 * msPerDay)).
Proof.
  rewrite (@parseDate_plain_rule exampleHost "2024-02-29"); reflexivity.
Defined.

(** ** Texts of dates *)

(** X2: [formatDate] prints the UTC day of a time value and drops the time
    of day: for a year from 1000 to 9999 the text has the plain YYYY-MM-DD
    form and spells the year, the month counted from 1 and the day of the
    month, and it is the text of midnight of the same day. *)
Theorem formatDate_plain_text `{Host} t :
  1000 <= YearFromTime t <= 9999 ->
  isoDateRegex (formatDate (Some t)) = true /\
  yearField (formatDate (Some t)) = YearFromTime t /\
  monthField (formatDate (Some t)) = MonthFromTime t + 1 /\
  dayField (formatDate (Some t)) = DateFromTime t /\
  formatDate (Some t) = formatDate (Some (Day t * msPerDay)).
Proof.
  intros Hy.
  destruct (formatDate_shape t Hy)
    as (y1 & y2 & y3 & y4 & m1 & m2 & d1 & d2 & Hs & Hdig & Hyv & Hmv & Hdv).
  split; [|split; [|split; [|split]]].
  - rewrite Hs. unfold isoDateRegex. cbn [list_ascii_of_string].
    do 7 (apply andb_prop in Hdig; destruct Hdig as [Hdig ?]).
    repeat match goal with Hx : isDigit _ = true |- _ => rewrite Hx; clear Hx end.
    reflexivity.
  - by rewrite Hs.
  - by rewrite Hs.
  - by rewrite Hs.
  - unfold formatDate, getUTCFullYear, getUTCMonth, getUTCDate.
    cbn [fmap option_fmap option_map].
    unfold MonthFromTime, DateFromTime, MonthFromTime, InLeapYear, DayWithinYear,
      YearFromTime.
    by rewrite !Day_of_day.
Qed.

(** 2026-02-16 at 13:45 UTC. *)
Lemma formatDate_plain_text_witness :
  @formatDate exampleHost (Some (20500 * msPerDay + 49500000))
  = @formatDate exampleHost (Some (20500 * msPerDay)).
Proof.
  destruct (@formatDate_plain_text exampleHost (20500 * msPerDay + 49500000))
    as (_ & _ & _ & _ & Hsame).
  - split; vm_compute; discriminate.
  - exact Hsame.
Defined.

(** X3: [parseDate] never returns the Invalid Date: a date it returns
    holds a time value within the range of [Date]; and it returns null for
    every text that has neither the plain form nor the form of a date
    followed by [T]. *)
Theorem parseDate_never_invalid `{Host} value :
  (forall date, parseDate value = Some date ->
     exists t, date = Some t /\ - maxTime <= t <= maxTime) /\
  (isoDateRegex value = false -> isoDateTimeRegex value = false ->
   parseDate value = None).
Proof.
  assert (forall s t, Date_ofString s = Some t -> - maxTime <= t <= maxTime) as Hclip.
  { intros s t. unfold Date_ofString. destruct (Date_parse s) as [t'|]; [|done].
    cbn [mbind option_bind]. unfold TimeClip.
    destruct (Z.leb_spec (Z.abs t') maxTime); [|done]. intros [= <-]. lia. }
  split.
  - intros date. unfold parseDate.
    destruct (isoDateRegex value).
    + destruct (Date_ofString (value ++ "T00:00:00.000Z")) as [t|] eqn:Hplain.
      * cbn [isInvalid getTime negb].
        destruct (String.eqb (formatDate (Some t)) value).
        { intros [= <-]. exists t. split; [done|]. by eapply Hclip. }
        destruct (isoDateTimeRegex value); [|done].
        destruct (Date_ofString value) as [t'|] eqn:Hfull; [|done].
        cbn [isInvalid getTime negb]. intros [= <-]. exists t'.
        split; [done|]. by eapply Hclip.
      * cbn [isInvalid getTime negb].
        destruct (isoDateTimeRegex value); [|done].
        destruct (Date_ofString value) as [t'|] eqn:Hfull; [|done].
        cbn [isInvalid getTime negb]. intros [= <-]. exists t'.
        split; [done|]. by eapply Hclip.
    + destruct (isoDateTimeRegex value); [|done].
      destruct (Date_ofString value) as [t'|] eqn:Hfull; [|done].
      cbn [isInvalid getTime negb]. intros [= <-]. exists t'.
      split; [done|]. by eapply Hclip.
  - intros Hp Hf. unfold parseDate. by rewrite Hp, Hf.
Qed.

(** The test of the sources: a text that is no date. *)
Lemma parseDate_never_invalid_witness :
  @parseDate exampleHost "invalid" = None.
Proof.
  destruct (@parseDate_never_invalid exampleHost "invalid") as [_ Hnone].
  apply Hnone; reflexivity.
Defined.

(** ** Dates out of range *)

(** The clamp to the end of the month stays within the range of dates: the
    first day of the range is the 20th of its month. *)
Lemma clamp_in_range y m dt :
  0 <= m <= 11 -> 1 <= dt <= 31 ->
  inDateRange (MakeDay y m dt) ->
  inDateRange (MakeDay y m (Z.min dt (DaysInMonth y m))).
Proof.
  intros Hm Hdt Hr.
  pose proof (DaysInMonth_range y m Hm) as Hdim.
  destruct (Z.le_gt_cases dt (DaysInMonth y m)) as [Hle|Hgt];
    [by rewrite Z.min_l|rewrite Z.min_r by lia].
  assert (MakeDay y m dt = MakeDay y m (DaysInMonth y m) + (dt - DaysInMonth y m)) as Hshift
    by (rewrite <- MakeDay_date_shift; f_equal; lia).
  destruct Hr as [Hlo Hhi]. split; [|lia].
  destruct (Z.le_gt_cases (-100000000) (MakeDay y m (DaysInMonth y m))) as [|Hbelow];
    [done|exfalso].
  set (j := -100000000 - MakeDay y m (DaysInMonth y m)).
  assert (1 <= j <= 3) as Hj by lia.
  assert (-100000000 = MakeDay (y + (m + 1) / 12) ((m + 1) mod 12) j) as Hfirst.
  { rewrite <- MakeDay_carry, <- MakeDay_next_month, MakeDay_date_shift by done. lia. }
  assert (0 <= (m + 1) mod 12 <= 11) as Hm'
    by (pose proof (Z.mod_pos_bound (m + 1) 12); lia).
  pose proof (DaysInMonth_range (y + (m + 1) / 12) ((m + 1) mod 12) Hm').
  destruct (fields_of_MakeDay (y + (m + 1) / 12) ((m + 1) mod 12) j
              (-100000000 * msPerDay) Hm') as (_ & _ & Hd);
    [lia|by rewrite Day_of_day|].
  assert (DateFromTime (-100000000 * msPerDay) = 20) as H20 by (by vm_compute).
  lia.
Qed.

Lemma clamped_in_range t amount unit operator :
  inDateRange (shiftedDay t amount unit operator) ->
  inDateRange (applyInterval_spec t amount unit operator).
Proof.
  destruct (MakeDay_of_fields t) as (_ & Hm & Hdt).
  pose proof (DaysInMonth_range (YearFromTime t) _ Hm) as Hdim.
  unfold applyInterval_spec, shiftedDay, targetMonth.
  destruct unit; try done; apply clamp_in_range; try lia.
  all: pose proof (Z.mod_pos_bound
         (MonthFromTime t + signedAmount amount operator) 12); lia.
Qed.

(** Out of the range, the setters return the Invalid Date. *)
Lemma addToDate_out_of_range t amount unit operator :
  isCalendarDate t ->
  ~ inDateRange (shiftedDay t amount unit operator) ->
  addToDate (Some t) amount unit operator = None.
Proof.
  intros Hc Hout.
  assert (amount * (match operator with Plus => 1 | Minus => -1 end)
          = signedAmount amount operator) as Hsign
    by (destruct operator; cbn [signedAmount]; lia).
  unfold addToDate. rewrite (Date_copy_calendarDate t Hc), Hsign.
  unfold shiftedDay, targetMonth in Hout.
  set (a := signedAmount amount operator) in *.
  destruct unit; date_getters.
  1-2: rewrite setUTCDate_calendarDate by done;
       replace (Day t + (DateFromTime t + a - DateFromTime t)) with (Day t + a) by lia;
       by apply TimeClip_out.
  1-2: rewrite setUTCDate_calendarDate by done;
       replace (Day t + (DateFromTime t + a * 7 - DateFromTime t)) with (Day t + 7 * a) by lia;
       by apply TimeClip_out.
  1-2: unfold setUTCMonth; cbn [mbind option_bind]; destruct Hc as [-> _];
       rewrite MakeDay_carry, TimeClip_out by done; done.
  1-2: unfold setUTCFullYear; cbn [mbind option_bind default from_option id];
       destruct Hc as [-> _]; rewrite TimeClip_out by done; done.
Qed.

Lemma addToDate_None amount unit operator : addToDate None amount unit operator = None.
Proof. by destruct unit. Qed.

(** X4: on a calendar date, [addToDate] returns the Invalid Date exactly
    when the day reached by the shift, before any clamping to the end of
    the month, is more than 100,000,000 days from the epoch; no exception is
    raised.  On the Invalid Date it returns the Invalid Date. *)
Theorem addToDate_invalid_iff t amount unit operator :
  isCalendarDate t ->
  (addToDate (Some t) amount unit operator = None <->
   ~ inDateRange (shiftedDay t amount unit operator)) /\
  addToDate None amount unit operator = None.
Proof.
  intros Hc. split; [|apply addToDate_None].
  split.
  - intros Hnone Hr.
    rewrite (addToDate_spec t amount unit operator Hc Hr) in Hnone; [done|].
    by apply clamped_in_range.
  - by apply addToDate_out_of_range.
Qed.

(** 2026-01-01 plus 100,000,000 days. *)
Lemma addToDate_invalid_iff_witness :
  addToDate (Some (20454 * msPerDay)) 100000000 U_days Plus = None.
Proof.
  destruct (addToDate_invalid_iff (20454 * msPerDay) 100000000 U_days Plus)
    as [[_ Hout] _].
  - split; [reflexivity|]. split; vm_compute; discriminate.
  - apply Hout. intros [_ Hhi]. vm_compute in Hhi. by apply Hhi.
Defined.

(** X5: shifts by days and weeks add up: on a calendar date, a shift
    followed by a second one is the shift by the sum of their signed day
    counts (a week counting for seven days), as long as the first one stays
    in range; in particular the opposite shift gives the date back. *)
Theorem addToDate_days_compose t a u1 o1 b u2 o2 :
  isCalendarDate t ->
  isDayUnit u1 = true -> isDayUnit u2 = true ->
  inDateRange (Day t + intervalDays a u1 o1) ->
  addToDate (addToDate (Some t) a u1 o1) b u2 o2
  = addToDate (Some t) (intervalDays a u1 o1 + intervalDays b u2 o2) U_days Plus /\
  (intervalDays b u2 o2 = - intervalDays a u1 o1 ->
   addToDate (addToDate (Some t) a u1 o1) b u2 o2 = Some t).
Proof.
  intros Hc Hu1 Hu2 Hr.
  assert (forall t' x u o, isCalendarDate t' -> isDayUnit u = true ->
            addToDate (Some t') x u o = TimeClip (MakeDate (Day t' + intervalDays x u o) 0))
    as Hshift.
  { intros t' x u o Hc' Hu. unfold addToDate. rewrite (Date_copy_calendarDate t' Hc').
    destruct u; try done; date_getters; rewrite setUTCDate_calendarDate by done;
      f_equal; f_equal; destruct o; cbn [intervalDays signedAmount]; lia. }
  assert (addToDate (addToDate (Some t) a u1 o1) b u2 o2
          = TimeClip (MakeDate (Day t + (intervalDays a u1 o1 + intervalDays b u2 o2)) 0))
    as Hboth.
  { rewrite (Hshift t a u1 o1 Hc Hu1), TimeClip_day by done.
    rewrite Hshift, Day_of_day by (done || by apply calendarDate_of_day).
    f_equal. f_equal. lia. }
  split.
  - rewrite Hboth, (Hshift t _ U_days Plus) by done. reflexivity.
  - intros Hopp. rewrite Hboth, Hopp.
    replace (Day t + (intervalDays a u1 o1 + - intervalDays a u1 o1)) with (Day t) by lia.
    destruct Hc as [Htw Hrange]. rewrite TimeClip_day by done.
    f_equal. symmetry. by apply calendarDate_eq.
Qed.

(** 2026-02-16 plus two weeks, minus fourteen days. *)
Lemma addToDate_days_compose_witness :
  addToDate (addToDate (Some (20500 * msPerDay)) 2 U_weeks Plus) 14 U_days Minus
  = Some (20500 * msPerDay).
Proof.
  apply (addToDate_days_compose (20500 * msPerDay) 2 U_weeks Plus 14 U_days Minus).
  - split; [reflexivity|]. split; vm_compute; discriminate.
  - reflexivity.
  - reflexivity.
  - split; vm_compute; discriminate.
  - reflexivity.
Defined.

(** ** Units *)

(** X6: units convert: a shift by weeks is the shift by seven times as
    many days, on every date; and on a calendar date a shift by years is
    the shift by twelve times as many months, clamp to the end of the month
    included. *)
Theorem addToDate_unit_equivalences date t n operator :
  addToDate date n U_weeks operator = addToDate date (7 * n) U_days operator /\
  (isCalendarDate t ->
   addToDate (Some t) n U_years operator
   = addToDate (Some t) (12 * n) U_months operator).
Proof.
  split.
  - unfold addToDate. f_equal. f_equal. lia.
  - intros Hc.
    destruct (MakeDay_of_fields t) as (_ & Hm & _).
    assert (signedAmount (12 * n) operator = 12 * signedAmount n operator) as Hs
      by (destruct operator; cbn [signedAmount]; lia).
    assert (targetMonth t (12 * n) U_months operator = targetMonth t n U_years operator)
      as Htarget.
    { unfold targetMonth. rewrite Hs. f_equal; [f_equal|]; zdiv. }
    assert (shiftedDay t (12 * n) U_months operator = shiftedDay t n U_years operator)
      as Hshift by (unfold shiftedDay; by rewrite Htarget).
    assert (applyInterval_spec t (12 * n) U_months operator
            = applyInterval_spec t n U_years operator) as Happly
      by (unfold applyInterval_spec; by rewrite Htarget).
    assert (inDateRange (shiftedDay t n U_years operator) \/
            ~ inDateRange (shiftedDay t n U_years operator)) as [Hin|Hout]
      by (unfold inDateRange; lia).
    + rewrite !addToDate_spec; rewrite ?Hshift, ?Happly; try done.
      all: by apply clamped_in_range.
    + rewrite !addToDate_out_of_range; rewrite ?Hshift; done.
Qed.

(** 2024-02-29 plus one year, and plus twelve months: 2025-02-28. *)
Lemma addToDate_unit_equivalences_witness :
  addToDate (Some (19782 * msPerDay)) 1 U_years Plus
  = addToDate (Some (19782 * msPerDay)) (12 * 1) U_months Plus.
Proof.
  destruct (addToDate_unit_equivalences None (19782 * msPerDay) 1 Plus) as [_ Hyears].
  apply Hyears. split; [reflexivity|]. split; vm_compute; discriminate.
Defined.

(** ** Dates with a time of day *)

Lemma TimeClip_time n tw :
  -100000000 <= n < 100000000 -> 0 <= tw < msPerDay ->
  TimeClip (MakeDate n tw) = Some (MakeDate n tw).
Proof.
  intros Hn Htw. unfold TimeClip, MakeDate, maxTime, msPerDay in *.
  case_match; [done|]. lia.
Qed.

Lemma setUTCDate_any t dt :
  setUTCDate (Some t) (Some dt)
  = TimeClip (MakeDate (Day t + (dt - DateFromTime t)) (TimeWithinDay t)).
Proof.
  unfold setUTCDate. cbn [mbind option_bind].
  replace dt with (DateFromTime t + (dt - DateFromTime t)) at 1 by lia.
  rewrite MakeDay_date_shift. by destruct (MakeDay_of_fields t) as [-> _].
Qed.

Lemma Day_range t : - maxTime <= t <= maxTime -> inDateRange (Day t).
Proof. unfold maxTime, inDateRange, Day, msPerDay. intros Ht. zdiv. Qed.

(** The calendar fields of a time value are those of its day. *)
Lemma fields_of_day t :
  YearFromTime (Day t * msPerDay) = YearFromTime t /\
  MonthFromTime (Day t * msPerDay) = MonthFromTime t /\
  DateFromTime (Day t * msPerDay) = DateFromTime t.
Proof.
  unfold DateFromTime, MonthFromTime, InLeapYear, DayWithinYear, YearFromTime.
  by rewrite !Day_of_day.
Qed.

(** The clamp of the month and year cases, at any time of day. *)
Lemma clamp_after_shift_time y m dt tw :
  0 <= m <= 11 -> 1 <= dt <= 31 -> 0 <= tw < msPerDay ->
  -100000000 <= MakeDay y m dt < 100000000 ->
  let result : Date := Some (MakeDate (MakeDay y m dt) tw) in
  (if num_strict_neq (getUTCDate result) (Some dt)
   then setUTCDate result (Some 0) else result)
  = Some (MakeDate (MakeDay y m (Z.min dt (DaysInMonth y m))) tw).
Proof.
  intros Hm Hdt Htw Hr result. subst result.
  pose proof (DaysInMonth_range y m Hm) as Hdim.
  pose proof (clamp_in_range y m dt Hm Hdt ltac:(unfold inDateRange; lia)) as Hclamp.
  destruct (Day_MakeDate (MakeDay y m dt) tw Htw) as [Hday Htime].
  destruct (Z.le_gt_cases dt (DaysInMonth y m)) as [Hle|Hgt].
  - rewrite Z.min_l in * by done.
    destruct (fields_of_MakeDay y m dt (MakeDate (MakeDay y m dt) tw)) as (_ & _ & Hd);
      [done|lia|done|].
    cbn [getUTCDate fmap option_fmap option_map num_strict_neq]. by rewrite Hd, Z.eqb_refl.
  - rewrite Z.min_r in * by lia.
    set (k := dt - DaysInMonth y m).
    assert (MakeDay y m dt = MakeDay (y + (m + 1) / 12) ((m + 1) mod 12) k) as Hnext.
    { rewrite <- MakeDay_carry, <- MakeDay_next_month by done. f_equal. lia. }
    assert (0 <= (m + 1) mod 12 <= 11) as Hm' by (pose proof (Z.mod_pos_bound (m + 1) 12); lia).
    pose proof (DaysInMonth_range (y + (m + 1) / 12) ((m + 1) mod 12) Hm') as Hdim'.
    destruct (fields_of_MakeDay (y + (m + 1) / 12) ((m + 1) mod 12) k
                (MakeDate (MakeDay y m dt) tw) Hm') as (_ & _ & Hd);
      [lia|by rewrite Hday|].
    cbn [getUTCDate fmap option_fmap option_map num_strict_neq]. rewrite Hd.
    replace (negb (k =? dt)) with true
      by (symmetry; apply negb_true_iff, Z.eqb_neq; lia).
    rewrite setUTCDate_any, Hday, Htime, Hd.
    replace (MakeDay y m dt + (0 - k)) with (MakeDay y m (DaysInMonth y m))
      by (rewrite <- (MakeDay_date_shift y m dt (0 - k)); f_equal; lia).
    apply TimeClip_time; [|done]. unfold inDateRange in Hclamp.
    assert (MakeDay y m (DaysInMonth y m) <= MakeDay y m dt)
      by (rewrite <- (Z.add_0_r (MakeDay y m (DaysInMonth y m)));
          rewrite <- MakeDay_date_shift; unfold MakeDay; lia).
    lia.
Qed.

Lemma shift_of_day t amount unit operator :
  shiftedDay (Day t * msPerDay) amount unit operator = shiftedDay t amount unit operator /\
  applyInterval_spec (Day t * msPerDay) amount unit operator
  = applyInterval_spec t amount unit operator.
Proof.
  destruct (fields_of_day t) as (Hy & Hm & Hd).
  unfold applyInterval_spec, shiftedDay, targetMonth.
  by rewrite Hy, Hm, Hd, Day_of_day.
Qed.

Lemma formatDate_day `{Host} t :
  formatDate (Some t) = formatDate (Some (Day t * msPerDay)).
Proof.
  destruct (fields_of_day t) as (Hy & Hm & Hd).
  unfold formatDate, getUTCFullYear, getUTCMonth, getUTCDate.
  cbn [fmap option_fmap option_map]. by rewrite Hy, Hm, Hd.
Qed.

(** X7: [addToDate] keeps the time of day: on any valid date, with the day
    reached by the shift within the range (the last day of the range
    excluded), the result is the day the shift gives for the date's own
    day, clamped to the end of the month for months and years, at the
    original time of day; its text is therefore the text obtained from
    midnight of the date. *)
Theorem addToDate_keeps_time `{Host} t amount unit operator :
  - maxTime <= t <= maxTime ->
  -100000000 <= shiftedDay t amount unit operator < 100000000 ->
  addToDate (Some t) amount unit operator
  = Some (MakeDate (applyInterval_spec t amount unit operator) (TimeWithinDay t)) /\
  formatDate (addToDate (Some t) amount unit operator)
  = formatDate (addToDate (Some (Day t * msPerDay)) amount unit operator).
Proof.
  intros Ht Hs.
  pose proof (TimeWithinDay_range t) as Htw.
  pose proof (Day_range t Ht) as Hday.
  destruct (MakeDay_of_fields t) as (Hfields & Hm & Hdt).
  pose proof (DaysInMonth_range (YearFromTime t) _ Hm) as Hdim.
  assert (addToDate (Some t) amount unit operator
          = Some (MakeDate (applyInterval_spec t amount unit operator) (TimeWithinDay t)))
    as Hadd.
  { assert (amount * (match operator with Plus => 1 | Minus => -1 end)
            = signedAmount amount operator) as Hsign
      by (destruct operator; cbn [signedAmount]; lia).
    assert (Date_copy (Some t) = Some t) as Hcopy.
    { unfold Date_copy, TimeClip. cbn [mbind option_bind].
      destruct (Z.leb_spec (Z.abs t) maxTime); [done|lia]. }
    unfold addToDate. rewrite Hcopy, Hsign.
    unfold applyInterval_spec, shiftedDay, targetMonth in *.
    set (a := signedAmount amount operator) in *.
    destruct unit; date_getters.
    1-2: rewrite setUTCDate_any;
         replace (Day t + (DateFromTime t + a - DateFromTime t)) with (Day t + a) by lia;
         by apply TimeClip_time.
    1-2: rewrite setUTCDate_any;
         replace (Day t + (DateFromTime t + a * 7 - DateFromTime t)) with (Day t + 7 * a)
           by lia;
         by apply TimeClip_time.
    1-2: unfold setUTCMonth; cbn [mbind option_bind];
         rewrite MakeDay_carry, TimeClip_time by done;
         apply clamp_after_shift_time;
           [pose proof (Z.mod_pos_bound (MonthFromTime t + a) 12); lia| | |];
           (done || lia).
    1-2: unfold setUTCFullYear; cbn [mbind option_bind default from_option id];
         rewrite TimeClip_time by done;
         apply clamp_after_shift_time; (done || lia). }
  split; [done|]. rewrite Hadd.
  destruct (shift_of_day t amount unit operator) as [Hshift Happly].
  assert (inDateRange (shiftedDay t amount unit operator)) as Hin
    by (unfold inDateRange; lia).
  rewrite addToDate_spec;
    [|by apply calendarDate_of_day|by rewrite Hshift
     |rewrite Happly; by apply clamped_in_range].
  rewrite Happly, formatDate_day.
  by destruct (Day_MakeDate (applyInterval_spec t amount unit operator)
                 (TimeWithinDay t) Htw) as [-> _].
Qed.

(** 2026-01-31 at 13:45 UTC plus one month: 2026-02-28 at 13:45 UTC. *)
Lemma addToDate_keeps_time_witness :
  addToDate (Some (20484 * msPerDay + 49500000)) 1 U_month Plus
  = Some (20512 * msPerDay + 49500000).
Proof.
  destruct (@addToDate_keeps_time exampleHost (20484 * msPerDay + 49500000) 1 U_month Plus)
    as [Hadd _].
  - split; vm_compute; discriminate.
  - split; vm_compute; (discriminate || reflexivity).
  - rewrite Hadd. reflexivity.
Defined.

(** ** The clock *)

(** X8: [getCurrentDate] returns midnight UTC of the local calendar day of
    the clock (its local year, month and day read as a UTC date), for every
    local year outside 0 to 99; [Date.UTC] reads a year from 0 to 99 as
    1900 + year, so there the date is that of the year 1900 years later. *)
Theorem getCurrentDate_from_local_day localNow :
  inDateRange (Day localNow) ->
  (~ 0 <= YearFromTime localNow <= 99 ->
   getCurrentDate_from localNow = Some (Day localNow * msPerDay) /\
   isCalendarDate (Day localNow * msPerDay)) /\
  (0 <= YearFromTime localNow <= 99 ->
   getCurrentDate_from localNow
   = Some (MakeDay (1900 + YearFromTime localNow) (MonthFromTime localNow)
             (DateFromTime localNow) * msPerDay)).
Proof.
  intros Hr.
  destruct (MakeDay_of_fields localNow) as (Hday & Hm & Hd).
  pose proof (DaysInMonth_range (YearFromTime localNow) _ Hm) as Hdim.
  unfold getCurrentDate_from, Date_UTC. split.
  - intros Hy.
    replace ((0 <=? YearFromTime localNow) && (YearFromTime localNow <=? 99)) with false
      by (symmetry; apply andb_false_iff; lia).
    rewrite Hday, TimeClip_day by done. cbn [mbind option_bind].
    split; [|by apply calendarDate_of_day].
    apply TimeClip_calendarDate. by apply calendarDate_of_day.
  - intros Hy.
    replace ((0 <=? YearFromTime localNow) && (YearFromTime localNow <=? 99)) with true
      by (symmetry; apply andb_true_iff; lia).
    assert (inDateRange (MakeDay (1900 + YearFromTime localNow) (MonthFromTime localNow)
                           (DateFromTime localNow))) as Hr'
      by (apply year_in_range; lia).
    rewrite TimeClip_day by done. cbn [mbind option_bind].
    apply TimeClip_calendarDate. by apply calendarDate_of_day.
Qed.

(** The clock reads 2026-02-16, 23:30 local time. *)
Lemma getCurrentDate_from_local_day_witness :
  getCurrentDate_from (20500 * msPerDay + 84600000) = Some (20500 * msPerDay).
Proof.
  destruct (getCurrentDate_from_local_day (20500 * msPerDay + 84600000)) as [Hmain _].
  - split; vm_compute; discriminate.
  - destruct Hmain as [Heq _]; [|exact Heq].
    intros [_ Hhi]. vm_compute in Hhi. by apply Hhi.
Defined.

(** ** The tokenizer, token by token *)

Lemma strlen_String c s : strlen (String c s) = 1 + strlen s.
Proof. unfold strlen. cbn [String.length]. lia. Qed.

Lemma strlen_app a b : strlen (a ++ b) = strlen a + strlen b.
Proof. unfold strlen. rewrite append_length. lia. Qed.

Lemma strlen_nonneg s : 0 <= strlen s.
Proof. unfold strlen. lia. Qed.

Lemma anyChar_mono (q q' : ascii -> bool) s :
  (forall c, q c = true -> q' c = true) ->
  anyChar q' s = false -> anyChar q s = false.
Proof.
  intros Hq. induction s as [|c s IH]; [done|]. cbn [anyChar].
  intros [Hc Hs]%orb_false_elim. rewrite (IH Hs), orb_false_r.
  destruct (q c) eqn:Hqc; [|done]. by rewrite (Hq c Hqc) in Hc.
Qed.

Lemma trimStart_split s :
  exists sp, s = sp ++ trimStart s /\ anyChar (fun c => negb (isSpace c)) sp = false.
Proof.
  induction s as [|c s IH]; [by exists ""|]. cbn [trimStart].
  destruct (isSpace c) eqn:Hc; [|by exists ""].
  destruct IH as (sp & Heq & Hsp). exists (String c sp).
  split; [cbn; by rewrite <- Heq|]. cbn. by rewrite Hc.
Qed.

Lemma classes_not_space c :
  isVarChar c || isValidOperator (String c "") || isDigit c || isLower c = true ->
  isSpace c = false.
Proof. destruct c as [[] [] [] [] [] [] [] []]; by vm_compute. Qed.

Lemma firstUnrecognized_app v : forall r pos,
  anyChar unrecognized v = false ->
  firstUnrecognized (v ++ r) pos = firstUnrecognized r (pos + strlen v).
Proof.
  induction v as [|c v IH]; intros r pos Hv.
  - cbn. f_equal. change (strlen "") with 0. lia.
  - cbn [anyChar] in Hv. apply orb_false_elim in Hv as [Hc Hv].
    cbn [String.append firstUnrecognized]. rewrite Hc, IH by done.
    f_equal. rewrite strlen_String. lia.
Qed.

Lemma withoutSpaces_app a b :
  withoutSpaces (a ++ b) = withoutSpaces a ++ withoutSpaces b.
Proof.
  induction a as [|c a IH]; [done|]. cbn [String.append withoutSpaces].
  destruct (isSpace c); [done|]. cbn. by rewrite IH.
Qed.

Lemma withoutSpaces_spaces sp :
  anyChar (fun c => negb (isSpace c)) sp = false -> withoutSpaces sp = "".
Proof.
  induction sp as [|c sp IH]; [done|]. cbn [anyChar withoutSpaces].
  intros [Hc Hs]%orb_false_elim. apply negb_false_iff in Hc. rewrite Hc. auto.
Qed.

Lemma withoutSpaces_none v :
  anyChar isSpace v = false -> withoutSpaces v = v.
Proof.
  induction v as [|c v IH]; [done|]. cbn [anyChar withoutSpaces].
  intros [Hc Hs]%orb_false_elim. rewrite Hc. f_equal. auto.
Qed.

Lemma withoutSpaces_trimEnd s : withoutSpaces (trimEnd s) = withoutSpaces s.
Proof.
  induction s as [|c s IH]; [done|]. cbn [trimEnd withoutSpaces].
  destruct (trimEnd s) eqn:Ht.
  - cbn in IH. rewrite <- IH. destruct (isSpace c) eqn:Hc; cbn; by rewrite ?Hc.
  - cbn [withoutSpaces]. by rewrite <- IH.
Qed.

Lemma withoutSpaces_trim s : withoutSpaces (trim s) = withoutSpaces s.
Proof.
  unfold trim. rewrite withoutSpaces_trimEnd.
  destruct (trimStart_split s) as (sp & Heq & Hsp).
  rewrite Heq at 2. rewrite withoutSpaces_app, (withoutSpaces_spaces sp) by done.
  reflexivity.
Qed.

Lemma substring_zero n s : substring n 0 s = "".
Proof. revert n. induction s as [|c s IH]; intros [|n]; cbn; auto. Qed.

Lemma substring_prefix v r : substring 0 (String.length v) (v ++ r) = v.
Proof.
  induction v as [|c v IH]; [cbn; apply substring_zero|]. cbn. by rewrite IH.
Qed.

Lemma substring_at a v r :
  substring (String.length a) (String.length v) (a ++ v ++ r) = v.
Proof. induction a as [|c a IH]; [cbn; apply substring_prefix|]. cbn. by rewrite IH. Qed.

(** What [nextToken] returns: a non-empty run of its class that starts the
    text. *)
Lemma nextToken_Some rest ty value rest' :
  nextToken rest = Some (ty, value, rest') ->
  rest = value ++ rest' /\
  value <> "" /\
  (forall pos, tokenWellFormed (mkToken ty value pos) = true) /\
  anyChar unrecognized value = false /\
  anyChar isSpace value = false /\
  TokenType_eqb ty EOF = false.
Proof.
  destruct rest as [|c after]; [done|]. unfold nextToken.
  assert (forall p ty0,
            p c = true ->
            (forall x, p x = true -> unrecognized x = false) ->
            (forall x, p x = true -> isSpace x = false) ->
            (let '(v, r) := readWhile p (String c after) in Some (ty0, v, r))
              = Some (ty, value, rest') ->
            String c after = value ++ rest' /\ value <> "" /\
            nonEmpty value && allChars p value = true /\
            anyChar unrecognized value = false /\ anyChar isSpace value = false /\
            ty0 = ty) as Hrun.
  { intros p ty0 Hpc Hun Hsp.
    pose proof (readWhile_append p (String c after)) as Happ.
    pose proof (readWhile_prefix p (String c after)) as Hpre.
    assert (exists v0 r0, readWhile p (String c after) = (String c v0, r0)) as (v0 & r0 & Hr).
    { cbn [readWhile]. rewrite Hpc. destruct (readWhile p after). by eexists _, _. }
    rewrite Hr in *. intros [= <- <- <-].
    specialize (Happ _ _ eq_refl). specialize (Hpre _ _ eq_refl).
    split; [done|]. split; [done|].
    split; [unfold allChars; by rewrite Hpre|].
    split.
    - apply (anyChar_mono unrecognized (fun x => negb (p x))); [|done].
      intros x Hx. destruct (p x) eqn:Hpx; [by rewrite (Hun x Hpx) in Hx|done].
    - split; [|done].
      apply (anyChar_mono isSpace (fun x => negb (p x))); [|done].
      intros x Hx. destruct (p x) eqn:Hpx; [by rewrite (Hsp x Hpx) in Hx|done]. }
  destruct (isVarChar c) eqn:Hv.
  { intros Heq. apply (Hrun isVarChar VAR Hv unrecognized_var) in Heq.
    - destruct Heq as (? & ? & ? & ? & ? & <-). done.
    - intros x Hx. apply classes_not_space. by rewrite Hx. }
  destruct (isValidOperator (String c "")) eqn:Ho.
  { intros [= <- <- <-]. split; [done|]. split; [done|]. split; [done|].
    cbn [anyChar]. unfold unrecognized. rewrite Ho, !orb_true_r. cbn.
    rewrite (classes_not_space c) by (by rewrite Ho, !orb_true_r). done. }
  destruct (isDigit c) eqn:Hd.
  { intros Heq. apply (Hrun isDigit NUMBER Hd unrecognized_digit) in Heq.
    - destruct Heq as (? & ? & ? & ? & ? & <-). done.
    - intros x Hx. apply classes_not_space. by rewrite Hx, !orb_true_r. }
  destruct (isLower c) eqn:Hl; [|done].
  intros Heq. apply (Hrun isLower UNIT Hl unrecognized_lower) in Heq.
  - destruct Heq as (? & ? & ? & ? & ? & <-). done.
  - intros x Hx. apply classes_not_space. by rewrite Hx, !orb_true_r.
Qed.

Lemma nextToken_None c after :
  isSpace c = false -> nextToken (String c after) = None -> unrecognized c = true.
Proof.
  intros Hs. unfold nextToken, unrecognized. rewrite Hs.
  destruct (isVarChar c); [by destruct (readWhile _ _)|].
  destruct (isValidOperator (String c "")); [done|].
  destruct (isDigit c); [by destruct (readWhile _ _)|].
  destruct (isLower c); [by destruct (readWhile _ _)|]. done.
Qed.

Section TokenizerSteps.
Context `{Host}.

(** One round of the loop of [tokenize]. *)
Lemma tokenizeLoop_unfold fuel pos input :
  tokenizeLoop (S fuel) pos input =
    let rest := trimStart input in
    let pos' := pos + (strlen input - strlen rest) in
    match rest with
    | EmptyString => inr [mkToken EOF "" pos']
    | String current _ =>
        match nextToken rest with
        | Some (ty, value, rest') =>
            match tokenizeLoop fuel (pos' + strlen value) rest' with
            | inr tokens => inr (mkToken ty value pos' :: tokens)
            | inl e => inl e
            end
        | None => inl (unexpectedCharacter current pos')
        end
    end.
Proof.
  cbn [tokenizeLoop]. cbv zeta.
  destruct (trimStart input) as [|current after]; [done|].
  unfold nextToken.
  destruct (isVarChar current); [by destruct (readWhile _ _)|].
  destruct (isValidOperator (String current "")); [done|].
  destruct (isDigit current); [by destruct (readWhile _ _)|].
  destruct (isLower current); [by destruct (readWhile _ _)|]. done.
Qed.
End TokenizerSteps.

Section TokenizerSpec.
Context `{Host}.

(** The loop of [tokenize] started after [pre], with fuel for every
    character: it stops at the first character of no class, or returns
    the tokens of the input. *)
Lemma tokenizeLoop_spec fuel : forall pre input,
  (String.length input <= fuel)%nat ->
  match firstUnrecognized input (strlen pre) with
  | Some (c, p) =>
      tokenizeLoop fuel (strlen pre) input = inl (unexpectedCharacter c p)
  | None =>
      exists front,
        tokenizeLoop fuel (strlen pre) input
        = inr (front ++ [mkToken EOF "" (strlen (pre ++ input))])%list /\
        forallb notEOF front = true /\
        forallb tokenWellFormed front = true /\
        forallb (tokenAt (pre ++ input)) front = true /\
        concatStrings (map tok_value front) = withoutSpaces input
  end.
Proof.
  induction fuel as [|fuel IH]; intros pre input Hlen.
  - destruct input; [|cbn in Hlen; lia]. cbn [firstUnrecognized].
    exists []. rewrite append_nil_r. cbn [tokenizeLoop trimStart].
    replace (strlen pre + (strlen "" - strlen "")) with (strlen pre)
      by (change (strlen "") with 0; lia).
    repeat split.
  - rewrite tokenizeLoop_unfold. cbv zeta.
    destruct (trimStart_split input) as (sp & Hinput & Hsp).
    pose proof (trimStart_head input) as Hhead.
    pose proof (trimStart_length input) as Hlen'.
    remember (trimStart input) as rest eqn:Hrest0. clear Hrest0. subst input.
    assert (anyChar unrecognized sp = false) as Hspu.
    { apply (anyChar_mono unrecognized (fun c => negb (isSpace c))); [|done].
      intros c Hc. destruct (isSpace c) eqn:Hs; [|done].
      by rewrite (unrecognized_space c Hs) in Hc. }
    replace (strlen pre + (strlen (sp ++ rest) - strlen rest)) with (strlen (pre ++ sp))
      by (rewrite !strlen_app; lia).
    rewrite firstUnrecognized_app by done.
    replace (strlen pre + strlen sp) with (strlen (pre ++ sp)) by (rewrite strlen_app; lia).
    rewrite withoutSpaces_app, (withoutSpaces_spaces sp) by done.
    change ("" ++ withoutSpaces rest) with (withoutSpaces rest).
    rewrite <- (append_assoc pre sp rest).
    assert (String.length rest <= S fuel)%nat as Hlen2 by lia.
    clear Hsp Hspu Hlen Hlen'.
    generalize dependent (pre ++ sp). clear pre sp. intros pre.
    destruct rest as [|current after].
    { cbn [firstUnrecognized]. exists []. rewrite append_nil_r. cbn. repeat split. }
    specialize (Hhead current after eq_refl).
    destruct (nextToken (String current after)) as [[[ty value] rest']|] eqn:Hnext.
    + destruct (nextToken_Some _ _ _ _ Hnext)
        as (Hrest & Hne & Hwf & Hun & Hns & Hty).
      rewrite Hrest. rewrite firstUnrecognized_app by done.
      assert (String.length rest' <= fuel)%nat as Hlen''.
      { apply (f_equal String.length) in Hrest. rewrite append_length in Hrest.
        cbn [String.length] in *. destruct value; [done|]. cbn [String.length] in Hrest. lia. }
      specialize (IH (pre ++ value) rest' Hlen'').
      rewrite (strlen_app pre value) in IH.
      rewrite append_assoc in IH.
      destruct (firstUnrecognized rest' (strlen pre + strlen value))
        as [[c p]|].
      * by rewrite IH.
      * destruct IH as (front & -> & Hfront & Hwfs & Hat & Hcat).
        exists (mkToken ty value (strlen pre) :: front).
        split; [done|].
        split; [cbn [forallb]; unfold notEOF at 1; cbn; by rewrite Hty, Hfront|].
        split; [cbn [forallb]; by rewrite Hwf, Hwfs|].
        split.
        { cbn [forallb]. rewrite Hat, andb_true_r. unfold tokenAt. cbn.
          apply andb_true_intro. split; [apply Z.leb_le, strlen_nonneg|].
          unfold strlen. rewrite Nat2Z.id, substring_at. apply String.eqb_refl. }
        cbn [map concatStrings fold_right]. fold (concatStrings (map tok_value front)).
        rewrite Hcat, withoutSpaces_app, (withoutSpaces_none value) by done.
        reflexivity.
    + cbn [firstUnrecognized]. by rewrite (nextToken_None _ _ Hhead Hnext).
Qed.

Lemma tokenize_spec input :
  match firstUnrecognized (trim input) 0 with
  | Some (c, p) => tokenize input = inl (unexpectedCharacter c p)
  | None =>
      exists front,
        tokenize input = inr (front ++ [mkToken EOF "" (strlen (trim input))])%list /\
        forallb notEOF front = true /\
        forallb tokenWellFormed front = true /\
        forallb (tokenAt (trim input)) front = true /\
        concatStrings (map tok_value front) = withoutSpaces input
  end.
Proof.
  pose proof (tokenizeLoop_spec (String.length (trim input)) "" (trim input)
                ltac:(lia)) as Hspec.
  change (strlen "") with 0 in Hspec. change ("" ++ trim input) with (trim input) in Hspec.
  rewrite withoutSpaces_trim in Hspec. exact Hspec.
Qed.
End TokenizerSpec.

(** ** The tokenizer *)

(** X9: an expression within the length limit that holds a character of no
    token class fails to tokenize and to parse, and the message names the
    first such character and its index in the trimmed expression; the parse
    error carries the whole expression as its token and no position. *)
Theorem parse_reports_first_unrecognized `{Host} expression options c p :
  strlen expression <= default 200 (options ≫= maxExpressionLength) ->
  firstUnrecognized (trim expression) 0 = Some (c, p) ->
  tokenize expression = inl (unexpectedCharacter c p) /\
  parse expression options
  = inl (mkParseError "PARSE_ERROR" (unexpectedCharacter c p) expression None).
Proof.
  intros Hlen Hfirst.
  pose proof (tokenize_spec expression) as Hspec. rewrite Hfirst in Hspec.
  split; [done|]. rewrite parse_within_length by done. by rewrite Hspec.
Qed.

(** The test of the sources: an operator other than + and -. *)
Lemma parse_reports_first_unrecognized_witness :
  @parse exampleHost "MY_DATE * 2 days" None
  = inl (mkParseError "PARSE_ERROR" "Unexpected character '*' at position 8"
           "MY_DATE * 2 days" None).
Proof.
  destruct (@parse_reports_first_unrecognized exampleHost "MY_DATE * 2 days" None "*" 8)
    as [_ Hparse].
  - vm_compute. discriminate.
  - reflexivity.
  - exact Hparse.
Defined.

(** X10: the tokens of an input are tokens of the four classes followed by
    one end-of-input token: a variable token holds one or more characters of
    [A-Z_], a number token one or more digits, a unit token one or more
    lower-case letters, an operator token + or -; put together, their values
    are the input without its white space, so that no character is lost or
    made up. *)
Theorem tokenize_tokens_well_formed `{Host} input tokens :
  tokenize input = inr tokens ->
  exists front,
    tokens = (front ++ [mkToken EOF "" (strlen (trim input))])%list /\
    forallb notEOF front = true /\
    forallb tokenWellFormed front = true /\
    concatStrings (map tok_value front) = withoutSpaces input.
Proof.
  intros Htok. pose proof (tokenize_spec input) as Hspec.
  destruct (firstUnrecognized (trim input) 0) as [[c p]|]; [congruence|].
  destruct Hspec as (front & Heq & Hfront & Hwf & _ & Hcat).
  exists front. rewrite Htok in Heq. by injection Heq as ->.
Qed.

Lemma tokenize_tokens_well_formed_witness :
  exists front,
    [mkToken VAR "MY_DATE" 0; mkToken OPERATOR "+" 8; mkToken NUMBER "2" 10;
     mkToken UNIT "days" 12; mkToken EOF "" 16]
    = (front ++ [mkToken EOF "" (strlen (trim " MY_DATE + 2 days "))])%list /\
    forallb notEOF front = true /\
    forallb tokenWellFormed front = true /\
    concatStrings (map tok_value front) = withoutSpaces " MY_DATE + 2 days ".
Proof.
  apply (@tokenize_tokens_well_formed exampleHost " MY_DATE + 2 days ").
  reflexivity.
Defined.

(** X11: every token records where it was read: its value is the part of
    the trimmed input that starts at its position, and the end-of-input
    token stands at the length of the trimmed input. *)
Theorem tokenize_positions `{Host} input tokens :
  tokenize input = inr tokens ->
  forallb (tokenAt (trim input)) tokens = true /\
  last tokens = Some (mkToken EOF "" (strlen (trim input))).
Proof.
  intros Htok. pose proof (tokenize_spec input) as Hspec.
  destruct (firstUnrecognized (trim input) 0) as [[c p]|]; [congruence|].
  destruct Hspec as (front & Heq & _ & _ & Hat & _).
  rewrite Htok in Heq. injection Heq as ->.
  split; [|by rewrite last_snoc].
  rewrite forallb_app, Hat. cbn [forallb andb]. rewrite andb_true_r.
  unfold tokenAt. cbn [tok_position tok_value String.length].
  rewrite substring_zero.
  apply andb_true_intro. split; [apply Z.leb_le, strlen_nonneg|done].
Qed.

Lemma tokenize_positions_witness :
  forallb (tokenAt (trim "A  + 10 weeks"))
    [mkToken VAR "A" 0; mkToken OPERATOR "+" 3; mkToken NUMBER "10" 5;
     mkToken UNIT "weeks" 8; mkToken EOF "" 13] = true.
Proof.
  apply (@tokenize_positions exampleHost "A  + 10 weeks"). reflexivity.
Defined.

(** ** The parser over a run of intervals *)

Section ParserRuns.
Context `{Host}.
Variable maxAmount : Z.

(** The loop consumes a run of accepted triples and goes on with the
    tree built from them. *)
Lemma parseLoop_good fuel : forall (pre : list Token) node tail,
  goodIntervals maxAmount pre = true ->
  (length (pre ++ tail) <= fuel)%nat ->
  parseLoop maxAmount fuel node (pre ++ tail)
  = parseLoop maxAmount fuel (foldIntervals node pre) tail.
Proof.
  induction fuel as [|fuel IH]; intros pre node tail Hg Hfuel.
  - destruct pre; [done|cbn in Hfuel; lia].
  - destruct pre as [|o [|n [|u pre]]]; try done.
    cbn [goodIntervals] in Hg. apply andb_prop in Hg as [Hg Hgs].
    apply goodInterval_inv in Hg as (Hto & Hvo & Htn & Htu & Hvu & a & Ha & Hr).
    cbn [length app] in Hfuel. rewrite length_app in Hfuel.
    rewrite (parseLoop_fuel maxAmount (S fuel) fuel (foldIntervals node (o :: n :: u :: pre)) tail)
      by lia.
    cbn [app parseLoop currentToken hd]. rewrite Hto, Hvo. cbn [TokenType_eqb negb].
    rewrite advance_cons by (by rewrite Hto).
    unfold expect at 1. cbn [currentToken hd]. rewrite Htn. cbn [TokenType_eqb negb].
    rewrite Ha.
    destruct (Z.leb_spec a 0); [lia|].
    destruct (Z.ltb_spec maxAmount a); [lia|].
    rewrite advance_cons by (by rewrite Htn).
    unfold expect at 1. cbn [currentToken hd]. rewrite Htu. cbn [TokenType_eqb negb].
    rewrite Hvu. cbn [negb].
    rewrite advance_cons by (by rewrite Htu).
    rewrite IH by (done || rewrite length_app; lia).
    cbn [foldIntervals]. rewrite Ha. reflexivity.
Qed.

(** A successful run of the loop consumed accepted triples only. *)
Lemma parseLoop_inr_run fuel : forall node tokens node' tokens',
  parseLoop maxAmount fuel node tokens = inr (node', tokens') ->
  exists pre : list Token,
    tokens = (pre ++ tokens')%list /\
    goodIntervals maxAmount pre = true /\
    node' = foldIntervals node pre /\
    TokenType_eqb (tok_type (currentToken tokens')) OPERATOR = false.
Proof.
  induction fuel as [|fuel IH]; intros node tokens node' tokens' Hrun.
  - cbn [parseLoop] in Hrun.
    destruct (TokenType_eqb (tok_type (currentToken tokens)) OPERATOR) eqn:Hop; [done|].
    injection Hrun as <- <-. by exists [].
  - destruct (TokenType_eqb (tok_type (currentToken tokens)) OPERATOR) eqn:Hop.
    + destruct (parseLoop_step maxAmount fuel node tokens (node', tokens') Hop Hrun)
        as (op & num & unit & rest & amount & -> & Hg & Ha & Hrest).
      destruct (IH _ _ _ _ Hrest) as (pre & -> & Hgs & -> & Hcur).
      exists (op :: num :: unit :: pre). split; [done|].
      split; [cbn [goodIntervals]; by rewrite Hg, Hgs|].
      split; [|done]. cbn [foldIntervals]. by rewrite Ha.
    + cbn [parseLoop] in Hrun. rewrite Hop in Hrun.
      injection Hrun as <- <-. by exists [].
Qed.
End ParserRuns.

Lemma TokenType_eqb_neq a b : a <> b -> TokenType_eqb a b = false.
Proof. intros Hne. destruct (TokenType_eqb a b) eqn:Heq; [|done]. by apply TokenType_eqb_eq in Heq. Qed.

Section ParserStart.
Context `{Host}.
Variable maxAmount : Z.

(** [Parser.parse] on a variable followed by a run of accepted triples:
    what follows the run decides. *)
Lemma Parser_parse_run var (pre tail : list Token) :
  tok_type var = VAR -> goodIntervals maxAmount pre = true ->
  Parser_parse maxAmount (var :: pre ++ tail)
  = match parseLoop maxAmount (length tail)
            (foldIntervals (var_ref (tok_value var)) pre) tail with
    | inl e => inl e
    | inr (expr, tokens) =>
        if negb (TokenType_eqb (tok_type (currentToken tokens)) EOF) then
          inl (error "Unexpected tokens after expression" (currentToken tokens))
        else inr expr
    end.
Proof.
  intros Hvar Hg. unfold Parser_parse, parseExpression, parsePrimary.
  cbn [currentToken hd]. rewrite Hvar. cbn [TokenType_eqb].
  rewrite advance_cons by (by rewrite Hvar).
  rewrite parseLoop_good by done.
  rewrite (parseLoop_fuel maxAmount (length (pre ++ tail)) (length tail))
    by (rewrite ?length_app; lia).
  done.
Qed.
End ParserStart.

(** ** The grammar *)

(** X12: on the tokens of an input, which end with their only end-of-input
    token, the parser accepts exactly the lists made of a variable token, a
    run of triples (operator + or -, number holding an integer from 1 to
    the limit, unit with one of the eight spellings) and the end-of-input
    token; the tree nests the intervals from left to right, the first one
    innermost. *)
Theorem Parser_parse_grammar `{Host} maxAmount tokens ast :
  eofLast tokens = true ->
  (Parser_parse maxAmount tokens = inr ast <->
   exists var pre eof,
     tokens = var :: (pre ++ [eof])%list /\
     tok_type var = VAR /\
     goodIntervals maxAmount pre = true /\
     tok_type eof = EOF /\
     ast = foldIntervals (var_ref (tok_value var)) pre).
Proof.
  intros Hlast. split.
  - unfold Parser_parse, parseExpression, parsePrimary.
    destruct (TokenType_eqb (tok_type (currentToken tokens)) VAR) eqn:Hvar; [|done].
    apply TokenType_eqb_eq in Hvar.
    destruct tokens as [|var tokens]; [done|]. cbn [currentToken hd] in *.
    rewrite advance_cons by (by rewrite Hvar).
    apply eofLast_tail in Hlast; [|by rewrite Hvar].
    destruct (parseLoop _ _ _ _) as [|[node' tokens']] eqn:Hrun; [done|].
    pose proof (parseLoop_inr maxAmount _ _ _ _ _ Hrun) as (_ & _ & Hlast' & _).
    apply parseLoop_inr_run in Hrun as (pre & -> & Hg & -> & _).
    destruct (TokenType_eqb (tok_type (currentToken tokens')) EOF) eqn:Hend; [|done].
    cbn [negb]. intros [= <-].
    destruct (eofLast_head_eof tokens' (Hlast' Hlast) Hend) as [eof ->].
    apply TokenType_eqb_eq in Hend. by exists var, pre, eof.
  - intros (var & pre & eof & -> & Hvar & Hg & Hend & ->).
    rewrite Parser_parse_run by done.
    cbn [length parseLoop currentToken hd]. rewrite Hend. cbn [TokenType_eqb].
    cbn [currentToken hd]. by rewrite Hend.
Qed.

(** The tokens of [A + 1 month - 2 days]. *)
Lemma Parser_parse_grammar_witness :
  @Parser_parse exampleHost 10000
    [mkToken VAR "A" 0; mkToken OPERATOR "+" 2; mkToken NUMBER "1" 4;
     mkToken UNIT "month" 6; mkToken OPERATOR "-" 12; mkToken NUMBER "2" 14;
     mkToken UNIT "days" 16; mkToken EOF "" 20]
  = inr (date_arithmetic (date_arithmetic (var_ref "A") Plus 1 U_month) Minus 2 U_days).
Proof.
  apply (@Parser_parse_grammar exampleHost); [reflexivity|].
  exists (mkToken VAR "A" 0),
    [mkToken OPERATOR "+" 2; mkToken NUMBER "1" 4; mkToken UNIT "month" 6;
     mkToken OPERATOR "-" 12; mkToken NUMBER "2" 14; mkToken UNIT "days" 16],
    (mkToken EOF "" 20).
  repeat split; reflexivity.
Defined.

(** X13: after a variable and a run of accepted intervals, the parser
    reports the first token that breaks the grammar, with its value and
    position: a token that is neither an operator nor the end of input
    (unexpected tokens after the expression); after an operator, a token
    that is not a number; after an accepted amount, a token that is not a
    unit, or a unit with an unknown spelling. *)
Theorem Parser_parse_first_offender `{Host} maxAmount var (pre : list Token) :
  tok_type var = VAR -> goodIntervals maxAmount pre = true ->
  (forall t rest,
     tok_type t <> OPERATOR -> tok_type t <> EOF ->
     Parser_parse maxAmount (var :: pre ++ t :: rest)
     = inl (error "Unexpected tokens after expression" t)) /\
  (forall op t rest,
     tok_type op = OPERATOR -> isValidOperator (tok_value op) = true ->
     tok_type t <> NUMBER ->
     Parser_parse maxAmount (var :: pre ++ op :: t :: rest)
     = inl (error ("Expected NUMBER, got " ++ TokenType_text (tok_type t)) t)) /\
  (forall op num t rest amount,
     tok_type op = OPERATOR -> isValidOperator (tok_value op) = true ->
     tok_type num = NUMBER -> parseInt10 (tok_value num) = Some amount ->
     0 < amount <= maxAmount ->
     (tok_type t <> UNIT ->
      Parser_parse maxAmount (var :: pre ++ op :: num :: t :: rest)
      = inl (error ("Expected UNIT, got " ++ TokenType_text (tok_type t)) t)) /\
     (tok_type t = UNIT -> isValidTimeUnit (tok_value t) = false ->
      Parser_parse maxAmount (var :: pre ++ op :: num :: t :: rest)
      = inl (error (invalidUnitMessage (tok_value t)) t))).
Proof.
  intros Hvar Hg. split; [|split].
  - intros t rest Hop Heof. rewrite Parser_parse_run by done.
    cbn [length parseLoop currentToken hd].
    rewrite (TokenType_eqb_neq _ _ Hop). cbn [currentToken hd].
    by rewrite (TokenType_eqb_neq _ _ Heof).
  - intros op t rest Hto Hvo Hnum. rewrite Parser_parse_run by done.
    cbn [length]. remember (S (length rest)) as fuel eqn:Hfuel. clear Hfuel.
    cbn [parseLoop currentToken hd]. rewrite Hto, Hvo. cbn [TokenType_eqb negb].
    rewrite advance_cons by (by rewrite Hto).
    unfold expect. cbn [currentToken hd]. by rewrite (TokenType_eqb_neq _ _ Hnum).
  - intros op num t rest amount Hto Hvo Htn Ha Hr.
    split; [intros Hunit|intros Hunit Hbad].
    all: rewrite Parser_parse_run by done.
    all: cbn [length]; remember (S (S (length rest))) as fuel eqn:Hfuel; clear Hfuel.
    all: cbn [parseLoop currentToken hd]; rewrite Hto, Hvo; cbn [TokenType_eqb negb].
    all: rewrite advance_cons by (by rewrite Hto).
    all: unfold expect at 1; cbn [currentToken hd]; rewrite Htn; cbn [TokenType_eqb negb].
    all: rewrite Ha.
    all: destruct (Z.leb_spec amount 0); [lia|].
    all: destruct (Z.ltb_spec maxAmount amount); [lia|].
    all: rewrite advance_cons by (by rewrite Htn).
    all: unfold expect; cbn [currentToken hd].
    + by rewrite (TokenType_eqb_neq _ _ Hunit).
    + rewrite Hunit. cbn [TokenType_eqb negb]. by rewrite Hbad.
Qed.

(** The tokens of [A B]: a second variable. *)
Lemma Parser_parse_first_offender_witness :
  @Parser_parse exampleHost 10000
    [mkToken VAR "A" 0; mkToken VAR "B" 2; mkToken EOF "" 3]
  = inl (mkParseError "PARSE_ERROR" "Unexpected tokens after expression" "B" (Some 2)).
Proof.
  destruct (@Parser_parse_first_offender exampleHost 10000 (mkToken VAR "A" 0) [])
    as [Htrail _].
  - reflexivity.
  - reflexivity.
  - apply (Htrail (mkToken VAR "B" 2) [mkToken EOF "" 3]); discriminate.
Defined.

(** ** The start of an expression *)


Section TokenizerHead.
Context `{Host}.

End TokenizerHead.



(** ** Tokens of a text built from known parts *)

Lemma classes_disjoint c :
  (isDigit c = true ->
   isVarChar c = false /\ isValidOperator (String c "") = false) /\
  (isLower c = true ->
   isVarChar c = false /\ isValidOperator (String c "") = false /\ isDigit c = false).
Proof. destruct c as [[] [] [] [] [] [] [] []]; by vm_compute. Qed.

Lemma readWhile_run p v r :
  anyChar (fun c => negb (p c)) v = false ->
  (forall c r', r = String c r' -> p c = false) ->
  readWhile p (v ++ r) = (v, r).
Proof.
  intros Hv Hr. induction v as [|c v IH].
  - cbn [String.append]. destruct r as [|c r']; [done|].
    cbn [readWhile]. by rewrite (Hr c r' eq_refl).
  - cbn [anyChar] in Hv. apply orb_false_elim in Hv as [Hc Hv].
    apply negb_false_iff in Hc.
    cbn [String.append readWhile]. by rewrite Hc, (IH Hv).
Qed.

Lemma trimStart_skip sp s :
  anyChar (fun c => negb (isSpace c)) sp = false ->
  (forall c r, s = String c r -> isSpace c = false) ->
  trimStart (sp ++ s) = s.
Proof.
  intros Hsp Hs. induction sp as [|c sp IH].
  - cbn [String.append]. destruct s as [|c r]; [done|].
    cbn [trimStart]. by rewrite (Hs c r eq_refl).
  - cbn [anyChar] in Hsp. apply orb_false_elim in Hsp as [Hc Hsp].
    apply negb_false_iff in Hc.
    cbn [String.append trimStart]. by rewrite Hc, (IH Hsp).
Qed.

Section TokenizerFuel.
Context `{Host}.

(** Fuel beyond the length of the input changes nothing. *)
Lemma tokenizeLoop_fuel fuel : forall fuel' pos input,
  (String.length input <= fuel)%nat -> (String.length input <= fuel')%nat ->
  tokenizeLoop fuel pos input = tokenizeLoop fuel' pos input.
Proof.
  induction fuel as [|fuel IH]; intros fuel' pos input Hlen Hlen'.
  - destruct input; [by destruct fuel'|cbn in Hlen; lia].
  - destruct fuel' as [|fuel'].
    { destruct input; [done|cbn in Hlen'; lia]. }
    rewrite !tokenizeLoop_unfold. cbv zeta.
    pose proof (trimStart_length input) as Hts.
    destruct (trimStart input) as [|c after] eqn:Htrim; [done|].
    destruct (nextToken (String c after)) as [[[ty value] rest']|] eqn:Hnext; [|done].
    destruct (nextToken_Some _ _ _ _ Hnext) as (Hrest & Hne & _).
    apply (f_equal String.length) in Hrest. rewrite append_length in Hrest.
    assert (String.length value <> 0)%nat by (by destruct value).
    rewrite (IH fuel') by lia. done.
Qed.

(** One token of the input, after white space. *)
Lemma tokenizeLoop_token fuel pos sp ty value rest' :
  anyChar (fun c => negb (isSpace c)) sp = false ->
  nextToken (value ++ rest') = Some (ty, value, rest') ->
  (String.length (sp ++ value ++ rest') <= fuel)%nat ->
  tokenizeLoop fuel pos (sp ++ value ++ rest')
  = match tokenizeLoop fuel (pos + strlen sp + strlen value) rest' with
    | inr tokens => inr (mkToken ty value (pos + strlen sp) :: tokens)
    | inl e => inl e
    end.
Proof.
  intros Hsp Hnext Hfuel.
  destruct (nextToken_Some _ _ _ _ Hnext) as (_ & Hne & _ & _ & Hns & _).
  destruct value as [|c value]; [done|].
  cbn [anyChar] in Hns. apply orb_false_elim in Hns as [Hc _].
  rewrite !append_length in Hfuel. cbn [String.length] in Hfuel.
  destruct fuel as [|fuel]; [lia|].
  rewrite (tokenizeLoop_fuel (S fuel) fuel _ rest') by lia.
  rewrite tokenizeLoop_unfold. cbv zeta.
  rewrite (trimStart_skip sp (String c value ++ rest')) by (done || by intros ? ? [= <- _]).
  replace (pos + (strlen (sp ++ String c value ++ rest') - strlen (String c value ++ rest')))
    with (pos + strlen sp) by (rewrite !strlen_app; lia).
  cbn [String.append] in *. by rewrite Hnext.
Qed.
End TokenizerFuel.

(** The token a text starts with, from its first run. *)
Lemma nextToken_variable v r :
  v <> "" -> anyChar (fun c => negb (isVarChar c)) v = false ->
  (forall c r', r = String c r' -> isVarChar c = false) ->
  nextToken (v ++ r) = Some (VAR, v, r).
Proof.
  intros Hne Hv Hr. pose proof (readWhile_run isVarChar v r Hv Hr) as Hrun.
  destruct v as [|c v]; [done|]. cbn [anyChar] in Hv.
  apply orb_false_elim in Hv as [Hc _]. apply negb_false_iff in Hc.
  cbn [String.append] in *. unfold nextToken. by rewrite Hc, Hrun.
Qed.

Lemma nextToken_operator op r :
  nextToken (Operator_text op ++ r) = Some (OPERATOR, Operator_text op, r).
Proof. by destruct op. Qed.

Lemma nextToken_number v r :
  v <> "" -> anyChar (fun c => negb (isDigit c)) v = false ->
  (forall c r', r = String c r' -> isDigit c = false) ->
  nextToken (v ++ r) = Some (NUMBER, v, r).
Proof.
  intros Hne Hv Hr. pose proof (readWhile_run isDigit v r Hv Hr) as Hrun.
  destruct v as [|c v]; [done|]. cbn [anyChar] in Hv.
  apply orb_false_elim in Hv as [Hc _]. apply negb_false_iff in Hc.
  destruct (classes_disjoint c) as [Hd _]. destruct (Hd Hc) as [Hvar Hop].
  cbn [String.append] in *. unfold nextToken. by rewrite Hvar, Hop, Hc, Hrun.
Qed.

Lemma nextToken_unit v r :
  v <> "" -> anyChar (fun c => negb (isLower c)) v = false ->
  (forall c r', r = String c r' -> isLower c = false) ->
  nextToken (v ++ r) = Some (UNIT, v, r).
Proof.
  intros Hne Hv Hr. pose proof (readWhile_run isLower v r Hv Hr) as Hrun.
  destruct v as [|c v]; [done|]. cbn [anyChar] in Hv.
  apply orb_false_elim in Hv as [Hc _]. apply negb_false_iff in Hc.
  destruct (classes_disjoint c) as [_ Hl]. destruct (Hl Hc) as (Hvar & Hop & Hd).
  cbn [String.append] in *. unfold nextToken. by rewrite Hvar, Hop, Hd, Hc, Hrun.
Qed.

(** ** Amounts, units and operators read back *)

Lemma roundToDouble_exact n : 0 <= n < 2 ^ 53 -> roundToDouble n = n.
Proof.
  intros Hn. unfold roundToDouble.
  assert (Z.log2 n - 52 <= 0) as Hlog.
  { destruct (Z.eq_dec n 0) as [->|]; [done|].
    pose proof (proj1 (Z.log2_lt_pow2 n 53 ltac:(lia)) ltac:(lia)). lia. }
  destruct (Z.leb_spec (Z.log2 n - 52) 0); [done|lia].
Qed.

Lemma parseInt10_digit_start c r :
  isDigit c = true ->
  parseInt10 (String c r) =
    let '(digits, _) := readWhile isDigit (String c r) in
    match digits with
    | EmptyString => None
    | _ =>
        let v := roundToDouble (digitsValue digits) in
        if v <? 2 ^ 1024 then Some (1 * v) else None
    end.
Proof.
  intros Hc. destruct c as [[] [] [] [] [] [] [] []];
    vm_compute in Hc; try discriminate; reflexivity.
Qed.

(** [parseInt] on a run of digits: its decimal value, leading zeros
    included, as long as it is below 2^53. *)
Lemma parseInt10_digits v :
  v <> "" -> anyChar (fun c => negb (isDigit c)) v = false ->
  digitsValue v < 2 ^ 53 ->
  parseInt10 v = Some (digitsValue v).
Proof.
  intros Hne Hv Hlt. pose proof (digitsValue_range v Hv) as [Hpos _].
  pose proof (readWhile_run isDigit v "" Hv ltac:(done)) as Hrun.
  rewrite append_nil_r in Hrun.
  destruct v as [|c v]; [done|].
  cbn [anyChar] in Hv. apply orb_false_elim in Hv as [Hc _]. apply negb_false_iff in Hc.
  rewrite parseInt10_digit_start, Hrun by done.
  cbv zeta. rewrite roundToDouble_exact by lia.
  destruct (Z.ltb_spec (digitsValue (String c v)) (2 ^ 1024)) as [|Hbig].
  - f_equal. lia.
  - assert (2 ^ 53 <= 2 ^ 1024) by (apply Z.pow_le_mono_r; lia). lia.
Qed.

Lemma parseInt10_decimal a : 0 < a < 2 ^ 53 -> parseInt10 (decimal a) = Some a.
Proof.
  intros Ha. destruct (decimal_spec a ltac:(lia)) as (Hne & Hd & Hv & _).
  rewrite parseInt10_digits by (done || lia). by rewrite Hv.
Qed.

Lemma Operator_text_of op :
  isValidOperator (Operator_text op) = true /\ Operator_of (Operator_text op) = op.
Proof. by destruct op. Qed.

Lemma TimeUnit_text_of u :
  isValidTimeUnit (TimeUnit_text u) = true /\ TimeUnit_of (TimeUnit_text u) = u /\
  TimeUnit_text u <> "" /\
  anyChar (fun c => negb (isLower c)) (TimeUnit_text u) = false /\
  trimEnd (TimeUnit_text u) = TimeUnit_text u.
Proof. by destruct u. Qed.

Lemma space_not_class c :
  isSpace c = true -> isVarChar c = false /\ isDigit c = false /\ isLower c = false.
Proof. destruct c as [[] [] [] [] [] [] [] []]; by vm_compute. Qed.

Lemma goodIntervals_app maxAmount (pre : list Token) op num unit :
  goodIntervals maxAmount pre = true ->
  goodInterval maxAmount op num unit = true ->
  goodIntervals maxAmount (pre ++ [op; num; unit]) = true.
Proof.
  intros Hpre Hg. revert Hpre.
  induction pre as [pre IH] using (induction_ltof1 _ (@length Token)).
  unfold ltof in IH.
  destruct pre as [|o [|n [|u pre]]]; try done.
  - intros _. cbn. by rewrite Hg.
  - cbn [goodIntervals app]. intros [Hg1 Hgs]%andb_prop. rewrite Hg1. cbn [andb].
    apply IH; [cbn; lia|done].
Qed.

Lemma foldIntervals_app maxAmount (pre : list Token) : forall node rest,
  goodIntervals maxAmount pre = true ->
  foldIntervals node (pre ++ rest) = foldIntervals (foldIntervals node pre) rest.
Proof.
  induction pre as [pre IH] using (induction_ltof1 _ (@length Token)).
  unfold ltof in IH. intros node rest.
  destruct pre as [|o [|n [|u pre]]]; try done.
  cbn [goodIntervals app foldIntervals]. intros [_ Hgs]%andb_prop.
  apply IH; [cbn; lia|done].
Qed.

Lemma trimEnd_app a b : trimEnd b <> "" -> trimEnd (a ++ b) = a ++ trimEnd b.
Proof.
  intros Hb. induction a as [|c a IH]; [done|].
  cbn [String.append trimEnd]. rewrite IH.
  destruct (a ++ trimEnd b) eqn:Hab; [|done].
  destruct a; [done|discriminate].
Qed.

Lemma trimEnd_nospace s : anyChar isSpace s = false -> trimEnd s = s.
Proof.
  induction s as [|c s IH]; [done|]. cbn [anyChar trimEnd].
  intros [Hc Hs]%orb_false_elim. rewrite (IH Hs), Hc. by destruct s.
Qed.

(** ** The text of a tree *)

Lemma unparse_head ast :
  variableOf ast <> "" ->
  anyChar (fun c => negb (isVarChar c)) (variableOf ast) = false ->
  exists c r, unparse ast = String c r /\ isSpace c = false.
Proof.
  intros Hne Hv. induction ast as [name|base IH operator amount unit].
  - cbn [unparse variableOf] in *. destruct name as [|c r]; [done|].
    cbn [anyChar] in Hv. apply orb_false_elim in Hv as [Hc _]. apply negb_false_iff in Hc.
    exists c, r. split; [done|]. apply classes_not_space. by rewrite Hc.
  - destruct (IH Hne Hv) as (c & r & Heq & Hc). cbn [unparse]. rewrite Heq.
    by eexists c, _.
Qed.

Lemma unparse_trim ast :
  variableOf ast <> "" ->
  anyChar (fun c => negb (isVarChar c)) (variableOf ast) = false ->
  trim (unparse ast) = unparse ast.
Proof.
  intros Hne Hv. unfold trim.
  destruct (unparse_head ast Hne Hv) as (c & r & Heq & Hc).
  assert (trimStart (unparse ast) = unparse ast) as ->
    by (rewrite Heq; cbn [trimStart]; by rewrite Hc).
  destruct ast as [name|base operator amount unit].
  - cbn [unparse variableOf] in *. apply trimEnd_nospace.
    apply (anyChar_mono isSpace (fun c => negb (isVarChar c))); [|done].
    intros x Hx. destruct (isVarChar x) eqn:Hvx; [|done].
    rewrite (classes_not_space x) in Hx; [done|]. by rewrite Hvx.
  - cbn [unparse]. destruct (TimeUnit_text_of unit) as (_ & _ & Hune & _ & Hend).
    rewrite <- !append_assoc. rewrite trimEnd_app; rewrite Hend; done.
Qed.

Section Unparse.
Context `{Host}.
Variable maxAmount : Z.
Hypothesis maxAmount_exact : maxAmount < 2 ^ 53.

(** The tokens of the text of a tree, followed by those of what comes
    after it: a variable token and a run of accepted triples from which
    the parser builds the tree again. *)
Lemma tokenizeLoop_unparse ast :
  variableOf ast <> "" ->
  anyChar (fun c => negb (isVarChar c)) (variableOf ast) = false ->
  amountsWithin maxAmount ast ->
  forall tail fuel pos,
    (forall c r, tail = String c r -> isSpace c = true) ->
    (String.length (unparse ast ++ tail) <= fuel)%nat ->
    exists var (pre : list Token),
      tok_type var = VAR /\ tok_value var = variableOf ast /\
      goodIntervals maxAmount pre = true /\
      foldIntervals (var_ref (variableOf ast)) pre = ast /\
      tokenizeLoop fuel pos (unparse ast ++ tail)
      = match tokenizeLoop fuel (pos + strlen (unparse ast)) tail with
        | inr tokens => inr (var :: pre ++ tokens)%list
        | inl e => inl e
        end.
Proof.
  intros Hne Hv. induction ast as [name|base IH operator amount unit];
    intros Hamt tail fuel pos Htail Hfuel.
  - cbn [unparse variableOf] in *.
    exists (mkToken VAR name (pos + strlen "")), [].
    split; [done|]. split; [done|]. split; [done|]. split; [done|].
    pose proof (tokenizeLoop_token fuel pos "" VAR name tail) as Hstep.
    change ("" ++ name ++ tail) with (name ++ tail) in Hstep.
    rewrite Hstep; [| done | | done].
    + change (strlen "") with 0. by rewrite Z.add_0_r.
    + apply nextToken_variable; try done.
      intros c r Hc. by destruct (space_not_class c (Htail c r Hc)).
  - cbn [variableOf amountsWithin] in *. destruct Hamt as [Hamt Hamount].
    destruct (Operator_text_of operator) as [Hvo Hoo].
    destruct (TimeUnit_text_of unit) as (Hvu & Huu & Hune & Hul & _).
    destruct (decimal_spec amount ltac:(lia)) as (Hdne & Hdd & Hdv & _).
    pose proof (parseInt10_decimal amount ltac:(lia)) as Hpi.
    cbn [unparse] in *.
    set (sp := " ") in *.
    assert (anyChar (fun c => negb (isSpace c)) sp = false) as Hsp by done.
    assert (forall x (c : ascii) (r : string), sp ++ x = String c r -> isSpace c = true)
      as Hspace by (by intros x c r [= <- _]).
    rewrite !append_assoc. rewrite !append_assoc in Hfuel.
    destruct (IH Hne Hv Hamt
                (sp ++ Operator_text operator ++ sp ++ decimal amount ++ sp
                    ++ TimeUnit_text unit ++ tail) fuel pos (Hspace _) Hfuel)
      as (var & pre & Hty & Hval & Hg & Hfold & ->).
    rewrite !append_length in Hfuel.
    set (p1 := pos + strlen (unparse base)).
    rewrite (tokenizeLoop_token fuel p1 sp OPERATOR (Operator_text operator));
      [|done|apply nextToken_operator|rewrite !append_length; lia].
    set (p2 := p1 + strlen sp + strlen (Operator_text operator)).
    rewrite (tokenizeLoop_token fuel p2 sp NUMBER (decimal amount));
      [|done| |rewrite !append_length; lia].
    2:{ apply nextToken_number; try done.
        intros c r Hc. by destruct (space_not_class c (Hspace _ c r Hc)) as (_ & ? & _). }
    set (p3 := p2 + strlen sp + strlen (decimal amount)).
    rewrite (tokenizeLoop_token fuel p3 sp UNIT (TimeUnit_text unit));
      [|done| |rewrite !append_length; lia].
    2:{ apply nextToken_unit; try done.
        intros c r Hc. by destruct (space_not_class c (Htail c r Hc)) as (_ & _ & ?). }
    exists var,
      (pre ++ [mkToken OPERATOR (Operator_text operator) (p1 + strlen sp);
               mkToken NUMBER (decimal amount) (p2 + strlen sp);
               mkToken UNIT (TimeUnit_text unit) (p3 + strlen sp)])%list.
    split; [done|]. split; [done|].
    split.
    { apply goodIntervals_app; [done|]. unfold goodInterval.
      cbn [tok_type tok_value TokenType_eqb andb]. rewrite Hvo, Hpi, Hvu.
      destruct (Z.ltb_spec 0 amount); [|lia].
      destruct (Z.leb_spec amount maxAmount); [|lia]. done. }
    split.
    { rewrite (foldIntervals_app maxAmount) by done. rewrite Hfold.
      cbn [foldIntervals tok_value]. by rewrite Hoo, Hpi, Huu. }
    replace (p3 + strlen sp + strlen (TimeUnit_text unit))
      with (pos + strlen (unparse base ++ sp ++ Operator_text operator ++ sp
                            ++ decimal amount ++ sp ++ TimeUnit_text unit))
      by (subst p3 p2 p1; rewrite !strlen_app; lia).
    destruct (tokenizeLoop fuel _ tail) as [|tokens]; [done|].
    f_equal. f_equal. by rewrite <- app_assoc.
Qed.
End Unparse.

Section UnparseTokens.
Context `{Host}.
Variable maxAmount : Z.
Hypothesis maxAmount_exact : maxAmount < 2 ^ 53.

(** The tokens of the text of a tree. *)
Lemma tokenize_unparse ast :
  variableOf ast <> "" ->
  anyChar (fun c => negb (isVarChar c)) (variableOf ast) = false ->
  amountsWithin maxAmount ast ->
  exists var (pre : list Token) position,
    tokenize (unparse ast) = inr (var :: pre ++ [mkToken EOF "" position])%list /\
    tok_type var = VAR /\ tok_value var = variableOf ast /\
    goodIntervals maxAmount pre = true /\
    foldIntervals (var_ref (variableOf ast)) pre = ast.
Proof.
  intros Hne Hv Hamt. unfold tokenize. rewrite (unparse_trim ast Hne Hv).
  destruct (tokenizeLoop_unparse _ maxAmount_exact ast Hne Hv Hamt ""
              (String.length (unparse ast)) 0)
    as (var & pre & Hty & Hval & Hg & Hfold & Htok);
    [done|by rewrite append_nil_r|].
  rewrite append_nil_r in Htok.
  assert (forall fuel pos, tokenizeLoop fuel pos "" = inr [mkToken EOF "" (pos + 0)])
    as Hend by (by intros [|fuel] pos).
  rewrite Hend in Htok. by eexists var, pre, _.
Qed.
End UnparseTokens.

(** X15: writing a tree as text and parsing the text gives the tree back:
    for a variable name made of one or more characters of [A-Z_] and
    intervals whose amounts are from 1 to the limit (itself below 2^53),
    the text [VAR op amount unit op amount unit ...], within the length
    limit, parses to that very tree, with the intervals nested from left to
    right. *)
Theorem parse_unparse `{Host} ast options :
  nonEmpty (variableOf ast) = true ->
  allChars isVarChar (variableOf ast) = true ->
  amountsWithin (default 10000 (options ≫= maxIntervalAmount)) ast ->
  default 10000 (options ≫= maxIntervalAmount) < 2 ^ 53 ->
  strlen (unparse ast) <= default 200 (options ≫= maxExpressionLength) ->
  parse (unparse ast) options = inr ast.
Proof.
  intros Hne Hv Hamt Hmax Hlen.
  assert (variableOf ast <> "") as Hne'.
  { intros Heq. by rewrite Heq in Hne. }
  assert (anyChar (fun c => negb (isVarChar c)) (variableOf ast) = false) as Hv'.
  { unfold allChars in Hv. by apply negb_true_iff in Hv. }
  destruct (tokenize_unparse _ Hmax ast Hne' Hv' Hamt)
    as (var & pre & position & Htok & Hty & Hval & Hg & Hfold).
  rewrite parse_within_length, Htok, Parser_parse_run by done.
  cbn [length parseLoop currentToken hd tok_type TokenType_eqb negb].
  by rewrite Hval, Hfold.
Qed.

(** The example of the sources. *)
Lemma parse_unparse_witness :
  @parse exampleHost "SHIP_DATE + 2 days" None
  = inr (date_arithmetic (var_ref "SHIP_DATE") Plus 2 U_days).
Proof.
  apply (@parse_unparse exampleHost
           (date_arithmetic (var_ref "SHIP_DATE") Plus 2 U_days) None).
  - reflexivity.
  - reflexivity.
  - split; [exact I|]. split; vm_compute; (reflexivity || discriminate).
  - reflexivity.
  - vm_compute. discriminate.
Defined.

(** ** Evaluation along the intervals *)

Section Chains.
Context `{Host}.

(** The value of an expression, from the value of its variable. *)
Lemma Evaluator_evaluate_chain resolver ast :
  Evaluator_evaluate resolver ast =
    match evaluateVarRef resolver (variableOf ast) with
    | inl e => inl e
    | inr (V_date d) => inr (V_date (dateOf d ast))
    | inr v =>
        if hasInterval ast then inl (Coded (typeError v (firstInterval ast)))
        else inr v
    end.
Proof.
  induction ast as [name|base IH operator amount unit].
  - cbn [Evaluator_evaluate variableOf hasInterval dateOf].
    by destruct (evaluateVarRef resolver name) as [|[]].
  - cbn [Evaluator_evaluate variableOf hasInterval dateOf]. rewrite IH.
    destruct (evaluateVarRef resolver (variableOf base)) as [|[d|n|s]]; try done.
    all: destruct base; done.
Qed.
End Chains.

(** X16: an expression over a user variable that holds a date evaluates to
    the text of the date reached by applying its intervals one after the
    other, from left to right, each to the result of the one before; a bare
    variable gives the date itself. *)
Theorem evaluate_date_chain `{Host} ast context system value d :
  context !! variableOf ast = Some value ->
  parseDate value = Some d ->
  evaluate ast context system = inr (formatDate (dateOf d ast)).
Proof.
  intros Hctx Hdate. unfold evaluate.
  rewrite Evaluator_evaluate_chain. unfold evaluateVarRef.
  rewrite (resolve_user context system _ value Hctx).
  unfold resolveUserVariable. by rewrite Hdate.
Qed.

(** 2026-01-31 plus one month, minus one month: 2026-01-28. *)
Lemma evaluate_date_chain_witness :
  @evaluate exampleHost
    (date_arithmetic (date_arithmetic (var_ref "D") Plus 1 U_month) Minus 1 U_month)
    {[ "D" := "2026-01-31" ]} None
  = inr "2026-01-28".
Proof.
  rewrite (@evaluate_date_chain exampleHost _ {[ "D" := "2026-01-31" ]} None
             "2026-01-31" (Some (20484 * msPerDay))); reflexivity.
Defined.





(** ** Expressions that leave the range of dates *)

Lemma dateOf_overflow start ast name operator amount unit :
  firstInterval ast = date_arithmetic (var_ref name) operator amount unit ->
  addToDate start amount unit operator = None ->
  dateOf start ast = None.
Proof.
  intros Hfirst Hnone. induction ast as [name'|base IH operator' amount' unit']; [done|].
  cbn [firstInterval dateOf] in *. destruct base as [name'|base' ? ? ?].
  - injection Hfirst as _ -> -> ->. done.
  - rewrite (IH Hfirst). apply addToDate_None.
Qed.

(** X19: an expression whose first interval takes a calendar date out of
    the range of dates does not fail: whatever intervals follow, the date
    stays invalid and the value is the text [NaN-NaN-NaN]. *)
Theorem evaluate_out_of_range `{Host} ast context system value t operator amount unit :
  context !! variableOf ast = Some value ->
  parseDate value = Some (Some t) ->
  isCalendarDate t ->
  firstInterval ast
  = date_arithmetic (var_ref (variableOf ast)) operator amount unit ->
  ~ inDateRange (shiftedDay t amount unit operator) ->
  evaluate ast context system = inr "NaN-NaN-NaN".
Proof.
  intros Hctx Hdate Hc Hfirst Hout. unfold evaluate.
  rewrite Evaluator_evaluate_chain. unfold evaluateVarRef.
  rewrite (resolve_user context system _ value Hctx).
  unfold resolveUserVariable. rewrite Hdate.
  rewrite (dateOf_overflow (Some t) ast _ _ _ _ Hfirst); [done|].
  by apply addToDate_out_of_range.
Qed.

(** 2026-01-01 plus 100,000,000 days, minus one day. *)
Lemma evaluate_out_of_range_witness :
  @evaluate exampleHost
    (date_arithmetic (date_arithmetic (var_ref "D") Plus 100000000 U_days) Minus 1 U_day)
    {[ "D" := "2026-01-01" ]} None
  = inr "NaN-NaN-NaN".
Proof.
  apply (@evaluate_out_of_range exampleHost _ {[ "D" := "2026-01-01" ]} None
           "2026-01-01" (20454 * msPerDay) Plus 100000000 U_days).
  - reflexivity.
  - reflexivity.
  - split; [reflexivity|]. split; vm_compute; discriminate.
  - reflexivity.
  - intros [_ Hhi]. vm_compute in Hhi. by apply Hhi.
Defined.

(** ** Validation *)

Lemma stripClosing_closed e : stripClosing (e ++ "}}") = e.
Proof.
  induction e as [|c e IH]; [done|].
  cbn [String.append stripClosing]. rewrite IH.
  destruct (String.eqb_spec (String c (e ++ "}}")) "}}") as [Heq|]; [|done].
  apply (f_equal String.length) in Heq. cbn in Heq. rewrite append_length in Heq.
  cbn in Heq. lia.
Qed.

Lemma stripClosing_open e :
  (forall r, e <> r ++ "}}") -> stripClosing e = e.
Proof.
  induction e as [|c e IH]; [done|]. intros Hend.
  cbn [stripClosing].
  destruct (String.eqb_spec (String c e) "}}") as [Heq|]; [by destruct (Hend "")|].
  rewrite IH; [done|]. intros r ->. by destruct (Hend (String c r)).
Qed.

Lemma stripBraces_tokenText e : stripBraces (tokenText e) = e.
Proof. unfold tokenText. cbn. apply stripClosing_closed. Qed.

Section EvaluateCodes.
Context `{Host}.

End EvaluateCodes.

(** X20: [validateExpression] takes the expression with or without its
    braces: on the token text [{{e}}] it reports the result of parsing the
    trimmed inner text [e] under the engine's limits, valid when it parses
    and else invalid with the message of the parse error; on an expression
    that neither starts with two opening braces nor ends with two closing
    braces it gives the same answer as on the expression put in braces. *)
Theorem validateExpression_braces `{Host} engine e :
  validateExpression engine (tokenText e)
  = match parse (trim e)
            (Some {| maxExpressionLength := Some (engine_maxExpressionLength engine);
                     maxIntervalAmount := Some (engine_maxIntervalAmount engine) |})
    with
    | inl error => mkValidationResult false (Some (pe_message error))
    | inr _ => mkValidationResult true None
    end /\
  ((forall r, e <> "{{" ++ r) -> (forall r, e <> r ++ "}}") ->
   validateExpression engine e = validateExpression engine (tokenText e)).
Proof.
  split; [unfold validateExpression; by rewrite stripBraces_tokenText|].
  intros Hstart Hend. unfold validateExpression.
  rewrite stripBraces_tokenText.
  assert (stripBraces e = e) as ->; [|done].
  unfold stripBraces. destruct e as [|o1 [|o2 r]]; try by apply stripClosing_open.
  destruct (Ascii.eqb_spec o1 "{") as [->|]; [|by apply stripClosing_open].
  destruct (Ascii.eqb_spec o2 "{") as [->|]; [|by apply stripClosing_open].
  by destruct (Hstart r).
Qed.

Lemma validateExpression_braces_witness :
  @validateExpression exampleHost defaultEngine "A"
  = @validateExpression exampleHost defaultEngine "{{A}}".
Proof.
  destruct (@validateExpression_braces exampleHost defaultEngine "A") as [_ Hsame].
  apply Hsame.
  - intros r Hr. discriminate.
  - intros [|c [|c' r]] Hr; discriminate.
Defined.


(** X22: [processText] records at most one error for each occurrence that
    [extractExpressions] lists, and when every occurrence fails the text
    comes back unchanged. *)
Theorem processText_errors_bound `{Host} engine text context :
  (length (pr_errors (processText engine text context))
   <= length (extractExpressions text))%nat /\
  (length (pr_errors (processText engine text context))
   = length (extractExpressions text) ->
   pr_text (processText engine text context) = text).
Proof.
  rewrite processText_pieces. cbn [pr_errors pr_text].
  unfold extractExpressions.
  assert (forall ps,
          (length (concat (map (pieceErrors engine context) ps))
           <= length (matchedTexts ps))%nat /\
          (length (concat (map (pieceErrors engine context) ps))
           = length (matchedTexts ps) ->
           map (pieceOutput engine context) ps = map pieceText ps)) as Hall.
  { induction ps as [|p ps [IHle IHeq]]; [done|].
    destruct p as [c|expression].
    - cbn [map concat pieceErrors matchedTexts omap app list_omap].
      split; [done|]. intros Hlen. cbn [pieceOutput pieceText]. f_equal. by apply IHeq.
    - unfold matchedTexts in *. cbn [map concat pieceErrors omap list_omap pieceOutput pieceText].
      destruct (expressionOutcome engine context expression);
        cbn [app length]; split; try lia.
      intros Hlen. f_equal. apply IHeq. lia. }
  destruct (Hall (pieces text)) as [Hle Heq].
  split; [done|]. intros Hlen. rewrite (Heq Hlen). apply pieces_text.
Qed.

Lemma processText_errors_bound_witness :
  pr_text (@processText exampleHost defaultEngine "{{a}} and {{B +}}" ∅)
  = "{{a}} and {{B +}}".
Proof.
  destruct (@processText_errors_bound exampleHost defaultEngine "{{a}} and {{B +}}" ∅)
    as [_ Hsame].
  apply Hsame. reflexivity.
Defined.

(** ** Texts cut at a token *)

Lemma matchToken_not_open c s : Ascii.eqb c "{" = false -> matchToken (String c s) = None.
Proof. intros Hc. unfold matchToken. destruct s; [done|]. by rewrite Hc. Qed.

Lemma scan_literal_prefix pre : forall s fuel,
  anyChar (fun c => Ascii.eqb c "{") pre = false ->
  (String.length (pre ++ s) <= fuel)%nat ->
  scan fuel (pre ++ s)
  = (map Literal (list_ascii_of_string pre) ++ scan fuel s)%list.
Proof.
  induction pre as [|c pre IH]; intros s fuel Hpre Hfuel; [done|].
  cbn [anyChar] in Hpre. apply orb_false_elim in Hpre as [Hc Hpre].
  cbn [String.append String.length] in *. rewrite append_length in Hfuel.
  destruct fuel as [|fuel]; [lia|].
  rewrite (scan_fuel (S fuel) fuel s) by lia.
  cbn [scan list_ascii_of_string map app]. rewrite matchToken_not_open by done.
  rewrite IH by (done || rewrite append_length; lia). done.
Qed.

Lemma scan_token e rest fuel :
  e <> "" -> anyChar isRBrace e = false ->
  (String.length (tokenText e ++ rest) <= fuel)%nat ->
  scan fuel (tokenText e ++ rest) = Occurrence e :: scan fuel rest.
Proof.
  intros Hne Hplain Hfuel.
  assert (matchToken (tokenText e ++ rest) = Some (e, rest)) as Hmatch
    by (by apply matchToken_Some).
  rewrite append_length in Hfuel.
  assert (String.length (tokenText e) = 4 + String.length e)%nat as Hlen
    by (unfold tokenText; rewrite !append_length; cbn; lia).
  destruct fuel as [|fuel]; [lia|].
  rewrite (scan_fuel (S fuel) fuel rest) by lia.
  destruct (tokenText e ++ rest) as [|c r] eqn:Hs;
    [unfold tokenText in Hs; done|].
  cbn [scan]. by rewrite Hmatch.
Qed.

Lemma concatStrings_app (a b : list string) :
  concatStrings (a ++ b) = concatStrings a ++ concatStrings b.
Proof.
  induction a as [|x a IH]; [done|]. cbn [app concatStrings fold_right].
  fold (concatStrings (a ++ b)). fold (concatStrings a). by rewrite IH, append_assoc.
Qed.

(** X23: [processText] works through a text token by token: on a text made
    of a part without opening braces, then a token [{{e}}] whose inner text
    is not empty and holds no closing brace, then a rest, the output is that
    part unchanged, then what the token is replaced by, then the output for
    the rest processed on its own; the errors are those of the token followed
    by those of the rest. *)
Theorem processText_token_boundary `{Host} engine context pre e rest :
  anyChar (fun c => Ascii.eqb c "{") pre = false ->
  e <> "" -> anyChar isRBrace e = false ->
  processText engine (pre ++ tokenText e ++ rest) context
  = mkProcessResult
      (pre ++ (replacer engine context e).1
           ++ pr_text (processText engine rest context))
      ((replacer engine context e).2
         ++ pr_errors (processText engine rest context)).
Proof.
  intros Hpre Hne Hplain.
  rewrite !processText_pieces, replacer_outcome. cbn [fst snd pr_text pr_errors].
  unfold pieces at 1 2.
  rewrite scan_literal_prefix by done.
  rewrite scan_token by (done || rewrite !append_length; lia).
  rewrite (scan_fuel _ (String.length rest) rest)
    by (rewrite ?append_length; lia).
  fold (pieces rest).
  rewrite !map_app, concat_app, concatStrings_app.
  cbn [map concat concatStrings fold_right].
  fold (concatStrings (map (pieceOutput engine context) (pieces rest))).
  f_equal.
  - f_equal. clear. induction pre as [|c pre IH]; [done|].
    cbn [list_ascii_of_string map concatStrings fold_right pieceOutput].
    fold (concatStrings (map (pieceOutput engine context)
                           (map Literal (list_ascii_of_string pre)))).
    by rewrite IH.
  - clear. induction pre as [|c pre IH]; [done|].
    cbn [list_ascii_of_string map concat pieceErrors app]. exact IH.
Qed.

(** The example of the sources. *)
Lemma processText_token_boundary_witness :
  @processText exampleHost defaultEngine "Ship date: {{SHIP_DATE + 2 days}}"
    {[ "SHIP_DATE" := "2026-02-16" ]}
  = mkProcessResult "Ship date: 2026-02-18" [].
Proof.
  rewrite (@processText_token_boundary exampleHost defaultEngine
             {[ "SHIP_DATE" := "2026-02-16" ]} "Ship date: " "SHIP_DATE + 2 days" "").
  - reflexivity.
  - reflexivity.
  - discriminate.
  - reflexivity.
Defined.

(** ** From the text to the value *)

Lemma unparse_plain maxAmount ast :
  variableOf ast <> "" ->
  anyChar (fun c => negb (isVarChar c)) (variableOf ast) = false ->
  amountsWithin maxAmount ast ->
  unparse ast <> "" /\ anyChar isRBrace (unparse ast) = false.
Proof.
  intros Hne Hv Hamt. split.
  - destruct (unparse_head ast Hne Hv) as (c & r & -> & _). done.
  - induction ast as [name|base IH operator amount unit].
    + cbn [unparse variableOf] in *.
      apply (anyChar_mono isRBrace (fun c => negb (isVarChar c))); [|done].
      intros c Hc. unfold isRBrace in Hc. apply Ascii.eqb_eq in Hc. by subst c.
    + cbn [unparse variableOf amountsWithin] in *. destruct Hamt as [Hamt Hamount].
      destruct (decimal_spec amount ltac:(lia)) as (_ & Hd & _).
      rewrite !anyChar_app, (IH Hne Hv Hamt).
      assert (anyChar isRBrace (decimal amount) = false) as ->.
      { apply (anyChar_mono isRBrace (fun c => negb (isDigit c))); [|done].
        intros c Hc. unfold isRBrace in Hc. apply Ascii.eqb_eq in Hc. by subst c. }
      by destruct operator, unit.
Qed.

Lemma pieces_token e :
  e <> "" -> anyChar isRBrace e = false -> pieces (tokenText e) = [Occurrence e].
Proof.
  intros Hne Hplain. unfold pieces.
  rewrite <- (append_nil_r (tokenText e)) at 2.
  rewrite scan_token by (done || by rewrite append_nil_r).
  by destruct (String.length (tokenText e)).
Qed.

(** X24: from the text to the value: a token whose inner text is a
    well-formed expression (a variable of [A-Z_], intervals with amounts
    from 1 to the engine's limit, within the engine's length limit) over a
    user variable that holds a date is replaced by the text of the date
    reached by its intervals, with no error; a bare variable is replaced by
    its value as text, whatever its type. *)
Theorem processText_date_expression `{Host} engine context ast value :
  nonEmpty (variableOf ast) = true ->
  allChars isVarChar (variableOf ast) = true ->
  amountsWithin (engine_maxIntervalAmount engine) ast ->
  engine_maxIntervalAmount engine < 2 ^ 53 ->
  strlen (unparse ast) <= engine_maxExpressionLength engine ->
  context !! variableOf ast = Some value ->
  (forall d, parseDate value = Some d ->
     processText engine (tokenText (unparse ast)) context
     = mkProcessResult (formatDate (dateOf d ast)) []) /\
  (hasInterval ast = false ->
   processText engine (tokenText (unparse ast)) context
   = mkProcessResult (renderValue (resolveUserVariable value)) []).
Proof.
  intros Hne Hv Hamt Hmax Hlen Hctx.
  assert (variableOf ast <> "") as Hne'.
  { intros Heq. by rewrite Heq in Hne. }
  assert (anyChar (fun c => negb (isVarChar c)) (variableOf ast) = false) as Hv'.
  { unfold allChars in Hv. by apply negb_true_iff in Hv. }
  destruct (unparse_plain _ ast Hne' Hv' Hamt) as [Hnonempty Hplain].
  set (options := Some {| maxExpressionLength := Some (engine_maxExpressionLength engine);
                          maxIntervalAmount := Some (engine_maxIntervalAmount engine) |}).
  assert (parse (trim (unparse ast)) options = inr ast) as Hparse.
  { rewrite (unparse_trim ast Hne' Hv').
    destruct (tokenize_unparse _ Hmax ast Hne' Hv' Hamt)
      as (var & pre & position & Htok & Hty & Hval & Hg & Hfold).
    rewrite parse_within_length, Htok by done.
    cbn [options default from_option id mbind option_bind maxIntervalAmount].
    rewrite Parser_parse_run by done.
    cbn [length parseLoop currentToken hd tok_type TokenType_eqb negb].
    by rewrite Hval, Hfold. }
  assert (forall text,
            evaluate ast context (Some (engine_systemVariables engine)) = inr text ->
            processText engine (tokenText (unparse ast)) context = mkProcessResult text [])
    as Hprocess.
  { intros text Heval. rewrite processText_pieces, pieces_token by done.
    cbn [map concatStrings fold_right concat pieceOutput pieceErrors app].
    unfold expressionOutcome. fold options. rewrite Hparse, Heval.
    by rewrite append_nil_r. }
  split.
  - intros d Hdate. apply Hprocess. unfold evaluate.
    rewrite Evaluator_evaluate_chain. unfold evaluateVarRef.
    rewrite (resolve_user context _ _ value Hctx).
    unfold resolveUserVariable. by rewrite Hdate.
  - intros Hbare. apply Hprocess. destruct ast as [name|]; [|done].
    by apply evaluate_user.
Qed.

(** The example of the sources: a date, two intervals. *)
Lemma processText_date_expression_witness :
  @processText exampleHost defaultEngine "{{ORDER_DATE + 1 month - 2 days}}"
    {[ "ORDER_DATE" := "2026-01-31" ]}
  = mkProcessResult "2026-02-26" [].
Proof.
  destruct (@processText_date_expression exampleHost defaultEngine
              {[ "ORDER_DATE" := "2026-01-31" ]}
              (date_arithmetic (date_arithmetic (var_ref "ORDER_DATE") Plus 1 U_month)
                 Minus 2 U_days)
              "2026-01-31") as [Hdate _].
  - reflexivity.
  - reflexivity.
  - split; [split; [exact I|]|]; split; vm_compute; (reflexivity || discriminate).
  - reflexivity.
  - vm_compute. discriminate.
  - reflexivity.
  - etransitivity; [exact (Hdate (Some (20484 * msPerDay)) eq_refl)|].
    reflexivity.
Defined.

(** ** How far an interval can move a date *)

(** Years and months as one count of months. *)
Lemma MakeDay_month_index y m d : MakeDay y m d = MakeDay 0 (12 * y + m) d.
Proof.
  rewrite (MakeDay_carry y m d), (MakeDay_carry 0 (12 * y + m) d).
  f_equal; zdiv.
Qed.

Lemma month_step k : 28 <= MakeDay 0 (k + 1) 1 - MakeDay 0 k 1 <= 31.
Proof.
  assert (0 <= k mod 12 <= 11) as Hm
    by (pose proof (Z.mod_pos_bound k 12 ltac:(lia)); lia).
  pose proof (DaysInMonth_range (k / 12) (k mod 12) Hm) as Hdim.
  assert (MakeDay 0 k 1 = MakeDay (k / 12) (k mod 12) 1) as ->
    by (rewrite (MakeDay_carry 0 k 1); f_equal).
  assert (MakeDay 0 (k + 1) 1 = MakeDay (k / 12) (k mod 12 + 1) 1) as ->.
  { rewrite (MakeDay_month_index (k / 12) (k mod 12 + 1) 1). f_equal.
    pose proof (Z.div_mod k 12). lia. }
  rewrite <- MakeDay_next_month by done.
  rewrite (Z.add_comm (DaysInMonth _ _) 1), MakeDay_date_shift. lia.
Qed.

Lemma months_bound (j : nat) : forall k,
  0 <= MakeDay 0 (k + Z.of_nat j) 1 - MakeDay 0 k 1 <= 31 * Z.of_nat j.
Proof.
  induction j as [|j IH]; intros k.
  - rewrite Z.add_0_r. lia.
  - rewrite Nat2Z.inj_succ.
    replace (k + Z.succ (Z.of_nat j)) with (k + Z.of_nat j + 1) by lia.
    pose proof (month_step (k + Z.of_nat j)). specialize (IH k). lia.
Qed.

Lemma months_bound_Z k j d :
  Z.abs (MakeDay 0 (k + j) d - MakeDay 0 k d) <= 31 * Z.abs j.
Proof.
  assert (forall x, MakeDay 0 x d = MakeDay 0 x 1 + (d - 1)) as Hd
    by (intros x; rewrite <- MakeDay_date_shift; f_equal; lia).
  rewrite !Hd.
  destruct (Z.le_gt_cases 0 j) as [Hj|Hj].
  - pose proof (months_bound (Z.to_nat j) k) as Hb.
    rewrite Z2Nat.id in Hb by done. lia.
  - pose proof (months_bound (Z.to_nat (- j)) (k + j)) as Hb.
    rewrite Z2Nat.id in Hb by lia.
    replace (k + j + - j) with k in Hb by lia. lia.
Qed.

(** An interval of amount [a] moves the day by at most 375 [a] days. *)
Lemma shift_bound t amount unit operator :
  0 < amount ->
  Z.abs (shiftedDay t amount unit operator - Day t) <= 372 * amount /\
  Z.abs (applyInterval_spec t amount unit operator - Day t) <= 375 * amount.
Proof.
  intros Ha.
  destruct (MakeDay_of_fields t) as (Hday & Hm & Hdt).
  pose proof (DaysInMonth_range (YearFromTime t) _ Hm) as Hdim.
  assert (Z.abs (signedAmount amount operator) = amount) as Habs
    by (destruct operator; cbn [signedAmount]; lia).
  set (a := signedAmount amount operator) in *.
  assert (forall y m, 0 <= m <= 11 ->
            0 <= MakeDay y m (DateFromTime t)
                 - MakeDay y m (Z.min (DateFromTime t) (DaysInMonth y m)) <= 3) as Hclamp.
  { intros y m Hm'. pose proof (DaysInMonth_range y m Hm').
    assert (MakeDay y m (DateFromTime t)
            = MakeDay y m (Z.min (DateFromTime t) (DaysInMonth y m))
              + (DateFromTime t - Z.min (DateFromTime t) (DaysInMonth y m))) as ->
      by (rewrite <- MakeDay_date_shift; f_equal; lia).
    lia. }
  assert (Day t = MakeDay 0 (12 * YearFromTime t + MonthFromTime t) (DateFromTime t))
    as Hstart by (by rewrite <- MakeDay_month_index).
  unfold applyInterval_spec, shiftedDay, targetMonth. fold a.
  destruct unit.
  1-4: lia.
  1-2: assert (0 <= (MonthFromTime t + a) mod 12 <= 11) as Hm'
         by (pose proof (Z.mod_pos_bound (MonthFromTime t + a) 12 ltac:(lia)); lia);
       pose proof (Hclamp (YearFromTime t + (MonthFromTime t + a) / 12)
                     ((MonthFromTime t + a) mod 12) Hm');
       rewrite <- (MakeDay_carry (YearFromTime t) (MonthFromTime t + a) (DateFromTime t)) in *;
       pose proof (months_bound_Z (12 * YearFromTime t + MonthFromTime t) a (DateFromTime t));
       rewrite (MakeDay_month_index (YearFromTime t) (MonthFromTime t + a)) in *;
       replace (12 * YearFromTime t + (MonthFromTime t + a))
         with (12 * YearFromTime t + MonthFromTime t + a) in * by lia;
       lia.
  1-2: pose proof (Hclamp (YearFromTime t + a) (MonthFromTime t) Hm);
       pose proof (months_bound_Z (12 * YearFromTime t + MonthFromTime t) (12 * a)
                     (DateFromTime t));
       rewrite (MakeDay_month_index (YearFromTime t + a) (MonthFromTime t)) in *;
       replace (12 * (YearFromTime t + a) + MonthFromTime t)
         with (12 * YearFromTime t + MonthFromTime t + 12 * a) in * by lia;
       lia.
Qed.

(** Intervals whose amounts are small enough keep a calendar date in the
    range. *)
Lemma dateOf_in_range maxAmount ast : forall t,
  isCalendarDate t ->
  amountsWithin maxAmount ast ->
  Z.abs (Day t) + 375 * totalAmount ast <= 100000000 ->
  exists t',
    dateOf (Some t) ast = Some t' /\ isCalendarDate t' /\
    Z.abs (Day t' - Day t) <= 375 * totalAmount ast.
Proof.
  induction ast as [name|base IH operator amount unit]; intros t Hc Hamt Hbound.
  - exists t. cbn [dateOf totalAmount]. split; [done|]. split; [done|]. lia.
  - cbn [dateOf totalAmount amountsWithin] in *. destruct Hamt as [Hamt Hamount].
    destruct (IH t Hc Hamt ltac:(lia)) as (t1 & -> & Hc1 & Hd1).
    destruct (shift_bound t1 amount unit operator ltac:(lia)) as [Hs Ha].
    assert (inDateRange (shiftedDay t1 amount unit operator)) as Hin
      by (unfold inDateRange; lia).
    assert (inDateRange (applyInterval_spec t1 amount unit operator)) as Hin'
      by (unfold inDateRange; lia).
    rewrite addToDate_spec by done. eexists. split; [done|].
    split; [by apply calendarDate_of_day|]. rewrite Day_of_day. lia.
Qed.

(** ** How many intervals fit in an expression *)

Lemma strlen_withoutSpaces s : strlen (withoutSpaces s) <= strlen s.
Proof.
  induction s as [|c s IH]; [done|]. cbn [withoutSpaces].
  destruct (isSpace c); rewrite ?strlen_String; lia.
Qed.

Lemma isValidTimeUnit_length unit : isValidTimeUnit unit = true -> 3 <= strlen unit.
Proof.
  unfold isValidTimeUnit. cbn [existsb]. intros Hu.
  repeat (apply orb_prop in Hu as [Hu|Hu];
          [apply String.eqb_eq in Hu; subst unit; by vm_compute|]).
  done.
Qed.

Lemma isValidOperator_length op : isValidOperator op = true -> strlen op = 1.
Proof.
  unfold isValidOperator.
  intros [Hop|Hop]%orb_prop; apply String.eqb_eq in Hop; by subst op.
Qed.

(** The amount a number token stands for, against the length of its
    interval: 1250 for each character is never exceeded under a limit of
    10000. *)
Lemma amount_per_character maxAmount op num unit :
  maxAmount <= 10000 ->
  goodInterval maxAmount op num unit = true ->
  tokenWellFormed num = true ->
  default 0 (parseInt10 (tok_value num))
  <= 1250 * (strlen (tok_value op) + strlen (tok_value num) + strlen (tok_value unit)).
Proof.
  intros Hmax Hg Hwf.
  apply (goodInterval_inv maxAmount) in Hg as (_ & Hvo & Htn & _ & Hvu & a & Ha & Hr).
  pose proof (isValidOperator_length _ Hvo) as Hol.
  pose proof (isValidTimeUnit_length _ Hvu) as Hul.
  unfold tokenWellFormed in Hwf. rewrite Htn in Hwf.
  apply andb_prop in Hwf as [Hne Hdigits].
  unfold nonEmpty in Hne. apply negb_true_iff in Hne.
  unfold allChars in Hdigits. apply negb_true_iff in Hdigits.
  assert (tok_value num <> "") as Hne' by (intros Heq; by rewrite Heq in Hne).
  pose proof (digitsValue_range _ Hdigits) as Hrange.
  rewrite Ha. cbn [default from_option id].
  destruct (Z.le_gt_cases 4 (strlen (tok_value num))) as [Hlong|Hshort]; [lia|].
  assert (10 ^ strlen (tok_value num) <= 10 ^ 3)
    by (apply Z.pow_le_mono_r; [lia|]; pose proof (strlen_nonneg (tok_value num)); lia).
  rewrite parseInt10_digits in Ha by (done || lia).
  injection Ha as <-.
  assert (1 <= strlen (tok_value num)).
  { destruct (tok_value num); [done|]. rewrite strlen_String.
    pose proof (strlen_nonneg s). lia. }
  lia.
Qed.

Lemma amounts_per_character maxAmount (pre : list Token) : forall node,
  maxAmount <= 10000 ->
  goodIntervals maxAmount pre = true ->
  forallb tokenWellFormed pre = true ->
  totalAmount (foldIntervals node pre)
  <= totalAmount node + 1250 * strlen (concatStrings (map tok_value pre)).
Proof.
  induction pre as [pre IH] using (induction_ltof1 _ (@length Token)).
  unfold ltof in IH. intros node Hmax Hg Hwf.
  destruct pre as [|o [|n [|u pre]]]; try done.
  - cbn [foldIntervals map concatStrings fold_right]. change (strlen "") with 0. lia.
  - cbn [goodIntervals] in Hg. apply andb_prop in Hg as [Hg Hgs].
    cbn [forallb] in Hwf.
    apply andb_prop in Hwf as [_ Hwf]. apply andb_prop in Hwf as [Hwn Hwf].
    apply andb_prop in Hwf as [_ Hwf].
    pose proof (amount_per_character maxAmount o n u Hmax Hg Hwn) as Hone.
    cbn [foldIntervals map concatStrings fold_right].
    fold (concatStrings (map tok_value pre)).
    specialize (IH pre ltac:(cbn; lia)
                  (date_arithmetic node (Operator_of (tok_value o))
                     (default 0 (parseInt10 (tok_value n)))
                     (TimeUnit_of (tok_value u))) Hmax Hgs Hwf).
    cbn [totalAmount] in IH. rewrite !strlen_app. lia.
Qed.

Section ParserShape.
Context `{Host}.

(** What [Parser.parse] accepted, on tokens that end with their only
    end-of-input token. *)
Lemma Parser_parse_shape maxAmount tokens ast :
  eofLast tokens = true ->
  Parser_parse maxAmount tokens = inr ast ->
  exists var pre eof,
    tokens = var :: (pre ++ [eof])%list /\
    tok_type var = VAR /\
    goodIntervals maxAmount pre = true /\
    ast = foldIntervals (var_ref (tok_value var)) pre.
Proof.
  intros Hlast. unfold Parser_parse, parseExpression, parsePrimary.
  destruct (TokenType_eqb (tok_type (currentToken tokens)) VAR) eqn:Hvar; [|done].
  apply TokenType_eqb_eq in Hvar.
  destruct tokens as [|var tokens]; [done|]. cbn [currentToken hd] in *.
  rewrite advance_cons by (by rewrite Hvar).
  apply eofLast_tail in Hlast; [|by rewrite Hvar].
  destruct (parseLoop _ _ _ _) as [|[node' tokens']] eqn:Hrun; [done|].
  pose proof (parseLoop_inr maxAmount _ _ _ _ _ Hrun) as (_ & _ & Hlast' & _).
  apply parseLoop_inr_run in Hrun as (pre & -> & Hg & -> & _).
  destruct (TokenType_eqb (tok_type (currentToken tokens')) EOF) eqn:Hend; [|done].
  cbn [negb]. intros [= <-].
  destruct (eofLast_head_eof tokens' (Hlast' Hlast) Hend) as [eof ->].
  by exists var, pre, eof.
Qed.

(** Under a length limit of 200 and an amount limit of 10000, the
    amounts of a parsed expression sum to at most 1250 for each character
    after the first. *)
Lemma parse_totalAmount expression options ast :
  default 200 (options ≫= maxExpressionLength) <= 200 ->
  default 10000 (options ≫= maxIntervalAmount) <= 10000 ->
  parse expression options = inr ast ->
  totalAmount ast <= 1250 * 199 /\
  amountsWithin (default 10000 (options ≫= maxIntervalAmount)) ast.
Proof.
  intros Hlen Hmax Hparse. split; [|by eapply parse_inr_amounts].
  assert (strlen expression <= 200) as Hshort.
  { destruct (Z.le_gt_cases (strlen expression) 200) as [|Hlong]; [done|].
    rewrite parse_too_long in Hparse by lia. done. }
  destruct (Z.le_gt_cases (strlen expression)
              (default 200 (options ≫= maxExpressionLength))) as [Hin|Hout].
  2:{ rewrite parse_too_long in Hparse by lia. done. }
  rewrite parse_within_length in Hparse by done.
  pose proof (tokenize_spec expression) as Hspec.
  destruct (firstUnrecognized (trim expression) 0) as [[c p]|];
    [by rewrite Hspec in Hparse|].
  destruct Hspec as (front & Htok & Hfront & Hwf & _ & Hcat).
  rewrite Htok in Hparse.
  pose proof (tokenize_total expression) as Htotal.
  destruct (anyChar unrecognized expression).
  { destruct Htotal as (c & p & Hfail). by rewrite Hfail in Htok. }
  destruct Htotal as (tokens & Htok' & Hlast).
  rewrite Htok in Htok'. injection Htok' as <-.
  destruct (Parser_parse_shape _ _ _ Hlast Hparse) as (var & pre & eof & Heq & Hty & Hg & ->).
  change (var :: (pre ++ [eof])%list) with ((var :: pre) ++ [eof])%list in Heq.
  apply app_inj_tail in Heq as [-> _].
  cbn [forallb map concatStrings fold_right] in Hwf, Hcat.
  fold (concatStrings (map tok_value pre)) in Hcat.
  apply andb_prop in Hwf as [Hwv Hwf].
  unfold tokenWellFormed in Hwv. rewrite Hty in Hwv.
  apply andb_prop in Hwv as [Hne _]. unfold nonEmpty in Hne.
  assert (1 <= strlen (tok_value var)).
  { destruct (tok_value var); [done|]. rewrite strlen_String.
    pose proof (strlen_nonneg s). lia. }
  pose proof (strlen_withoutSpaces expression) as Hws.
  rewrite <- Hcat, strlen_app in Hws.
  pose proof (amounts_per_character _ pre (var_ref (tok_value var)) Hmax Hg Hwf) as Hsum.
  cbn [totalAmount] in Hsum. lia.
Qed.
End ParserShape.

Lemma four_digit_year_day y m dt :
  0 <= y <= 9999 -> 0 <= m <= 11 -> 1 <= dt <= 31 ->
  Z.abs (MakeDay y m dt) <= 3000000.
Proof.
  intros Hy Hm Hd. rewrite MakeDay_normal by done.
  assert (0 <= monthStart (leapDay y) m <= 335) as Hs
    by (destruct (leapDay_cases y) as [[-> _]|[-> _]]; month_cases m Hc; cbn; lia).
  unfold DayFromYear. zdiv.
Qed.

Section PlainStart.
Context `{Host}.

(** A date read from a plain text is a calendar date of a year from 0 to
    9999. *)
Lemma parseDate_plain_day value d :
  isoDateRegex value = true ->
  parseDate value = Some d ->
  exists t, d = Some t /\ isCalendarDate t /\ Z.abs (Day t) <= 3000000.
Proof.
  intros Hre Hparse.
  destruct (parseDate_plain_inv value d Hre Hparse) as [Hformat Hof].
  rewrite (Date_ofString_plain value Hre) in Hof.
  destruct (isoDateRegex_inv value Hre)
    as (y1 & y2 & y3 & y4 & m1 & m2 & d1 & d2 & Hvalue & Hyd & Hmd & Hdd).
  assert (yearField value = digitsValue (String y1 (String y2 (String y3 (String y4 "")))))
    as Hyf by (by rewrite Hvalue).
  pose proof (digitsValue_range _ Hyd) as Hy. rewrite <- Hyf in Hy.
  change (10 ^ strlen _) with 10000 in Hy.
  destruct ((1 <=? monthField value) && (monthField value <=? 12)
            && (1 <=? dayField value)
            && (dayField value <=? (if lenientDayOfMonth then 31
                  else DaysInMonth (yearField value) (monthField value - 1))))
    eqn:Hcond.
  - apply andb_prop in Hcond as [Hcond Hd2]. apply andb_prop in Hcond as [Hcond Hd1].
    apply andb_prop in Hcond as [Hm1 Hm2].
    apply Z.leb_le in Hm1, Hm2, Hd1, Hd2.
    pose proof (DaysInMonth_range (yearField value) (monthField value - 1) ltac:(lia)).
    assert (dayField value <= 31) by (destruct lenientDayOfMonth; lia).
    rewrite TimeClip_day in Hof by (apply year_in_range; lia).
    eexists. split; [done|].
    split; [apply calendarDate_of_day, year_in_range; lia|].
    rewrite Day_of_day. apply four_digit_year_day; lia.
  - subst d. rewrite <- Hformat in Hre. done.
Qed.
End PlainStart.

(** X25: under the default limits (or stricter ones: expressions of at
    most 200 characters, amounts of at most 10000) date arithmetic never
    leaves the range of dates: an expression that parses, over a user
    variable given as a plain YYYY-MM-DD date, evaluates to the text of a
    valid calendar date, never to the Invalid Date. *)
Theorem default_limits_keep_dates_valid `{Host} expression options ast context system
    value d :
  default 200 (options ≫= maxExpressionLength) <= 200 ->
  default 10000 (options ≫= maxIntervalAmount) <= 10000 ->
  parse expression options = inr ast ->
  context !! variableOf ast = Some value ->
  isoDateRegex value = true ->
  parseDate value = Some d ->
  exists t',
    dateOf d ast = Some t' /\ isCalendarDate t' /\
    evaluate ast context system = inr (formatDate (Some t')).
Proof.
  intros Hlen Hmax Hparse Hctx Hre Hdate.
  destruct (parseDate_plain_day value d Hre Hdate) as (t & -> & Hc & Hday).
  destruct (parse_totalAmount expression options ast Hlen Hmax Hparse) as [Hsum Hamt].
  destruct (dateOf_in_range _ ast t Hc Hamt ltac:(lia)) as (t' & Hof & Hc' & _).
  exists t'. split; [done|]. split; [done|].
  unfold evaluate. rewrite Evaluator_evaluate_chain. unfold evaluateVarRef.
  rewrite (resolve_user context system _ value Hctx).
  unfold resolveUserVariable. by rewrite Hdate, Hof.
Qed.

(** The last date a plain text can spell, plus the largest amount of
    years. *)
Lemma default_limits_keep_dates_valid_witness :
  exists t',
    dateOf (Some (2932896 * msPerDay))
      (date_arithmetic (var_ref "D") Plus 10000 U_years) = Some t' /\
    isCalendarDate t' /\
    @evaluate exampleHost (date_arithmetic (var_ref "D") Plus 10000 U_years)
      {[ "D" := "9999-12-31" ]} None
    = inr (@formatDate exampleHost (Some t')).
Proof.
  apply (@default_limits_keep_dates_valid exampleHost "D + 10000 years" None
           (date_arithmetic (var_ref "D") Plus 10000 U_years)
           {[ "D" := "9999-12-31" ]} None "9999-12-31" (Some (2932896 * msPerDay))).
  - vm_compute. discriminate.
  - vm_compute. discriminate.
  - reflexivity.
  - reflexivity.
  - reflexivity.
  - reflexivity.
Defined.
